(** * auto-crawler: session-context extraction and the progress engine

    A shallow embedding of [http_client.py] (class [MoodleClient]),
    [jobs.py] (the five jobs), [parsers.py], [config.py] and the function
    [main] of [main.py].

    Conventions of the embedding.
    - A Python [str] is a [string] (its UTF-8 bytes); the regular
      expression classes [\s] and [\d] are the ASCII ones.
    - Python objects read from JSON are values of [pyval]; a [dict] is an
      association list in insertion order with distinct keys.
    - An operation that can raise returns a [result]; [try ... except
      Exception] is [try_except], which catches every [Raise].
    - The network, [random.random] and the parts of the Python runtime
      that are not embedded (floats read from JSON, the [repr] of
      containers, BeautifulSoup) are fields of an environment [env];
      every theorem that names an [env] holds for all of them.
    - A request of the trace is one call of [session.get] or
      [session.post], with the URL the code hands to the session. What
      the [requests] library does within a call (a redirect that it
      follows is a further request, to the address the answer names) is
      not recorded: the outcome of a call is the last answer.
    - The wall clock is a rational number of seconds that only moves
      forward: a request takes the time the environment says, and
      [time.sleep(s)] takes [s] seconds or more.
    - The progress fraction is computed in binary64, as Python does.
    - Console output ([print]) is not part of the model.
    - Module [Parsers] embeds what [parsers.py] does with the answers of
      BeautifulSoup to its queries: an element is the record of what the
      code reads from it. The jobs take the list of the videos of a page
      from the environment; the list of the courses of a page and what
      [main] reads from its process (the environment variable, the
      payload file) are variables of the sections that use them. *)

From Stdlib Require Import ZArith QArith List String Ascii Bool Arith Lia Lqa.
From Stdlib Require Import DecimalString.
From Stdlib Require Import PrimFloat FloatOps SpecFloat FloatAxioms.
Import ListNotations.

Set Warnings "-register-all".

Local Open Scope string_scope.
Local Open Scope Z_scope.

(* ================================================================= *)
(** ** Python values and exceptions *)

Module Py.

(** The exception classes that occur; all derive from [Exception]. *)
Inductive exn : Type :=
| HTTPError (status : Z)          (* requests.HTTPError, from raise_for_status *)
| TransportError (what : string)  (* requests.ConnectionError, Timeout, ... *)
| RuntimeError (msg : string)
| JSONDecodeError
| RecursionError
| ValueError
| TypeError
| AttributeError
| KeyError
| IndexError
| OverflowError.

Inductive result (A : Type) : Type :=
| Ok (a : A)
| Raise (e : exn).
Arguments Ok {A} a.
Arguments Raise {A} e.

Definition rbind {A B} (r : result A) (k : A -> result B) : result B :=
  match r with
  | Ok a => k a
  | Raise e => Raise e
  end.

(** [dq] is the double quote and [sq] the single quote. *)
Definition dq : ascii := "034"%char.
Definition sq : ascii := "'"%char.
Definition str1 (c : ascii) : string := String c EmptyString.

Inductive pyval : Type :=
| PNone
| PBool (b : bool)
| PInt (z : Z)
| PFloat (literal : string)   (* a float, kept as the literal it was read from *)
| PStr (s : string)
| PList (items : list pyval)
| PDict (entries : list (string * pyval)).

Definition dict := list (string * pyval).

Fixpoint dict_get (d : dict) (k : string) : option pyval :=
  match d with
  | [] => None
  | (k', v) :: d' => if String.eqb k k' then Some v else dict_get d' k
  end.

Definition dict_mem (k : string) (d : dict) : bool :=
  match dict_get d k with Some _ => true | None => false end.

(** [d[k] = v]: overwrite in place when the key exists, append otherwise. *)
Fixpoint dict_set (d : dict) (k : string) (v : pyval) : dict :=
  match d with
  | [] => [(k, v)]
  | (k', v') :: d' =>
      if String.eqb k k' then (k', v) :: d' else (k', v') :: dict_set d' k v
  end.

Definition dict_keys (d : dict) : list string := map fst d.

(** [dict.get(k)] with the default [None]. *)
Definition get_or_none (d : dict) (k : string) : pyval :=
  match dict_get d k with Some v => v | None => PNone end.

(** ASCII character classes. *)
Definition is_digit (c : ascii) : bool :=
  let n := nat_of_ascii c in (48 <=? n)%nat && (n <=? 57)%nat.

(** White space as [str.isspace] and the [\s] of [re] see it below 128. *)
Definition is_space (c : ascii) : bool :=
  let n := nat_of_ascii c in
  ((9 <=? n)%nat && (n <=? 13)%nat) || ((28 <=? n)%nat && (n <=? 32)%nat).

Definition in_range (lo hi c : ascii) : bool :=
  (nat_of_ascii lo <=? nat_of_ascii c)%nat && (nat_of_ascii c <=? nat_of_ascii hi)%nat.

(** [s.startswith(p)] and the rest of [s] after the prefix [p]. *)
Fixpoint strip_prefix (p s : string) : option string :=
  match p with
  | EmptyString => Some s
  | String a p' =>
      match s with
      | String b s' => if Ascii.eqb a b then strip_prefix p' s' else None
      | EmptyString => None
      end
  end.

Definition startswith (s p : string) : bool :=
  match strip_prefix p s with Some _ => true | None => false end.

(** [s.replace(old, new)] for a non-empty [old]: every occurrence, left to
    right, not overlapping. [skip] counts the characters of an occurrence
    that are still to be dropped. *)
Fixpoint replace_from (old new s : string) (skip : nat) : string :=
  match s with
  | EmptyString => EmptyString
  | String c s' =>
      match skip with
      | S k => replace_from old new s' k
      | O =>
          if startswith s old
          then new ++ replace_from old new s' (String.length old - 1)
          else String c (replace_from old new s' 0)
      end
  end.

Definition str_replace (s old new : string) : string := replace_from old new s 0.

Fixpoint lstrip (s : string) : string :=
  match s with
  | String c s' => if is_space c then lstrip s' else s
  | EmptyString => EmptyString
  end.

Fixpoint rstrip (s : string) : string :=
  match s with
  | EmptyString => EmptyString
  | String c s' =>
      match rstrip s' with
      | EmptyString => if is_space c then EmptyString else str1 c
      | r => String c r
      end
  end.

Definition strip (s : string) : string := rstrip (lstrip s).

Fixpoint all_chars (p : ascii -> bool) (s : string) : bool :=
  match s with
  | EmptyString => true
  | String c s' => p c && all_chars p s'
  end.

(** [s.isdigit()] *)
Definition isdigit (s : string) : bool :=
  match s with
  | EmptyString => false
  | _ => all_chars is_digit s
  end.

Fixpoint digits_value (s : string) (acc : Z) : Z :=
  match s with
  | EmptyString => acc
  | String c s' => digits_value s' (10 * acc + (Z.of_nat (nat_of_ascii c) - 48))
  end.

(** CPython refuses to convert more than 4300 digits (ValueError). *)
Definition int_max_str_digits : nat := 4300.

(** [int(s)] for a string of decimal digits. *)
Definition int_of_digits (s : string) : result Z :=
  if isdigit s then
    if (String.length s <=? int_max_str_digits)%nat then Ok (digits_value s 0)
    else Raise ValueError
  else Raise ValueError.

(** Digits with single underscores between them, as [int] accepts. *)
Fixpoint drop_underscores (s : string) (after_digit : bool) : option string :=
  match s with
  | EmptyString => if after_digit then Some EmptyString else None
  | String c s' =>
      if is_digit c then option_map (String c) (drop_underscores s' true)
      else if Ascii.eqb c "_" then
             if after_digit then drop_underscores s' false else None
           else None
  end.

(** [int(s)] for any string: white space, a sign, digits. *)
Definition int_of_str (s : string) : result Z :=
  let t := strip s in
  let '(neg, body) :=
    match t with
    | String "-" r => (true, r)
    | String "+" r => (false, r)
    | _ => (false, t)
    end in
  match drop_underscores body false with
  | Some ds => rbind (int_of_digits ds) (fun z => Ok (if neg then - z else z))
  | None => Raise ValueError
  end.

Definition str_of_Z (z : Z) : string := NilZero.string_of_int (Z.to_int z).

End Py.
Export Py.

(* ================================================================= *)
(** ** The regular expressions of module [re] *)

Module Re.

Inductive cset : Type :=
| CChar (c : ascii)
| CRange (lo hi : ascii)
| CSpace     (* \s *)
| CDigit.    (* \d *)

Definition in_cset (c : ascii) (i : cset) : bool :=
  match i with
  | CChar a => Ascii.eqb a c
  | CRange lo hi => in_range lo hi c
  | CSpace => is_space c
  | CDigit => is_digit c
  end.

Inductive regex : Type :=
| RLit (lit : string)                    (* literal text *)
| RSet (negated : bool) (items : list cset)   (* [...] and [^...] *)
| RAny (dotall : bool)                   (* . *)
| RSeq (r1 r2 : regex)
| RStar (greedy : bool) (r : regex)      (* r* and r*? *)
| RPlus (greedy : bool) (r : regex)      (* r+ and r+? *)
| ROpt (greedy : bool) (r : regex)       (* r? and r?? *)
| RGroup (n : nat) (r : regex).          (* the n-th capturing group *)

(** No capturing group occurs in [r]. *)
Fixpoint groupless (r : regex) : bool :=
  match r with
  | RLit _ | RSet _ _ | RAny _ => true
  | RSeq r1 r2 => groupless r1 && groupless r2
  | RStar _ r1 | RPlus _ r1 | ROpt _ r1 => groupless r1
  | RGroup _ _ => false
  end.

Definition caps := list (nat * string).

Fixpoint cap_get (g : caps) (n : nat) : option string :=
  match g with
  | [] => None
  | (m, s) :: g' => if Nat.eqb n m then Some s else cap_get g' n
  end.

(** The text between [s] and its suffix [rest]. *)
Definition consumed (s rest : string) : string :=
  String.substring 0 (String.length s - String.length rest) s.

Section Matcher.
Context {R : Type}.

Definition cont := string -> caps -> option R.

(** Iteration of [step], as the backtracking matcher of [re] orders the
    alternatives: a greedy loop tries one more round first, a lazy one
    tries to leave first. A round that consumes nothing ends the loop. *)
Fixpoint iterate (step : string -> caps -> cont -> option R) (greedy : bool)
         (fuel : nat) (s : string) (g : caps) (k : cont) : option R :=
  match fuel with
  | O => k s g
  | S f =>
      if greedy then
        match step s g (fun s' g' =>
                 if (String.length s' <? String.length s)%nat
                 then iterate step greedy f s' g' k else None) with
        | Some r => Some r
        | None => k s g
        end
      else
        match k s g with
        | Some r => Some r
        | None =>
            step s g (fun s' g' =>
                 if (String.length s' <? String.length s)%nat
                 then iterate step greedy f s' g' k else None)
        end
  end.

Fixpoint rmatch (r : regex) (s : string) (g : caps) (k : cont) {struct r} : option R :=
  match r with
  | RLit lit =>
      match strip_prefix lit s with
      | Some s' => k s' g
      | None => None
      end
  | RSet negated items =>
      match s with
      | String c s' => if xorb negated (existsb (in_cset c) items) then k s' g else None
      | EmptyString => None
      end
  | RAny dotall =>
      match s with
      | String c s' => if dotall || negb (Ascii.eqb c "010") then k s' g else None
      | EmptyString => None
      end
  | RSeq r1 r2 => rmatch r1 s g (fun s' g' => rmatch r2 s' g' k)
  | RStar greedy r1 => iterate (rmatch r1) greedy (String.length s) s g k
  | RPlus greedy r1 =>
      rmatch r1 s g (fun s' g' => iterate (rmatch r1) greedy (String.length s') s' g' k)
  | ROpt greedy r1 =>
      if greedy then
        match rmatch r1 s g k with
        | Some x => Some x
        | None => k s g
        end
      else
        match k s g with
        | Some x => Some x
        | None => rmatch r1 s g k
        end
  | RGroup n r1 => rmatch r1 s g (fun s' g' => k s' ((n, consumed s s') :: g'))
  end.
End Matcher.

(** A match: the text before it, the matched text's groups, the text after. *)
Record rmatched : Type := { m_rest : string; m_groups : caps }.

Definition match_at (r : regex) (s : string) : option rmatched :=
  rmatch r s [] (fun rest g => Some {| m_rest := rest; m_groups := g |}).

(** [re.search(r, s)]: the leftmost position with a match. *)
Fixpoint search (r : regex) (s : string) : option rmatched :=
  match match_at r s with
  | Some m => Some m
  | None =>
      match s with
      | EmptyString => None
      | String _ s' => search r s'
      end
  end.

(** [m.group(n)] of a group that took part in the match. *)
Definition group (m : rmatched) (n : nat) : string :=
  match cap_get (m_groups m) n with Some s => s | None => EmptyString end.

(** [re.sub(r, repl, s)] for an [r] that matches no empty text: every match,
    left to right, is replaced by [repl] of its groups. [skip] counts the
    characters of the current match still to be dropped. *)
Fixpoint sub_from (r : regex) (repl : rmatched -> string) (s : string) (skip : nat) : string :=
  match s with
  | EmptyString => EmptyString
  | String c s' =>
      match skip with
      | S k => sub_from r repl s' k
      | O =>
          match match_at r s with
          | Some m =>
              repl m ++ sub_from r repl s' (String.length s - String.length (m_rest m) - 1)
          | None => String c (sub_from r repl s' 0)
          end
      end
  end.

Definition sub (r : regex) (repl : rmatched -> string) (s : string) : string :=
  sub_from r repl s 0.

(** Abbreviations for the pieces the patterns of the source share. *)
Definition seq (rs : list regex) : regex :=
  fold_right RSeq (RLit EmptyString) rs.
Definition ws_star : regex := RStar true (RSet false [CSpace]).      (* \s* *)
Definition ws_plus : regex := RPlus true (RSet false [CSpace]).      (* \s+ *)
Definition digits_plus : regex := RPlus true (RSet false [CDigit]).  (* \d+ *)
Definition a_quote : regex := RSet false [CChar dq; CChar sq].       (* either quote *)
Definition colon_or_eq : regex := RSet false [CChar ":"; CChar "="]. (* [:=] *)
Definition alnum_plus : regex :=                                     (* [a-zA-Z0-9]+ *)
  RPlus true (RSet false [CRange "a" "z"; CRange "A" "Z"; CRange "0" "9"]).
(** (\{.*?\}) under re.DOTALL *)
Definition braces_lazy : regex :=
  RGroup 1 (seq [RLit "{"; RStar false (RAny true); RLit "}"]).

End Re.

(* ================================================================= *)
(** ** [json.loads] *)

Module Json.

Definition is_json_ws (c : ascii) : bool :=
  Ascii.eqb c " " || Ascii.eqb c "009" || Ascii.eqb c "010" || Ascii.eqb c "013".

Fixpoint skip_ws (s : string) : string :=
  match s with
  | String c s' => if is_json_ws c then skip_ws s' else s
  | EmptyString => EmptyString
  end.

Fixpoint take_digits (s : string) : string * string :=
  match s with
  | String c s' =>
      if is_digit c then let '(d, r) := take_digits s' in (String c d, r)
      else (EmptyString, s)
  | EmptyString => (EmptyString, EmptyString)
  end.

Definition hex_value (c : ascii) : option N :=
  let n := N_of_ascii c in
  if is_digit c then Some (n - 48)%N
  else if in_range "a" "f" c then Some (n - 87)%N
  else if in_range "A" "F" c then Some (n - 55)%N
  else None.

(** The four hexadecimal digits of a \u escape and the text after them. *)
Definition hex4 (s : string) : option (N * string) :=
  match s with
  | String a (String b (String c (String d r))) =>
      match hex_value a, hex_value b, hex_value c, hex_value d with
      | Some x, Some y, Some z, Some w => Some (((x * 16 + y) * 16 + z) * 16 + w, r)%N
      | _, _, _, _ => None
      end
  | _ => None
  end.

Definition byte (n : N) : string := str1 (ascii_of_N n).

(** The UTF-8 bytes of a code point. *)
Definition utf8 (cp : N) : string :=
  (if cp <? 128 then byte cp
   else if cp <? 2048 then byte (192 + cp / 64) ++ byte (128 + cp mod 64)
   else if cp <? 65536 then
     byte (224 + cp / 4096) ++ byte (128 + (cp / 64) mod 64) ++ byte (128 + cp mod 64)
   else
     byte (240 + cp / 262144) ++ byte (128 + (cp / 4096) mod 64)
       ++ byte (128 + (cp / 64) mod 64) ++ byte (128 + cp mod 64))%N.

Definition simple_escape (c : ascii) : option ascii :=
  if Ascii.eqb c dq then Some dq
  else if Ascii.eqb c "\" then Some "\"%char
  else if Ascii.eqb c "/" then Some "/"%char
  else if Ascii.eqb c "b" then Some "008"%char
  else if Ascii.eqb c "f" then Some "012"%char
  else if Ascii.eqb c "n" then Some "010"%char
  else if Ascii.eqb c "r" then Some "013"%char
  else if Ascii.eqb c "t" then Some "009"%char
  else None.

Definition is_high_surrogate (u : N) : bool := ((55296 <=? u) && (u <=? 56319))%N.
Definition is_low_surrogate (u : N) : bool := ((56320 <=? u) && (u <=? 57343))%N.

(** [scanstring]: [s] is the text after the opening quote; the result is the
    decoded string and the text after the closing quote. *)
Fixpoint scanstring (fuel : nat) (s : string) : result (string * string) :=
  match fuel with
  | O => Raise JSONDecodeError
  | S f =>
      let more (chunk rest : string) :=
        rbind (scanstring f rest) (fun '(t, r) => Ok (chunk ++ t, r)) in
      match s with
      | EmptyString => Raise JSONDecodeError          (* unterminated string *)
      | String c s' =>
          if Ascii.eqb c dq then Ok (EmptyString, s')
          else if Ascii.eqb c "\" then
            match s' with
            | EmptyString => Raise JSONDecodeError
            | String e s'' =>
                if Ascii.eqb e "u" then
                  match hex4 s'' with
                  | None => Raise JSONDecodeError
                  | Some (u, r1) =>
                      if is_high_surrogate u then
                        match r1 with
                        | String "\" (String "u" r2) =>
                            match hex4 r2 with
                            | None => Raise JSONDecodeError
                            | Some (u2, r3) =>
                                if is_low_surrogate u2
                                then more (utf8 (65536 + (u - 55296) * 1024 + (u2 - 56320))%N) r3
                                else more (utf8 u) r1
                            end
                        | _ => more (utf8 u) r1
                        end
                      else more (utf8 u) r1
                  end
                else
                  match simple_escape e with
                  | Some ch => more (str1 ch) s''
                  | None => Raise JSONDecodeError     (* invalid escape *)
                  end
            end
          else if (nat_of_ascii c <? 32)%nat then Raise JSONDecodeError  (* control character *)
          else more (str1 c) s'
      end
  end.

(** NUMBER_RE: the integer part with its sign, the fraction and exponent
    (empty when absent), and the text after the number. *)
Definition match_number (s : string) : option (string * string * string) :=
  let '(sign, s1) :=
    match s with
    | String "-" r => ("-", r)
    | _ => (EmptyString, s)
    end in
  let int_part :=
    match s1 with
    | String "0" r => Some ("0", r)
    | String c _ => if is_digit c then Some (take_digits s1) else None
    | EmptyString => None
    end in
  match int_part with
  | None => None
  | Some (ds, r) =>
      let '(frac, r1) :=
        match r with
        | String "." r' =>
            match take_digits r' with
            | (EmptyString, _) => (EmptyString, r)
            | (fd, rr) => ("." ++ fd, rr)
            end
        | _ => (EmptyString, r)
        end in
      let '(ex, r2) :=
        match r1 with
        | String e r' =>
            if Ascii.eqb e "e" || Ascii.eqb e "E" then
              let '(sg, rr) :=
                match r' with
                | String "+" t => ("+", t)
                | String "-" t => ("-", t)
                | _ => (EmptyString, r')
                end in
              match take_digits rr with
              | (EmptyString, _) => (EmptyString, r1)
              | (ed, rest) => (str1 e ++ sg ++ ed, rest)
              end
            else (EmptyString, r1)
        | EmptyString => (EmptyString, r1)
        end in
      Some (sign ++ ds, frac ++ ex, r2)
  end.

Definition number_value (int_part rest_part : string) : result pyval :=
  match rest_part with
  | EmptyString =>
      match int_part with
      | String "-" ds => rbind (int_of_digits ds) (fun z => Ok (PInt (- z)))
      | ds => rbind (int_of_digits ds) (fun z => Ok (PInt z))
      end
  | _ => Ok (PFloat (int_part ++ rest_part))
  end.

(** The text after the character [c], when [s] starts with it. *)
Definition expect (c : ascii) (s : string) : option string :=
  match s with
  | String c' r => if Ascii.eqb c' c then Some r else None
  | EmptyString => None
  end.

(** [dict(pairs)]: a later pair with the same key overwrites the value. *)
Definition dict_of_pairs (pairs : list (string * pyval)) : dict :=
  fold_left (fun d kv => dict_set d (fst kv) (snd kv)) pairs [].

(** [scan_once] with [JSONObject] (from the first key on) and [JSONArray]
    (from the first element on). Running out of [fuel] stands for
    RecursionError; [json_loads] gives enough for every nesting. *)
Fixpoint scan_once (fuel : nat) (s : string) {struct fuel} : result (pyval * string) :=
  match fuel with
  | O => Raise RecursionError
  | S f =>
      match s with
      | EmptyString => Raise JSONDecodeError           (* expecting value *)
      | String c s' =>
          if Ascii.eqb c dq then
            rbind (scanstring (String.length s) s') (fun '(t, r) => Ok (PStr t, r))
          else if Ascii.eqb c "{" then
            match expect "}" (skip_ws s') with
            | Some r => Ok (PDict [], r)
            | None => json_members f (skip_ws s') []
            end
          else if Ascii.eqb c "[" then
            match expect "]" (skip_ws s') with
            | Some r => Ok (PList [], r)
            | None => json_elements f (skip_ws s') []
            end
          else
            match strip_prefix "null" s, strip_prefix "true" s, strip_prefix "false" s with
            | Some r, _, _ => Ok (PNone, r)
            | _, Some r, _ => Ok (PBool true, r)
            | _, _, Some r => Ok (PBool false, r)
            | None, None, None =>
                match match_number s with
                | Some (ip, rp, r) => rbind (number_value ip rp) (fun v => Ok (v, r))
                | None =>
                    match strip_prefix "NaN" s, strip_prefix "Infinity" s,
                          strip_prefix "-Infinity" s with
                    | Some r, _, _ => Ok (PFloat "NaN", r)
                    | _, Some r, _ => Ok (PFloat "Infinity", r)
                    | _, _, Some r => Ok (PFloat "-Infinity", r)
                    | None, None, None => Raise JSONDecodeError
                    end
                end
            end
      end
  end

with json_members (fuel : nat) (s : string) (pairs : list (string * pyval))
       {struct fuel} : result (pyval * string) :=
  match fuel with
  | O => Raise RecursionError
  | S f =>
      match s with
      | String c s' =>
          if Ascii.eqb c dq then
            rbind (scanstring (String.length s) s') (fun '(key, r) =>
            match expect ":" (skip_ws r) with
            | Some r1 =>
                rbind (scan_once f (skip_ws r1)) (fun '(v, r2) =>
                let pairs' := (pairs ++ [(key, v)])%list in
                match expect "}" (skip_ws r2), expect "," (skip_ws r2) with
                | Some r3, _ => Ok (PDict (dict_of_pairs pairs'), r3)
                | None, Some r3 => json_members f (skip_ws r3) pairs'
                | None, None => Raise JSONDecodeError  (* expecting , *)
                end)
            | None => Raise JSONDecodeError            (* expecting : *)
            end)
          else Raise JSONDecodeError                   (* expecting a quoted name *)
      | EmptyString => Raise JSONDecodeError
      end
  end

with json_elements (fuel : nat) (s : string) (items : list pyval)
       {struct fuel} : result (pyval * string) :=
  match fuel with
  | O => Raise RecursionError
  | S f =>
      rbind (scan_once f s) (fun '(v, r) =>
      let items' := (items ++ [v])%list in
      match expect "]" (skip_ws r), expect "," (skip_ws r) with
      | Some r1, _ => Ok (PList items', r1)
      | None, Some r1 => json_elements f (skip_ws r1) items'
      | None, None => Raise JSONDecodeError
      end)
  end.

Definition json_loads (s : string) : result pyval :=
  rbind (scan_once (S (String.length s)) (skip_ws s)) (fun '(v, rest) =>
  match skip_ws rest with
  | EmptyString => Ok v
  | _ => Raise JSONDecodeError                         (* extra data *)
  end).

End Json.

(* ================================================================= *)
(** ** State and exceptions *)

Module Eff.

(** A computation over a state [S] that returns or raises; what it did to
    the state before raising stays done, as in Python. *)
Definition ST (S A : Type) : Type := S -> result A * S.

Definition ret {S A} (a : A) : ST S A := fun s => (Ok a, s).

Definition bind {S A B} (m : ST S A) (k : A -> ST S B) : ST S B :=
  fun s =>
    match m s with
    | (Ok a, s') => k a s'
    | (Raise e, s') => (Raise e, s')
    end.

Definition raise {S A} (e : exn) : ST S A := fun s => (Raise e, s).

Definition lift {S A} (r : result A) : ST S A := fun s => (r, s).

(** [try: m  except Exception as e: h e] *)
Definition try_except {S A} (m : ST S A) (h : exn -> ST S A) : ST S A :=
  fun s =>
    match m s with
    | (Ok a, s') => (Ok a, s')
    | (Raise e, s') => h e s'
    end.

Definition get_state {S} : ST S S := fun s => (Ok s, s).
Definition modify {S} (f : S -> S) : ST S unit := fun s => (Ok tt, f s).

(** The same for a computation without state. *)
Definition rtry {A} (r : result A) (h : exn -> result A) : result A :=
  match r with
  | Ok a => Ok a
  | Raise e => h e
  end.

End Eff.
Export Eff.

Declare Scope eff_scope.
Delimit Scope eff_scope with eff.
Notation "x <- m ;; k" := (bind m (fun x => k))
  (at level 61, m at next level, right associativity) : eff_scope.
Notation "m ;; k" := (bind m (fun _ => k))
  (at level 61, right associativity) : eff_scope.
Notation "' p <- m ;; k" := (bind m (fun x => match x with p => k end))
  (at level 61, p pattern, m at next level, right associativity) : eff_scope.
Notation "x <-- r ;; k" := (rbind r (fun x => k))
  (at level 61, r at next level, right associativity) : eff_scope.
Local Open Scope eff_scope.

(* ================================================================= *)
(** ** [http_client.py]: the static extractors of [MoodleClient] *)

Module Extract.
Import Re Json.

Definition nonempty (s : string) : bool :=
  match s with EmptyString => false | _ => true end.

(** [v.get(k)]: only a dict has the method. *)
Definition py_get (v : pyval) (k : string) : result pyval :=
  match v with
  | PDict d => Ok (get_or_none d k)
  | _ => Raise AttributeError
  end.

(** name=[Q']sesskey[Q']\s+value=[Q']([a-zA-Z0-9]+)[Q']   (Q: the double quote) *)
Definition pat_sesskey_input : regex :=
  seq [RLit "name="; a_quote; RLit "sesskey"; a_quote; ws_plus;
       RLit "value="; a_quote; RGroup 1 alnum_plus; a_quote].

(** sesskey[Q']?\s*[:=]\s*[Q']([a-zA-Z0-9]+)[Q'] *)
Definition pat_sesskey_js : regex :=
  seq [RLit "sesskey"; ROpt true a_quote; ws_star; colon_or_eq; ws_star;
       a_quote; RGroup 1 alnum_plus; a_quote].

Definition extract_sesskey (html : string) : option string :=
  match search pat_sesskey_input html with
  | Some m => Some (group m 1)
  | None =>
      match search pat_sesskey_js html with
      | Some m => Some (group m 1)
      | None => None
      end
  end.

(** playerdata\s*=\s*(\{.*?\})\s*;   with re.DOTALL *)
Definition pat_playerdata_assign : regex :=
  seq [RLit "playerdata"; ws_star; RLit "="; ws_star; braces_lazy; ws_star; RLit ";"].

(** playerdata\s*:\s*(\{.*?\})   with re.DOTALL *)
Definition pat_playerdata_field : regex :=
  seq [RLit "playerdata"; ws_star; RLit ":"; ws_star; braces_lazy].

(** ,\s*([}\]])  replaced by its group 1 *)
Definition pat_trailing_comma : regex :=
  seq [RLit ","; ws_star; RGroup 1 (RSet false [CChar "}"; CChar "]"])].

Definition strip_trailing_commas (s : string) : string :=
  sub pat_trailing_comma (fun m => group m 1) s.

Definition single_to_double (s : string) : string :=
  str_replace s (str1 sq) (str1 dq).

(** The candidate patterns for the resource id, in the order of the source. *)
Definition patterns : list regex :=
  [ seq [RLit "fsresourceid"; ws_star; colon_or_eq; ws_star; RGroup 1 digits_plus];
    seq [RLit "data-fsresourceid"; ws_star; RLit "="; ws_star;
         ROpt true (RLit (str1 dq)); RGroup 1 digits_plus; ROpt true (RLit (str1 dq))];
    seq [RLit "fsresource"; ws_star; RLit ":"; ws_star; RLit "{";
         RStar false (RSet true [CChar "}"]); RLit "id"; ws_star; RLit ":"; ws_star;
         RGroup 1 digits_plus];
    seq [RLit "cmid"; ws_star; colon_or_eq; ws_star; RGroup 1 digits_plus] ].

Definition dur_patterns : list regex :=
  [ seq [RLit "duration"; ws_star; colon_or_eq; ws_star; RGroup 1 digits_plus];
    seq [RLit "data-duration"; ws_star; RLit "="; ws_star;
         ROpt true (RLit (str1 dq)); RGroup 1 digits_plus; ROpt true (RLit (str1 dq))] ].

(** <h2[^>]*>(.*?)</h2>   with re.DOTALL *)
Definition pat_h2 : regex :=
  seq [RLit "<h2"; RStar true (RSet true [CChar ">"]); RLit ">";
       RGroup 1 (RStar false (RAny true)); RLit "</h2>"].

Definition info0 : dict :=
  [("fsresourceid", PNone); ("duration", PNone); ("name", PNone); ("sesskey", PNone)].

(** [info[k] = v] *)
Definition set_info (k : string) (v : pyval) : ST dict unit :=
  modify (fun info => dict_set info k v).

(** The body of the [try] that reads the playerdata object [raw]. *)
Definition read_playerdata (raw : string) : ST dict unit :=
  let cleaned := strip_trailing_commas raw in
  let cleaned := single_to_double cleaned in
  pdata <- lift (json_loads cleaned) ;;
  fsid <- lift (py_get pdata "fsresourceid") ;;
  match fsid with
  | PInt _ | PBool _ => set_info "fsresourceid" fsid      (* isinstance(fsid, int) *)
  | PStr s =>
      if isdigit s
      then (z <- lift (int_of_str s) ;; set_info "fsresourceid" (PInt z))
      else ret tt
  | _ => ret tt
  end ;;
  sk <- lift (py_get pdata "sesskey") ;;
  match sk with
  | PStr s => if nonempty s then set_info "sesskey" sk else ret tt
  | _ => ret tt
  end.

(** [for pat in pats: m = re.search(pat, html); if m: try: info[key] =
    int(m.group(1)); break  except Exception: pass] *)
Fixpoint first_int (key : string) (pats : list regex) (html : string) : ST dict unit :=
  match pats with
  | [] => ret tt
  | pat :: rest =>
      match search pat html with
      | Some m =>
          done <- try_except
                    (z <- lift (int_of_str (group m 1)) ;;
                     set_info key (PInt z) ;;
                     ret true)
                    (fun _ => ret false) ;;
          if done then ret tt else first_int key rest html
      | None => first_int key rest html
      end
  end.

Definition search_playerdata (html : string) : option rmatched :=
  match search pat_playerdata_assign html with
  | Some m => Some m
  | None => search pat_playerdata_field html
  end.

Definition extract_fsresource_info_steps (html : string) : ST dict dict :=
  match search_playerdata html with
  | Some m => try_except (read_playerdata (group m 1)) (fun _ => ret tt)
  | None => ret tt
  end ;;
  first_int "fsresourceid" patterns html ;;
  first_int "duration" dur_patterns html ;;
  match search pat_h2 html with
  | Some m => set_info "name" (PStr (strip (sub ws_plus (fun _ => " ") (group m 1))))
  | None => ret tt
  end ;;
  get_state.

Definition extract_fsresource_info (html : string) : result dict :=
  fst (extract_fsresource_info_steps html info0).

(** M\.cfg\s*=\s*(\{.*?\})\s*;   with re.DOTALL *)
Definition pat_mcfg_assign : regex :=
  seq [RLit "M.cfg"; ws_star; RLit "="; ws_star; braces_lazy; ws_star; RLit ";"].

(** cfg\s*:\s*(\{.*?\})   with re.DOTALL *)
Definition pat_cfg_field : regex :=
  seq [RLit "cfg"; ws_star; RLit ":"; ws_star; braces_lazy].

Definition search_m_cfg (html : string) : option rmatched :=
  match search pat_mcfg_assign html with
  | Some m => Some m
  | None => search pat_cfg_field html
  end.

Definition parse_m_cfg (html : string) : result pyval :=
  match search_m_cfg html with
  | None => Ok (PDict [])
  | Some m =>
      let raw := group m 1 in
      rtry (json_loads (strip_trailing_commas raw))
        (fun _ =>
           rtry (json_loads (strip_trailing_commas (single_to_double raw)))
             (fun _ => Ok (PDict [])))
  end.

End Extract.

(* ================================================================= *)
(** ** The world outside the program *)

Module World.

Inductive http_method : Type := GET | POST.

(** What [session.get] and [session.post] send; the body is the value
    handed to [json.dumps]. Headers and the timeout are constant. *)
Record request : Type := {
  rq_method : http_method;
  rq_url : string;
  rq_params : list (string * pyval);
  rq_body : option pyval
}.

Inductive http_outcome : Type :=
| Response (status_code : Z) (text : string)
| Failure (e : exn).                (* the call raised *)

(** dataclass VideoItem of [parsers.py] *)
Record VideoItem : Type := {
  vi_id : Z;
  vi_name : string;
  vi_url : string;
  vi_incomplete : option bool
}.

Record env : Type := {
  http : nat -> request -> http_outcome;   (* the outcome of the n-th request *)
  latency : nat -> N;                      (* microseconds the n-th request takes *)
  oversleep : nat -> N;                    (* microseconds the n-th sleep overruns *)
  random_str : nat -> string;              (* str(random.random()), n-th call *)
  float_truth : string -> bool;            (* bool(x) of a float literal *)
  float_int : string -> result Z;          (* int(x) of a float literal *)
  repr_other : pyval -> string;            (* str(x) of a float, list or dict *)
  parse_course_fsresources : string -> list VideoItem   (* parsers.py, BeautifulSoup *)
}.

Inductive event : Type :=
| EvRequest (at_time : Q) (rq : request)
| EvSleep (at_time : Q) (seconds : Q).

Record world : Type := {
  clock : Q;             (* time.time(), in seconds *)
  requests : nat;
  sleeps : nat;
  randoms : nat;
  trace : list event     (* oldest first *)
}.

Definition usec (n : N) : Q := Z.of_N n # 1000000.

Definition Qltb (a b : Q) : bool := (Qnum a * QDen b <? Qnum b * QDen a)%Z.

(** [int(x)] of a float [x]: truncation towards zero. *)
Definition Qtrunc (q : Q) : Z := Z.quot (Qnum q) (Zpos (Qden q)).

Definition M := ST world.

Section Primitives.
Variable E : env.

Definition time_time : M Q := fun w => (Ok (clock w), w).

(** [time.sleep(s)]: ValueError for a negative [s]; otherwise at least
    [s] seconds pass. *)
Definition time_sleep (s : Q) : M unit := fun w =>
  if Qltb s 0 then (Raise ValueError, w)
  else (Ok tt,
        {| clock := clock w + s + usec (oversleep E (sleeps w));
           requests := requests w;
           sleeps := S (sleeps w);
           randoms := randoms w;
           trace := trace w ++ [EvSleep (clock w) s] |}).

(** One call of [session.get] or [session.post]: the request that the
    code makes. Redirects that the session follows within the call are
    not events of their own. *)
Definition send (rq : request) : M (Z * string) := fun w =>
  let w' := {| clock := clock w + usec (latency E (requests w));
               requests := S (requests w);
               sleeps := sleeps w;
               randoms := randoms w;
               trace := trace w ++ [EvRequest (clock w) rq] |} in
  match http E (requests w) rq with
  | Response st tx => (Ok (st, tx), w')
  | Failure e => (Raise e, w')
  end.

Definition random_random : M string := fun w =>
  (Ok (random_str E (randoms w)),
   {| clock := clock w; requests := requests w; sleeps := sleeps w;
      randoms := S (randoms w); trace := trace w |}).

(** Truth value, [int(x)] and [str(x)] of a Python value. *)
Definition py_truthy (v : pyval) : bool :=
  match v with
  | PNone => false
  | PBool b => b
  | PInt z => negb (z =? 0)
  | PFloat x => float_truth E x
  | PStr s => Extract.nonempty s
  | PList l => match l with [] => false | _ => true end
  | PDict d => match d with [] => false | _ => true end
  end.

(** [a or b] *)
Definition py_or (a b : pyval) : pyval := if py_truthy a then a else b.

Definition py_int (v : pyval) : result Z :=
  match v with
  | PInt z => Ok z
  | PBool b => Ok (if b then 1 else 0)
  | PStr s => int_of_str s
  | PFloat x => float_int E x
  | PNone | PList _ | PDict _ => Raise TypeError
  end.

Definition py_str (v : pyval) : string :=
  match v with
  | PNone => "None"
  | PBool true => "True"
  | PBool false => "False"
  | PInt z => str_of_Z z
  | PStr s => s
  | PFloat _ | PList _ | PDict _ => repr_other E v
  end.
End Primitives.

Definition opt_str (o : option string) : pyval :=
  match o with Some s => PStr s | None => PNone end.

End World.
Export World.

(* ================================================================= *)
(** ** [http_client.py]: the requests of [MoodleClient] *)

Module HttpClient.
Import Json Extract.

Record MoodleClient : Type := { base_url : string }.

(** [resp.raise_for_status()] *)
Definition raise_for_status (status_code : Z) : result unit :=
  if (400 <=? status_code) && (status_code <? 600)
  then Raise (HTTPError status_code) else Ok tt.

Definition retryable (status_code : Z) : bool :=
  existsb (Z.eqb status_code) [429; 500; 502; 503; 504].

(** How one round of the [for] loop of [get] ends. *)
Inductive attempt_end : Type :=
| Return (status_code : Z) (text : string)
| Next (last_exc : option exn).

Section Client.
Variable E : env.
Variable self : MoodleClient.

Definition attempt_once (url : string) (params : list (string * pyval))
           (backoff : Q) (attempt : Z) (last_exc : option exn) : M attempt_end :=
  try_except
    ('(st, tx) <- send E {| rq_method := GET; rq_url := url;
                            rq_params := params; rq_body := None |} ;;
     if st =? 200 then ret (Return st tx)
     else if retryable st then
            time_sleep E (backoff * inject_Z attempt) ;;
            ret (Next last_exc)                       (* continue *)
          else
            lift (raise_for_status st) ;;
            ret (Return st tx))
    (fun e =>
       time_sleep E (backoff * inject_Z attempt) ;;
       ret (Next (Some e))).

(** The rounds [attempt], [attempt + 1], ... of the loop, [todo] of them,
    and what follows the loop. *)
Fixpoint get_attempts (url : string) (params : list (string * pyval)) (backoff : Q)
         (todo : nat) (attempt : Z) (last_exc : option exn) : M (Z * string) :=
  match todo with
  | O =>
      match last_exc with
      | Some e => raise e
      | None => raise (RuntimeError "Request failed without exception")
      end
  | S todo' =>
      r <- attempt_once url params backoff attempt last_exc ;;
      match r with
      | Return st tx => ret (st, tx)
      | Next le => get_attempts url params backoff todo' (attempt + 1) le
      end
  end.

(** [url = path if path.startswith("http") else f"{self.base_url}{path}"] *)
Definition url_of (path : string) : string :=
  if startswith path "http" then path else base_url self ++ path.

(** [get(path, params, max_retries, backoff)]; [range(1, max_retries + 1)]
    has [Z.to_nat max_retries] elements. *)
Definition get (path : string) (params : list (string * pyval))
           (max_retries : Z) (backoff : Q) : M (Z * string) :=
  get_attempts (url_of path) params backoff (Z.to_nat max_retries) 1 None.

(** A call that leaves [max_retries=3, backoff=0.8]; the text of the page. *)
Definition get_text (path : string) : M string :=
  '(_, tx) <- get path [] 3 (8 # 10) ;; ret tx.

Definition get_my_courses_page : M string := get_text "/my/".

Definition option_nonempty (o : option string) : bool :=
  match o with Some s => nonempty s | None => false end.

(** The sesskey a POST sends along: from the page at hand, else from /my/. *)
Definition resolve_sesskey (html_context : option string) : M (option string) :=
  let sesskey :=
    match html_context with
    | Some html => if nonempty html then extract_sesskey html else None
    | None => None
    end in
  if option_nonempty sesskey then ret sesskey
  else
    try_except
      (page <- get_my_courses_page ;; ret (extract_sesskey page))
      (fun _ => ret sesskey).

Definition service_url : string := base_url self ++ "/lib/ajax/service.php".

Definition post_service (payload_list : pyval) (html_context : option string)
           (timestamp : option Z) : M pyval :=
  sesskey <- resolve_sesskey html_context ;;
  ts <- match timestamp with
        | Some t => ret t
        | None => now <- time_time ;; ret (Qtrunc (now * 1000))
        end ;;
  let params :=
    [("sesskey", PStr (match sesskey with Some s => s | None => EmptyString end));
     ("timestamp", PInt ts)] in
  '(st, tx) <- send E {| rq_method := POST; rq_url := service_url;
                         rq_params := params; rq_body := Some payload_list |} ;;
  lift (raise_for_status st) ;;
  lift (json_loads tx).

Definition get_course_module_info (cmid : Z) (html_context : option string) : M pyval :=
  let payload :=
    PList [PDict [("index", PInt 0);
                  ("methodname", PStr "core_course_get_course_module");
                  ("args", PDict [("cmid", PInt cmid)])]] in
  data <- post_service payload html_context None ;;
  lift (rtry
          (match data with
           | PList (entry :: _) =>                   (* a non-empty list *)
               err <-- py_get entry "error" ;;
               if py_truthy E err then Ok (PDict [])
               else d <-- py_get entry "data" ;; Ok (py_or E d (PDict []))
           | _ => Ok (PDict [])
           end)
          (fun _ => Ok (PDict []))).
End Client.

End HttpClient.

(* ================================================================= *)
(** ** [jobs.py] *)

(** What the statements of one polling iteration need from Python. *)
Module Values.
Import Extract.

(** [try: x = r  except Exception: pass], with [x] bound to [d] before. *)
Definition catch_default {A} (r : result A) (d : A) : A :=
  match r with
  | Ok a => a
  | Raise _ => d
  end.

(** [v[0]] *)
Definition py_index0 (v : pyval) : result pyval :=
  match v with
  | PList (x :: _) => Ok x
  | PList [] => Raise IndexError
  | PStr (String c _) => Ok (PStr (str1 c))
  | PStr EmptyString => Raise IndexError
  | PDict _ => Raise KeyError            (* the keys of a JSON object are strings *)
  | PNone | PBool _ | PInt _ | PFloat _ => Raise TypeError
  end.

(** [v.get(k, default)] *)
Definition py_get_default (v : pyval) (k : string) (default : pyval) : result pyval :=
  match v with
  | PDict d => Ok (match dict_get d k with Some x => x | None => default end)
  | _ => Raise AttributeError
  end.

Fixpoint contains_str (k s : string) : bool :=
  startswith s k ||
  match s with
  | EmptyString => false
  | String _ s' => contains_str k s'
  end.

(** [k in x] for a string [k] *)
Definition py_contains (k : string) (x : pyval) : result bool :=
  match x with
  | PDict d => Ok (dict_mem k d)
  | PList l => Ok (existsb (fun v => match v with PStr s => String.eqb s k | _ => false end) l)
  | PStr s => Ok (contains_str k s)
  | PNone | PBool _ | PInt _ | PFloat _ => Raise TypeError
  end.

(** [payload[0]["args"][key] = v]. The objects come from one [json.loads],
    so no other name refers to the dict that is written. *)
Definition py_set_arg (payload : pyval) (key : string) (v : pyval) : result pyval :=
  match payload with
  | PList (PDict entry :: rest) =>
      match dict_get entry "args" with
      | Some (PDict args) =>
          Ok (PList (PDict (dict_set entry "args" (PDict (dict_set args key v))) :: rest))
      | Some _ => Raise TypeError          (* no item assignment by a string key *)
      | None => Raise KeyError
      end
  | PList [] => Raise IndexError
  | PDict _ => Raise KeyError
  | _ => Raise TypeError
  end.

(** [if key in payload[0].get("args", {}): payload[0]["args"][key] = v] *)
Definition write_if_declared (payload : pyval) (key : string) (v : pyval) : result pyval :=
  entry <-- py_index0 payload ;;
  args <-- py_get_default entry "args" (PDict []) ;;
  present <-- py_contains key args ;;
  if present then py_set_arg payload key v else Ok payload.

(** The same inside [try: ... except Exception: pass]. *)
Definition try_write (payload : pyval) (key : string) (v : pyval) : pyval :=
  catch_default (write_if_declared payload key v) payload.

(** [float(z)]: the nearest binary64, OverflowError beyond its range. *)
Definition float_of_Z (z : Z) : result float :=
  match binary_normalize 53 1024 z 0 false with
  | S754_infinity _ => Raise OverflowError
  | sf => Ok (SF2Prim sf)
  end.

(** [max(0.0, min(1.0, elapsed / float(target)))] for [target <> 0] *)
Definition progress_val (elapsed target : Z) : result float :=
  t <-- float_of_Z target ;;
  e <-- float_of_Z elapsed ;;
  let x := PrimFloat.div e t in
  let y := if PrimFloat.ltb x 1 then x else 1%float in
  Ok (if PrimFloat.ltb 0 y then y else 0%float).

Definition round_half_even (num den : Z) : Z :=
  let q := num / den in
  let r := num mod den in
  if 2 * r <? den then q
  else if den <? 2 * r then q + 1
  else if Z.even q then q else q + 1.

Definition two_digits (n : Z) : string :=
  (if n <? 10 then "0" else EmptyString) ++ str_of_Z n.

(** [f"{x:.2f}"] *)
Definition format_2f (x : float) : string :=
  match Prim2SF x with
  | S754_zero s => (if s then "-" else EmptyString) ++ "0.00"
  | S754_infinity s => if s then "-inf" else "inf"
  | S754_nan => "nan"
  | S754_finite s m e =>
      let h := if 0 <=? e then Zpos m * 2 ^ e * 100
               else round_half_even (Zpos m * 100) (2 ^ (- e)) in
      (if s then "-" else EmptyString) ++ str_of_Z (h / 100) ++ "." ++ two_digits (h mod 100)
  end.

(** The binary64 nearest to 0.999. *)
Definition f0_999 : float := 0x1.ff7ced916872bp-1%float.

(** [1 if x >= 0.999 else 0] *)
Definition finish_flag (x : float) : Z := if PrimFloat.leb f0_999 x then 1 else 0.

Definition completed_marker : string := "已完成".

(** [out = resp_json; try: if isinstance(resp_json, list) and resp_json:
    out = resp_json[0].get("data", resp_json[0])  except Exception: pass] *)
Definition unwrap_response (resp_json : pyval) : pyval :=
  catch_default
    (match resp_json with
     | PList (first :: _) => py_get_default first "data" first
     | _ => Ok resp_json
     end)
    resp_json.

(** [isinstance(out, dict) and out.get("completion") == "已完成"] *)
Definition is_completed (out : pyval) : bool :=
  match out with
  | PDict d =>
      match get_or_none d "completion" with
      | PStr s => String.eqb s completed_marker
      | _ => false
      end
  | _ => false
  end.

(** [items[:limit]] *)
Definition py_slice_to {A} (items : list A) (limit : Z) : list A :=
  if 0 <=? limit then firstn (Z.to_nat limit) items
  else firstn (List.length items - Z.to_nat (- limit)) items.

End Values.
Export Values.

(** How a run of [WatchVideoJob.run] ends when it returns. [Unfinished] is
    the model's answer when the loop was given too few rounds. *)
Inductive outcome : Type :=
| Completed            (* the server reported completion: break *)
| TimedOut             (* the loop condition became false *)
| AbortedNoSesskey     (* return before the loop: no sesskey *)
| AbortedTemplate      (* break: the filled template is not JSON *)
| Unfinished.

(** How one round of the [while] loop ends. *)
Inductive ctl : Type :=
| Continue
| Break (o : outcome).

Module WatchVideoJob.
Import Json Extract HttpClient.

Record t : Type := {
  video_id : Z;
  duration_seconds : Z;
  interval_seconds : Z;
  payload_template : option string;
  target_seconds : option Z
}.

(** The local variables of [run] once the page is read. *)
Record context : Type := {
  html : string;
  sesskey : pyval;
  sessiontimeout : option Z;
  course_id : pyval;
  context_instance_id : pyval;
  fsresourceid : pyval;
  target : option Z              (* self.target_seconds after the page is read *)
}.

(** Truth value of an optional int and of an optional string. *)
Definition truthy_int (o : option Z) : bool :=
  match o with Some z => negb (z =? 0) | None => false end.

Definition truthy_template (o : option string) : bool :=
  match o with Some s => nonempty s | None => false end.

(** [sleep_s = interval; if sessiontimeout and sleep_s > sessiontimeout:
    sleep_s = max(30, sessiontimeout // 2)] *)
Definition sleep_s (interval : Z) (sessiontimeout : option Z) : Z :=
  match sessiontimeout with
  | Some st =>
      if truthy_int (Some st) && (st <? interval) then Z.max 30 (st / 2) else interval
  | None => interval
  end.

Section Run.
Variable E : env.
Variable client : MoodleClient.
Variable self : t.

(** Lines 82 to 104 of [jobs.py]. *)
Definition resolve (page : string) : M context :=
  mcfg <- lift (parse_m_cfg page) ;;
  sk <- lift (py_get mcfg "sesskey") ;;
  let sesskey0 := py_or E sk (opt_str (extract_sesskey page)) in
  st <- lift (py_get mcfg "sessiontimeout") ;;
  sessiontimeout <- (if py_truthy E st
                     then z <- lift (py_int E st) ;; ret (Some z)
                     else ret None) ;;
  course_id <- lift (py_get mcfg "courseId") ;;
  context_instance_id <- lift (py_get mcfg "contextInstanceId") ;;
  fsinfo <- lift (extract_fsresource_info page) ;;
  let fsresourceid0 := get_or_none fsinfo "fsresourceid" in
  let sesskey1 :=
    if negb (py_truthy E sesskey0) && py_truthy E (get_or_none fsinfo "sesskey")
    then get_or_none fsinfo "sesskey" else sesskey0 in
  target <- (if negb (truthy_int (target_seconds self))
                && py_truthy E (get_or_none fsinfo "duration")
             then z <- lift (py_int E (get_or_none fsinfo "duration")) ;; ret (Some z)
             else ret (target_seconds self)) ;;
  fsresourceid1 <-
    (if negb (py_truthy E fsresourceid0) && py_truthy E context_instance_id
     then
       cmid <- lift (py_int E context_instance_id) ;;
       cm_info <- get_course_module_info E client cmid (Some page) ;;
       ret (catch_default
              (inst <-- py_get cm_info "instance" ;; Ok (py_or E inst fsresourceid0))
              fsresourceid0)
     else ret fsresourceid0) ;;
  ret {| html := page; sesskey := sesskey1; sessiontimeout := sessiontimeout;
         course_id := course_id; context_instance_id := context_instance_id;
         fsresourceid := fsresourceid1; target := target |}.

(** The seven [replace] calls, in their order. *)
Definition substitutions (cx : context) (timestamp time_value : Z)
  : list (string * string) :=
  [ ("{timestamp}", str_of_Z timestamp);
    ("{sesskey}", py_str E (sesskey cx));
    ("{courseId}", py_str E (course_id cx));
    ("{contextInstanceId}", py_str E (context_instance_id cx));
    ("{videoId}", str_of_Z (video_id self));
    ("{fsresourceid}", py_str E (fsresourceid cx));
    ("{time}", str_of_Z time_value) ].

Definition fill_template (template : string) (cx : context)
           (timestamp time_value : Z) : string :=
  fold_left (fun s '(old, new) => str_replace s old new)
            (substitutions cx timestamp time_value) template.

(** Lines 156 to 177: the progress, finish and unique arguments. *)
Definition fill_declared (cx : context) (payload : pyval)
           (elapsed timestamp : Z) : M pyval :=
  p1 <- (match target cx with
         | Some tg =>
             if truthy_int (Some tg) then
               pv <- lift (progress_val elapsed tg) ;;
               let p := try_write payload "progress" (PStr (format_2f pv)) in
               ret (try_write p "finish" (PInt (finish_flag pv)))
             else ret payload
         | None => ret payload
         end) ;;
  r <- random_random E ;;
  ret (try_write p1 "unique" (PStr (str_of_Z timestamp ++ "_" ++ r))).

(** Lines 180 to 200: the POST and the look at its answer. *)
Definition submit (cx : context) (payload : pyval) (timestamp : Z) : M ctl :=
  try_except
    (resp_json <- post_service E client payload (Some (html cx)) (Some timestamp) ;;
     if is_completed (unwrap_response resp_json)
     then ret (Break Completed) else ret Continue)
    (fun _ => ret Continue).

(** The body of the [while] loop. *)
Definition iteration (cx : context) (start : Q) : M ctl :=
  now <- time_time ;;
  let timestamp := Qtrunc (now * 1000) in
  now' <- time_time ;;
  let elapsed := Qtrunc (now' - start) in
  if negb (truthy_template (payload_template self)) then
    time_sleep E (inject_Z (interval_seconds self)) ;;
    ret Continue
  else
    let template :=
      match payload_template self with Some s => s | None => EmptyString end in
    let time_value := Z.min elapsed (duration_seconds self) in
    match json_loads (fill_template template cx timestamp time_value) with
    | Raise _ => ret (Break AbortedTemplate)
    | Ok payload =>
        payload' <- fill_declared cx payload elapsed timestamp ;;
        c <- submit cx payload' timestamp ;;
        match c with
        | Break o => ret (Break o)
        | Continue =>
            time_sleep E (inject_Z (sleep_s (interval_seconds self) (sessiontimeout cx))) ;;
            ret Continue
        end
    end.

(** [while time.time() < end: ...], at most [fuel] rounds. *)
Fixpoint loop (fuel : nat) (cx : context) (start end_ : Q) : M outcome :=
  match fuel with
  | O => ret Unfinished
  | S fuel' =>
      now <- time_time ;;
      if Qltb now end_ then
        c <- iteration cx start ;;
        match c with
        | Continue => loop fuel' cx start end_
        | Break o => ret o
        end
      else ret TimedOut
  end.

Definition page_path : string :=
  "/mod/fsresource/view.php?id=" ++ str_of_Z (video_id self).

Definition run (fuel : nat) : M outcome :=
  page <- get_text E client page_path ;;
  cx <- resolve page ;;
  if negb (py_truthy E (sesskey cx)) then ret AbortedNoSesskey
  else
    let cx' :=
      if negb (py_truthy E (fsresourceid cx))
      then {| html := html cx; sesskey := sesskey cx;
              sessiontimeout := sessiontimeout cx; course_id := course_id cx;
              context_instance_id := context_instance_id cx;
              fsresourceid := PInt (video_id self); target := target cx |}
      else cx in
    start <- time_time ;;
    loop fuel cx' start (start + inject_Z (duration_seconds self)).
End Run.

End WatchVideoJob.

Module WatchCourseIncompleteJob.
Import HttpClient.

Record t : Type := {
  course_id : Z;
  duration_seconds : Z;
  interval_seconds : Z;
  payload_template : option string;
  target_seconds : option Z;
  limit : option Z;
  gap_seconds : Z
}.

Section Run.
Variable E : env.
Variable client : MoodleClient.
Variable self : t.

Definition job_for (it : VideoItem) : WatchVideoJob.t :=
  {| WatchVideoJob.video_id := vi_id it;
     WatchVideoJob.duration_seconds := duration_seconds self;
     WatchVideoJob.interval_seconds := interval_seconds self;
     WatchVideoJob.payload_template := payload_template self;
     WatchVideoJob.target_seconds := target_seconds self |}.

(** The [for] loop; the result lists the videos whose run returned, with
    how each ended. Nothing follows a run that did not finish. *)
Fixpoint watch_items (fuel : nat) (items : list VideoItem) : M (list (Z * outcome)) :=
  match items with
  | [] => ret []
  | it :: rest =>
      o <- WatchVideoJob.run E client (job_for it) fuel ;;
      match o with
      | Unfinished => ret [(vi_id it, o)]
      | _ =>
          time_sleep E (inject_Z (gap_seconds self)) ;;
          outs <- watch_items fuel rest ;;
          ret ((vi_id it, o) :: outs)
      end
  end.

Definition is_incomplete (it : VideoItem) : bool :=
  match vi_incomplete it with Some true => true | _ => false end.

Definition course_path : string :=
  "/course/view.php?id=" ++ str_of_Z (course_id self).

Definition run (fuel : nat) : M (list (Z * outcome)) :=
  page <- get_text E client course_path ;;
  let items := filter is_incomplete (parse_course_fsresources E page) in
  match items with
  | [] => ret []
  | _ =>
      watch_items fuel
        (match limit self with
         | Some n => py_slice_to items n
         | None => items
         end)
  end.
End Run.

End WatchCourseIncompleteJob.

(* ================================================================= *)
(** ** What a run lets an observer see *)

Module Observe.
Import HttpClient.

Definition ev_time (ev : event) : Q :=
  match ev with
  | EvRequest t _ => t
  | EvSleep t _ => t
  end.

(** An event without its time stamp. *)
Inductive shape : Type :=
| SRequest (m : http_method) (url : string)
| SSleep (seconds : Q).

Definition shape_of (ev : event) : shape :=
  match ev with
  | EvRequest _ rq => SRequest (rq_method rq) (rq_url rq)
  | EvSleep _ s => SSleep s
  end.

(** The events between the world [w] and a later world [w']. *)
Definition new_events (w w' : world) : list event :=
  skipn (List.length (trace w)) (trace w').

(** The times at which a POST was sent. *)
Definition post_times (evs : list event) : list Q :=
  flat_map (fun ev =>
              match ev with
              | EvRequest t rq =>
                  match rq_method rq with POST => [t] | GET => [] end
              | EvSleep _ _ => []
              end) evs.

Definition requested_urls (evs : list event) : list string :=
  flat_map (fun ev =>
              match ev with
              | EvRequest _ rq => [rq_url rq]
              | EvSleep _ _ => []
              end) evs.

(** [n] rounds of GET and back-off sleep, the first with number [attempt]. *)
Fixpoint retry_schedule (url : string) (backoff : Q) (attempt : Z) (n : nat) : list shape :=
  match n with
  | O => []
  | S n' =>
      SRequest GET url :: SSleep (backoff * inject_Z attempt)
        :: retry_schedule url backoff (attempt + 1) n'
  end.

(** An outcome after which the loop of [get] goes on to its next round. *)
Definition passes_on (o : http_outcome) : bool :=
  match o with
  | Response st _ =>
      negb (st =? 200) && (retryable st || ((400 <=? st) && (st <? 600)))
  | Failure _ => true
  end.

(** [last_exc] after the outcome [o] of a round. *)
Definition last_exc_after (o : http_outcome) (last_exc : option exn) : option exn :=
  match o with
  | Response st _ => if retryable st then last_exc else Some (HTTPError st)
  | Failure e => Some e
  end.

(** [last_exc] after the [k] rounds whose requests are numbered from [first]. *)
Fixpoint last_exc_rounds (E : env) (rq : request) (first : nat) (k : nat)
         (last_exc : option exn) : option exn :=
  match k with
  | O => last_exc
  | S k' => last_exc_rounds E rq (S first) k' (last_exc_after (http E first rq) last_exc)
  end.

(** What [get] raises after its loop. *)
Definition exhausted (last_exc : option exn) : exn :=
  match last_exc with
  | Some e => e
  | None => RuntimeError "Request failed without exception"
  end.

Definition get_request (url : string) (params : list (string * pyval)) : request :=
  {| rq_method := GET; rq_url := url; rq_params := params; rq_body := None |}.

(** The time that the code keeps between two progress submissions, at
    the least: min(interval, sessiontimeout // 2), the half rounded down
    as [//] does. *)
Definition min_gap (interval : Z) (sessiontimeout : option Z) : Z :=
  match sessiontimeout with
  | Some st => Z.min interval (st / 2)
  | None => interval
  end.

(** The bound on pacing as the specification words it,
    min(interval, sessionTimeout / 2), with the half taken exactly. *)
Definition claimed_gap (interval : Z) (sessiontimeout : option Z) : Q :=
  match sessiontimeout with
  | Some st =>
      if Qltb (inject_Z st / 2) (inject_Z interval) then inject_Z st / 2
      else inject_Z interval
  | None => inject_Z interval
  end.


(** [payload[0]["args"]] when it is a dict, and one of its entries. *)
Definition args_of (payload : pyval) : option dict :=
  match payload with
  | PList (PDict entry :: _) =>
      match dict_get entry "args" with
      | Some (PDict a) => Some a
      | _ => None
      end
  | _ => None
  end.

Definition arg (payload : pyval) (k : string) : option pyval :=
  match args_of payload with
  | Some a => dict_get a k
  | None => None
  end.


End Observe.
Export Observe.
(* ================================================================= *)
(** ** Specifications of computations *)

Module Spec.

(** Every run of [m] takes a state to one that is [R]-related to it,
    whether it returns or raises. *)
Definition follows {S A : Type} (R : S -> S -> Prop) (m : ST S A) : Prop :=
  forall s, R s (snd (m s)).

(** [m] keeps the invariant [I] of the state. *)
Definition keeps {S : Type} (I : S -> Prop) : S -> S -> Prop :=
  fun s s' => I s -> I s'.

(** The event [ev] happened between the worlds [w] and [w']. *)
Definition within (w w' : world) (ev : event) : Prop :=
  (clock w <= ev_time ev)%Q /\ (ev_time ev <= clock w')%Q.

(** From [w] the events [evs] lead to [w']; the clock never runs back. *)
Definition reaches (w : world) (evs : list event) (w' : world) : Prop :=
  trace w' = (trace w ++ evs)%list /\
  (clock w <= clock w')%Q /\
  Forall (within w w') evs.

(** [w'] is a later world than [w]. *)
Definition later (w w' : world) : Prop :=
  exists evs, reaches w evs w'.

(** The same, with no POST sent in between. *)
Definition later_without_post (w w' : world) : Prop :=
  exists evs, reaches w evs w' /\ post_times evs = [].

(** The same, with at most one POST. *)
Definition later_one_post (w w' : world) : Prop :=
  exists evs, reaches w evs w' /\ (List.length (post_times evs) <= 1)%nat.

(** Any two of the times [ts], an earlier and a later one, are at least
    [d] seconds apart. *)
Definition apart (d : Q) (ts : list Q) : Prop :=
  ForallOrdPairs (fun t1 t2 => (t1 + d <= t2)%Q) ts.

(** Every POST among [evs] is the last event or is followed at once by a
    sleep of [d] seconds. *)
Fixpoint sleep_follows_post (d : Q) (evs : list event) : bool :=
  match evs with
  | [] => true
  | ev :: rest =>
      match ev, rest with
      | EvRequest _ rq, next :: _ =>
          match rq_method rq, next with
          | POST, EvSleep _ s => Qeq_bool s d
          | POST, EvRequest _ _ => false
          | GET, _ => true
          end
      | _, _ => true
      end && sleep_follows_post d rest
  end.




(** Every run of [m] begins by sending the request [rq]. *)
Definition starts_with (rq : request) {A} (m : M A) : Prop :=
  forall w, exists evs,
    trace (snd (m w)) = (trace w ++ EvRequest (clock w) rq :: evs)%list.

(** The value is [None] or an int. *)
Definition none_or_int (v : pyval) : Prop :=
  v = PNone \/ exists z, v = PInt z.

(** [m] returns on every state. *)
Definition never_raises {S A : Type} (m : ST S A) : Prop :=
  forall s, exists a, fst (m s) = Ok a.

(** [m] returns the state it leaves. *)
Definition returns_state {S : Type} (m : ST S S) : Prop :=
  forall s, fst (m s) = Ok (snd (m s)).

(** The dict that [extract_fsresource_info] builds: its four keys, and a
    duration that is None or an int. *)
Definition info_shape (info : dict) : Prop :=
  dict_keys info = dict_keys Extract.info0 /\
  none_or_int (get_or_none info "duration").

End Spec.
Export Spec.

(* ================================================================= *)
(** ** Concrete worlds and pages *)

Module Scenario.
Import HttpClient.

(** JSON text is written with single quotes here; [jq] turns them into the
    double quotes of JSON. *)
Definition jq (s : string) : string := str_replace s (str1 sq) (str1 dq).

Definition env_of (reply : nat -> request -> http_outcome) (items : list VideoItem) : env :=
  {| http := reply;
     latency := fun _ => 250000%N;
     oversleep := fun _ => 1000%N;
     random_str := fun _ => "0.5";
     float_truth := fun _ => true;
     float_int := fun _ => Raise ValueError;
     repr_other := fun _ => "?";
     parse_course_fsresources := fun _ => items |}.

Definition w0 : world :=
  {| clock := 1000; requests := 0; sleeps := 0; randoms := 0; trace := [] |}.

Definition client0 : MoodleClient := {| base_url := "https://moodle.example" |}.

(** A server that answers every request with the status [st]. *)
Definition always (st : Z) : env := env_of (fun _ _ => Response st EmptyString) [].

(** A server that answers the first [k] requests with 503 and then 200. *)
Definition recovers_after (k : nat) : env :=
  env_of (fun n _ => if (n <? k)%nat then Response 503 EmptyString
                     else Response 200 "<html>") [].

(** The page of the extraction scenario. *)
Definition page_playerdata : string :=
  "playerdata = {fsresourceid: 4821, duration: 600, sesskey: 'abc123'}".

(** A page whose playerdata object parses and whose text also carries a
    [cmid]. *)
Definition page_two_ids : string :=
  jq "<script>var playerdata = {'fsresourceid': 222}; var cmid = 5;</script>".

(** Near-JSON configuration objects. *)
Definition page_trailing_comma : string :=
  jq "M.cfg = {'sesskey':'abc','courseId':5,'contextInstanceId':77,};".
Definition page_single_quotes : string :=
  "M.cfg = {'sesskey':'abc','courseId':5};".
Definition page_unquoted_keys : string :=
  "M.cfg = {sesskey: abc, courseId: 5};".

(** Two incomplete videos of a course. *)
Definition two_videos : list VideoItem :=
  [ {| vi_id := 11; vi_name := "first"; vi_url := "/mod/fsresource/view.php?id=11";
       vi_incomplete := Some true |};
    {| vi_id := 12; vi_name := "second"; vi_url := "/mod/fsresource/view.php?id=12";
       vi_incomplete := Some true |} ].

(** The course page is served; every later request fails to connect. *)
Definition only_course_page : env :=
  env_of (fun n _ => if (n =? 0)%nat then Response 200 "<html>course</html>"
                     else Failure (TransportError "connection refused"))
         two_videos.

Definition batch0 : WatchCourseIncompleteJob.t :=
  {| WatchCourseIncompleteJob.course_id := 2545;
     WatchCourseIncompleteJob.duration_seconds := 300;
     WatchCourseIncompleteJob.interval_seconds := 60;
     WatchCourseIncompleteJob.payload_template := None;
     WatchCourseIncompleteJob.target_seconds := None;
     WatchCourseIncompleteJob.limit := None;
     WatchCourseIncompleteJob.gap_seconds := 5 |}.

(** Every page is the playerdata page and has no sesskey the client could
    find for a video: each run returns before its loop. *)
Definition no_sesskey_pages : env :=
  env_of (fun _ _ => Response 200 "<html>nothing</html>") two_videos.

(** The answer of the completion scenario. *)
Definition completion_answer : string :=
  jq "[{'data': {'status': 'ok', 'completion': '已完成'}}]".

Definition completing : env :=
  env_of (fun _ rq => match rq_method rq with
                      | GET => Response 200 page_playerdata
                      | POST => Response 200 completion_answer
                      end) [].

Definition template0 : string :=
  jq "[{'index':0,'methodname':'mod_fsresource_set_time','args':{'fsresourceid':{fsresourceid},'time':{time},'progress':'0','finish':0}}]".

Definition job0 : WatchVideoJob.t :=
  {| WatchVideoJob.video_id := 159716;
     WatchVideoJob.duration_seconds := 300;
     WatchVideoJob.interval_seconds := 60;
     WatchVideoJob.payload_template := Some template0;
     WatchVideoJob.target_seconds := None |}.

Definition context0 : WatchVideoJob.context :=
  {| WatchVideoJob.html := page_playerdata;
     WatchVideoJob.sesskey := PStr "abc123";
     WatchVideoJob.sessiontimeout := None;
     WatchVideoJob.course_id := PNone;
     WatchVideoJob.context_instance_id := PNone;
     WatchVideoJob.fsresourceid := PInt 4821;
     WatchVideoJob.target := Some 600 |}.

(** A server and a machine without delays: a request takes no time, a
    sleep ends on time, and no answer reports completion. *)
Definition unhurried : env :=
  {| http := fun _ rq => match rq_method rq with
                         | GET => Response 200 page_playerdata
                         | POST => Response 200 "[]"
                         end;
     latency := fun _ => 0%N;
     oversleep := fun _ => 0%N;
     random_str := fun _ => "0.5";
     float_truth := fun _ => true;
     float_int := fun _ => Raise ValueError;
     repr_other := fun _ => "?";
     parse_course_fsresources := fun _ => [] |}.

(** A job that polls every [interval] seconds, and the variables of its
    run for a page whose session-timeout hint is [hint]. *)
Definition job_every (interval : Z) : WatchVideoJob.t :=
  {| WatchVideoJob.video_id := 159716;
     WatchVideoJob.duration_seconds := 300;
     WatchVideoJob.interval_seconds := interval;
     WatchVideoJob.payload_template := Some template0;
     WatchVideoJob.target_seconds := None |}.

Definition context_hint (hint : Z) : WatchVideoJob.context :=
  {| WatchVideoJob.html := page_playerdata;
     WatchVideoJob.sesskey := PStr "abc123";
     WatchVideoJob.sessiontimeout := Some hint;
     WatchVideoJob.course_id := PNone;
     WatchVideoJob.context_instance_id := PNone;
     WatchVideoJob.fsresourceid := PInt 4821;
     WatchVideoJob.target := Some 600 |}.




End Scenario.

(* ================================================================= *)
(** ** [http_client.py]: the other callers of service.php *)

Module Services.
Import Json Extract HttpClient.

Definition overview_method : string :=
  "core_course_get_enrolled_courses_by_timeline_classification".

Section Client.
Variable E : env.
Variable self : MoodleClient.

(** [fetch_overview_courses_api(html, classification)]: the sesskey comes
    from [html] alone, and the POST is not retried. *)
Definition fetch_overview_courses_api (html classification : string) : M pyval :=
  match extract_sesskey html with
  | None => ret (PList [])
  | Some sesskey =>
      if negb (nonempty sesskey) then ret (PList [])
      else
        let params := [("sesskey", PStr sesskey); ("info", PStr overview_method)] in
        let payload :=
          PList [PDict [("index", PInt 0);
                        ("methodname", PStr overview_method);
                        ("args", PDict [("offset", PInt 0);
                                        ("limit", PInt 0);
                                        ("classification", PStr classification);
                                        ("sort", PStr "fullname");
                                        ("customfieldname", PStr EmptyString);
                                        ("customfieldvalue", PStr EmptyString)])]] in
        '(st, tx) <- send E {| rq_method := POST; rq_url := service_url self;
                               rq_params := params; rq_body := Some payload |} ;;
        lift (raise_for_status st) ;;
        data <- lift (json_loads tx) ;;
        match data with
        | PList (entry :: _) =>                      (* a non-empty list *)
            err <- lift (py_get entry "error") ;;
            if py_truthy E err then ret (PList [])
            else
              d <- lift (py_get entry "data") ;;
              let result := py_or E d (PDict []) in
              courses <- lift (py_get result "courses") ;;
              ret (py_or E courses (PList []))
        | _ => ret (PList [])
        end
  end.

(** [call_ajax_service(methodname, args, html_context)] *)
Definition call_ajax_service (methodname : string) (args : pyval)
           (html_context : option string) : M pyval :=
  sesskey <- resolve_sesskey E self html_context ;;
  let params :=
    (("sesskey", PStr (match sesskey with Some s => s | None => EmptyString end))
       :: (if nonempty methodname then [("info", PStr methodname)] else []))%list in
  let payload :=
    PList [PDict [("index", PInt 0); ("methodname", PStr methodname); ("args", args)]] in
  '(st, tx) <- send E {| rq_method := POST; rq_url := service_url self;
                         rq_params := params; rq_body := Some payload |} ;;
  lift (raise_for_status st) ;;
  data <- lift (json_loads tx) ;;
  match data with
  | PList (entry :: _) =>
      err <- lift (py_get entry "error") ;;
      if py_truthy E err then ret entry
      else lift (py_get entry "data")
  | _ => ret data
  end.

(** [post_service_capture(payload_list, html_context, timestamp)]: the dict
    with the raw text and the parsed JSON, None when the text is not JSON. *)
Definition post_service_capture (payload_list : pyval) (html_context : option string)
           (timestamp : option Z) : M pyval :=
  sesskey <- resolve_sesskey E self html_context ;;
  ts <- match timestamp with
        | Some t => ret t
        | None => now <- time_time ;; ret (Qtrunc (now * 1000))
        end ;;
  let params :=
    [("sesskey", PStr (match sesskey with Some s => s | None => EmptyString end));
     ("timestamp", PInt ts)] in
  '(st, tx) <- send E {| rq_method := POST; rq_url := service_url self;
                         rq_params := params; rq_body := Some payload_list |} ;;
  lift (raise_for_status st) ;;
  let parsed := catch_default (json_loads tx) PNone in
  ret (PDict [("raw", PStr tx); ("json", parsed)]).
End Client.

End Services.

(* ================================================================= *)
(** ** [jobs.py]: listing the videos of a course, probing the service *)

Module ListCourseVideosJob.
Import HttpClient.

Record t : Type := {
  course_id : Z;
  only_incomplete : bool
}.

Section Run.
Variable E : env.
Variable client : MoodleClient.
Variable self : t.

Definition course_path : string :=
  "/course/view.php?id=" ++ str_of_Z (course_id self).

Definition run : M (list VideoItem) :=
  page <- get_text E client course_path ;;
  let items := parse_course_fsresources E page in
  ret (if only_incomplete self
       then filter WatchCourseIncompleteJob.is_incomplete items
       else items).
End Run.

End ListCourseVideosJob.

Module ProbeServiceJob.
Import Json Extract HttpClient.

Record t : Type := {
  video_id : Z;
  payload_template : option string;
  target_seconds : option Z
}.

(** The local variables of [run] once the page is read. *)
Record context : Type := {
  html : string;
  sesskey : pyval;
  course_id : pyval;
  context_instance_id : pyval;
  fsresourceid : pyval
}.

(** How [run] ends when it returns: without a template, with a filled
    template that is not JSON, or after the POST, whose captured answer is
    kept here. *)
Inductive ending : Type :=
| NoTemplate
| BadTemplate
| Probed (out : pyval).

Section Run.
Variable E : env.
Variable client : MoodleClient.
Variable self : t.

(** Lines 230 to 246 of [jobs.py]. *)
Definition resolve (page : string) : M context :=
  mcfg <- lift (parse_m_cfg page) ;;
  sk <- lift (py_get mcfg "sesskey") ;;
  let sesskey0 := py_or E sk (opt_str (extract_sesskey page)) in
  fsinfo <- lift (extract_fsresource_info page) ;;
  let sesskey1 :=
    if negb (py_truthy E sesskey0) && py_truthy E (get_or_none fsinfo "sesskey")
    then get_or_none fsinfo "sesskey" else sesskey0 in
  let fsresourceid0 := get_or_none fsinfo "fsresourceid" in
  context_instance_id <- lift (py_get mcfg "contextInstanceId") ;;
  course_id <- lift (py_get mcfg "courseId") ;;
  fsresourceid1 <-
    (if negb (py_truthy E fsresourceid0) && py_truthy E context_instance_id
     then
       try_except
         (cmid <- lift (py_int E context_instance_id) ;;
          cm_info <- get_course_module_info E client cmid (Some page) ;;
          inst <- lift (py_get cm_info "instance") ;;
          ret (py_or E inst fsresourceid0))
         (fun _ => ret fsresourceid0)
     else ret fsresourceid0) ;;
  let fsresourceid2 :=
    if negb (py_truthy E fsresourceid1) then PInt (video_id self) else fsresourceid1 in
  ret {| html := page; sesskey := sesskey1; course_id := course_id;
         context_instance_id := context_instance_id; fsresourceid := fsresourceid2 |}.

(** The seven [replace] calls, in their order; the time is the text 3. *)
Definition substitutions (cx : context) (timestamp : Z) : list (string * string) :=
  [ ("{timestamp}", str_of_Z timestamp);
    ("{sesskey}", py_str E (sesskey cx));
    ("{courseId}", py_str E (course_id cx));
    ("{contextInstanceId}", py_str E (context_instance_id cx));
    ("{videoId}", str_of_Z (video_id self));
    ("{fsresourceid}", py_str E (fsresourceid cx));
    ("{time}", "3") ].

Definition fill_template (template : string) (cx : context) (timestamp : Z) : string :=
  fold_left (fun s '(old, new) => str_replace s old new)
            (substitutions cx timestamp) template.

Definition page_path : string :=
  "/mod/fsresource/view.php?id=" ++ str_of_Z (video_id self).

Definition run : M ending :=
  page <- get_text E client page_path ;;
  cx <- resolve page ;;
  match payload_template self with
  | None => ret NoTemplate
  | Some template =>
      if negb (nonempty template) then ret NoTemplate
      else
        now <- time_time ;;
        let timestamp := Qtrunc (now * 1000) in
        match json_loads (fill_template template cx timestamp) with
        | Raise _ => ret BadTemplate
        | Ok payload =>
            out <- Services.post_service_capture E client payload (Some page)
                     (Some timestamp) ;;
            ret (Probed out)
        end
  end.
End Run.

End ProbeServiceJob.

(* ================================================================= *)
(** ** [config.py] *)

Module Config.
Import Extract.

(** dataclass Config *)
Record t : Type := {
  base_url : string;
  cookie_header : option string
}.

(** [s and s.strip()], as a condition *)
Definition not_blank (o : option string) : bool :=
  match o with
  | Some s => nonempty s && nonempty (strip s)
  | None => false
  end.

(** [load_config(cookie_header, cookie_value)]; [moodle_session] is the
    environment variable MOODLE_SESSION, None when it is not set. *)
Definition load_config (cookie_header cookie_value moodle_session : option string) : t :=
  let header :=
    match cookie_header with
    | Some h =>
        if not_blank cookie_header then Some (strip h)
        else None
    | None => None
    end in
  let header :=
    match header with
    | Some h => Some h
    | None =>
        let raw :=
          match cookie_value with
          | Some v =>
              if not_blank cookie_value then v
              else strip (match moodle_session with Some s => s | None => EmptyString end)
          | None => strip (match moodle_session with Some s => s | None => EmptyString end)
          end in
        if nonempty raw then Some ("MoodleSession=" ++ raw) else None
    end in
  {| base_url := "https://courses.gdut.edu.cn"; cookie_header := header |}.

End Config.

(* ================================================================= *)
(** ** [parsers.py]

    BeautifulSoup is not embedded: the parsers are given what its queries
    return for the page, and everything they do with it is as in the
    source. *)

Module Parsers.
Import Re Extract.

(** dataclass Course *)
Record Course : Type := {
  c_id : option Z;
  c_name : string;
  c_url : string
}.

(** What the code reads of an [a] element: [a.get("href")],
    [a.get_text(strip=True)] and [a.get("title")]. *)
Record anchor : Type := {
  a_href : option string;
  a_text : string;
  a_title : option string
}.

(** Of an [img] element: [icon.get("src")] and [icon.get("data-id")]. *)
Record icon : Type := {
  i_src : option string;
  i_data_id : option string
}.

(** Of the element [.activity-completion]: its attributes
    data-completionstate and data-state, and its list of classes. *)
Record completion : Type := {
  comp_completionstate : option string;
  comp_state : option string;
  comp_class : list string
}.

(** Of one [li.activity]: what each query of the loop body returns. *)
Record activity : Type := {
  li_link : option anchor;           (* select_one("a[href*='mod/fsresource/view.php?id=']") *)
  li_icon : option icon;             (* select_one("img.activityicon") or ... *)
  li_instancename : option string;   (* get_text(strip=True) of select_one(".instancename") or ... *)
  li_completion : option completion; (* select_one(".activity-completion") *)
  li_todo_button : bool              (* find("button", string=...) found one *)
}.

(** Of a course page: [soup.select("li.activity")] and
    [soup.find_all("a", href=True)]. *)
Record course_page : Type := {
  activities : list activity;
  links : list anchor
}.

(** /course/view\.php\?id=(\d+) *)
Definition COURSE_LINK_RE : regex :=
  seq [RLit "/course/view.php?id="; RGroup 1 digits_plus].

(** /mod/fsresource/view\.php\?id=(\d+) *)
Definition FSRESOURCE_LINK_RE : regex :=
  seq [RLit "/mod/fsresource/view.php?id="; RGroup 1 digits_plus].

(** [a or b] for two values that are a string or None *)
Definition or_else (a b : option string) : option string :=
  match a with
  | Some s => if nonempty s then a else b
  | None => b
  end.

(** [a or d] for a default [d] that is a string *)
Definition or_default (a : option string) (d : string) : string :=
  match a with
  | Some s => if nonempty s then s else d
  | None => d
  end.

(** [uniq = {}; for x in xs: if key(x) not in uniq: uniq[key(x)] = x;
    list(uniq.values())]: the first element of every key, in the order of
    [xs]. [seen] holds the keys of [uniq]. *)
Fixpoint dedupe_by {A K : Type} (key : A -> K) (eqb : K -> K -> bool)
         (seen : list K) (xs : list A) : list A :=
  match xs with
  | [] => []
  | x :: rest =>
      if existsb (eqb (key x)) seen then dedupe_by key eqb seen rest
      else x :: dedupe_by key eqb (key x :: seen) rest
  end.

(** The key [c.id or c.url] of a course: an int that is not 0, or a string. *)
Inductive course_key : Type :=
| ById (id : Z)
| ByUrl (url : string).

Definition key_of (c : Course) : course_key :=
  match c_id c with
  | Some z => if z =? 0 then ByUrl (c_url c) else ById z
  | None => ByUrl (c_url c)
  end.

Definition key_eqb (k1 k2 : course_key) : bool :=
  match k1, k2 with
  | ById a, ById b => a =? b
  | ByUrl a, ByUrl b => String.eqb a b
  | _, _ => false
  end.

Definition _dedupe (courses : list Course) : list Course :=
  dedupe_by key_of key_eqb [] courses.

(** [consider_anchor(a)], on the list [courses] and the set [seen_urls]. *)
Definition consider_anchor (a : anchor) (st : list Course * list string)
  : list Course * list string :=
  match a_href a with
  | None => st
  | Some href =>
      if negb (nonempty href) then st
      else
        match search COURSE_LINK_RE href with
        | None => st
        | Some m =>
            let name := or_default (or_else (Some (a_text a)) (a_title a)) href in
            let cid := match int_of_str (group m 1) with
                       | Ok z => Some z
                       | Raise _ => None
                       end in
            if existsb (String.eqb href) (snd st) then st
            else ((fst st ++ [{| c_id := cid; c_name := name; c_url := href |}])%list,
                  href :: snd st)
        end
  end.

(** [parse_overview_courses]: [containers] lists, for every container the
    four queries find (in their order, a container as often as it is
    found), the anchors of its [select("a[href]")]. *)
Definition parse_overview_courses (containers : list (list anchor)) : list Course :=
  _dedupe (fst (fold_left (fun st a => consider_anchor a st) (List.concat containers) ([], []))).

Definition parse_my_courses (containers : list (list anchor)) : list Course :=
  parse_overview_courses containers.

Definition video_path (vid : Z) : string :=
  "/mod/fsresource/view.php?id=" ++ str_of_Z vid.

Definition default_name (vid : Z) : string := "fsresource-" ++ str_of_Z vid.

(** The completion state read off the element [comp]. *)
Definition completion_state (comp : completion) : option bool :=
  match or_else (comp_completionstate comp) (comp_state comp) with
  | Some state_attr =>
      match int_of_str state_attr with
      | Ok z => Some (z =? 0)
      | Raise _ => None
      end
  | None =>
      let classes := String.concat " " (comp_class comp) in
      if contains_str "completed" classes then Some false
      else if contains_str "incomplete" classes || contains_str "notcompleted" classes
           then Some true
           else None
  end.

(** The body of the loop over [li.activity]: the item it appends, None
    when it goes on to the next element without one. *)
Definition parse_activity (li : activity) : result (option VideoItem) :=
  let href := match li_link li with Some a => a_href a | None => None end in
  found <-- match search FSRESOURCE_LINK_RE (or_default href EmptyString) with
            | Some m =>
                vid <-- int_of_str (group m 1) ;;
                match li_link li with
                | Some a => Ok (Some vid, or_else (Some (a_text a)) (a_title a))
                | None => Raise AttributeError
                end
            | None => Ok (None, None)
            end ;;
  let '(vid, name) := found in
  let '(vid, name, href) :=
    match li_icon li with
    | Some ic =>
        if contains_str "/f/video" (match i_src ic with Some s => s | None => EmptyString end)
        then
          let vid :=
            match vid with
            | Some v => Some v
            | None =>
                match i_data_id ic with
                | Some d => match int_of_str d with Ok z => Some z | Raise _ => None end
                | None => None                          (* int(None): TypeError *)
                end
            end in
          let name := match name with Some n => Some n | None => li_instancename li end in
          let href :=
            match href, vid with
            | None, Some v => Some (video_path v)
            | _, _ => href
            end in
          (vid, name, href)
        else (vid, name, href)
    | None => (vid, name, href)
    end in
  match vid with
  | None => Ok None                                     (* continue *)
  | Some v =>
      let incomplete :=
        match li_completion li with
        | Some comp => completion_state comp
        | None => None
        end in
      let incomplete :=
        match incomplete with
        | None => if li_todo_button li then Some true else None
        | Some b => Some b
        end in
      Ok (Some {| vi_id := v;
                  vi_name := or_default name (default_name v);
                  vi_url := or_default href (video_path v);
                  vi_incomplete := incomplete |})
  end.

Fixpoint parse_activities (lis : list activity) : result (list VideoItem) :=
  match lis with
  | [] => Ok []
  | li :: rest =>
      r <-- parse_activity li ;;
      items <-- parse_activities rest ;;
      Ok (match r with Some it => it :: items | None => items end)
  end.

(** The loop over every link of the page, for a page without items. *)
Fixpoint fallback_links (anchors : list anchor) : result (list VideoItem) :=
  match anchors with
  | [] => Ok []
  | a :: rest =>
      match a_href a with
      | None => Raise KeyError                          (* a["href"] *)
      | Some href =>
          r <-- match search FSRESOURCE_LINK_RE href with
                | Some m =>
                    vid <-- int_of_str (group m 1) ;;
                    Ok (Some {| vi_id := vid;
                                vi_name := or_default (or_else (Some (a_text a)) (a_title a))
                                                      (default_name vid);
                                vi_url := href;
                                vi_incomplete := None |})
                | None => Ok None
                end ;;
          items <-- fallback_links rest ;;
          Ok (match r with Some it => it :: items | None => items end)
      end
  end.

Definition parse_course_fsresources (soup : course_page) : result (list VideoItem) :=
  items <-- parse_activities (activities soup) ;;
  items <-- match items with
            | [] => fallback_links (links soup)
            | _ => Ok items
            end ;;
  Ok (dedupe_by vi_id Z.eqb [] items).

End Parsers.

(* ================================================================= *)
(** ** [http_client.py]: a new client; [jobs.py]: the list of courses *)

Module Client.
Import HttpClient.

(** [s.rstrip(ch)] for one character [ch] *)
Fixpoint rstrip_char (ch : ascii) (s : string) : string :=
  match s with
  | EmptyString => EmptyString
  | String c s' =>
      match rstrip_char ch s' with
      | EmptyString => if Ascii.eqb c ch then EmptyString else str1 c
      | r => String c r
      end
  end.

(** [MoodleClient(base_url, cookie_header)]; the headers and the cookie of
    the session are sent with every request and are not part of what a
    request is here. *)
Definition __init__ (base_url : string) (cookie_header : option string) : MoodleClient :=
  {| HttpClient.base_url := rstrip_char "/" base_url |}.

End Client.

Module ListCoursesJob.
Import Extract HttpClient.

(** A Course as [run] returns it: from the page, with an id that is an int
    or None and strings for its name and URL; from the service, with what
    the JSON answer holds. *)
Record course : Type := {
  id : pyval;
  name : pyval;
  url : pyval
}.

Definition of_parsed (c : Parsers.Course) : course :=
  {| id := match Parsers.c_id c with Some z => PInt z | None => PNone end;
     name := PStr (Parsers.c_name c);
     url := PStr (Parsers.c_url c) |}.

Section Run.
Variable E : env.
Variable client : MoodleClient.
(** The anchors of the overview block of a page, as BeautifulSoup finds
    them for [parse_overview_courses]. *)
Variable overview_anchors : string -> list (list Parsers.anchor).

(** The body of [for c in api_courses], for one [c]. *)
Definition convert (c : pyval) : result course :=
  cid <-- py_get c "id" ;;
  fullname <-- py_get c "fullname" ;;
  name <-- (if py_truthy E fullname then Ok fullname
            else
              shortname <-- py_get c "shortname" ;;
              Ok (py_or E shortname (PStr (py_str E cid)))) ;;
  viewurl <-- py_get c "viewurl" ;;
  let url :=
    py_or E viewurl
          (if py_truthy E cid
           then PStr ("https://courses.gdut.edu.cn/course/view.php?id=" ++ py_str E cid)
           else PStr EmptyString) in
  Ok {| id := cid; name := name; url := url |}.

Fixpoint convert_all (cs : list pyval) : result (list course) :=
  match cs with
  | [] => Ok []
  | c :: rest =>
      x <-- convert c ;;
      xs <-- convert_all rest ;;
      Ok (x :: xs)
  end.

(** What [for c in v] goes through. *)
Definition py_iter (v : pyval) : result (list pyval) :=
  match v with
  | PList l => Ok l
  | PDict d => Ok (map (fun kv => PStr (fst kv)) d)
  | PStr s => Ok (map (fun c => PStr (str1 c)) (list_ascii_of_string s))
  | PNone | PBool _ | PInt _ | PFloat _ => Raise TypeError
  end.

Definition run : M (list course) :=
  html <- get_my_courses_page E client ;;
  match Parsers.parse_overview_courses (overview_anchors html) with
  | [] =>
      api_courses <- Services.fetch_overview_courses_api E client html "all" ;;
      cs <- lift (py_iter api_courses) ;;
      lift (convert_all cs)
  | courses => ret (map of_parsed courses)
  end.
End Run.

End ListCoursesJob.

(* ================================================================= *)
(** ** [main.py] *)

Module Main.
Import Extract HttpClient.

(** The choices of the argument [command]. *)
Inductive command : Type :=
| ListCourses
| ListVideos
| WatchVideo
| ProbeService
| WatchCourseIncomplete.

(** The namespace that [parse_args] returns. *)
Record args : Type := {
  cmd : command;
  cookie_header : option string;
  cookie_value : option string;
  course_id : option Z;
  only_incomplete : bool;
  video_id : option Z;
  fsresourceid : option Z;
  duration : Z;
  interval : Z;
  payload_template : option string;
  payload_file : option string;
  target_seconds : option Z;
  limit : option Z;
  gap : Z
}.

(** What [main] reads of the process: the environment variable
    MOODLE_SESSION, and the text of a file, or the error of reading it. *)
Record process : Type := {
  moodle_session : option string;
  read_text : string -> result string
}.

(** How [main] ends when it does not raise an exception: it returns a
    status, or [sys.exit] ends the process with one. *)
Inductive ending : Type :=
| Returns (status : Z)
| Exits (status : Z).

Section Main.
Variable E : env.
Variable P : process.
Variable overview_anchors : string -> list (list Parsers.anchor).
(** The rounds that the model gives to a polling loop. *)
Variable fuel : nat.

(** [tpl = args.payload_template; if (not tpl) and args.payload_file: ...]:
    the template, or None where reading the file fails. *)
Definition template_of (a : args) : option (option string) :=
  if negb (WatchVideoJob.truthy_template (payload_template a))
     && WatchVideoJob.truthy_template (payload_file a)
  then
    match read_text P (match payload_file a with Some f => f | None => EmptyString end) with
    | Ok text => Some (Some text)
    | Raise _ => None
    end
  else Some (payload_template a).

(** [tpl.replace("{fsresourceid}", str(args.fsresourceid))] when both are
    given. *)
Definition with_fsresourceid (a : args) (tpl : option string) : option string :=
  match tpl with
  | Some t =>
      if WatchVideoJob.truthy_int (fsresourceid a) && nonempty t
      then Some (str_replace t "{fsresourceid}"
                   (str_of_Z (match fsresourceid a with Some z => z | None => 0 end)))
      else tpl
  | None => None
  end.

Definition main (a : args) : M ending :=
  let cfg := Config.load_config (cookie_header a) (cookie_value a) (moodle_session P) in
  match Config.cookie_header cfg with
  | None => ret (Exits 2)
  | Some cookie =>
      if negb (nonempty cookie) then ret (Exits 2)
      else
        let client := Client.__init__ (Config.base_url cfg) (Some cookie) in
        match cmd a with
        | ListCourses =>
            ListCoursesJob.run E client overview_anchors ;;
            ret (Returns 0)
        | ListVideos =>
            match course_id a with
            | None => ret (Returns 2)
            | Some cid =>
                if cid =? 0 then ret (Returns 2)
                else
                  ListCourseVideosJob.run E client
                    {| ListCourseVideosJob.course_id := cid;
                       ListCourseVideosJob.only_incomplete := only_incomplete a |} ;;
                  ret (Returns 0)
            end
        | WatchVideo =>
            match video_id a with
            | None => ret (Returns 2)
            | Some vid =>
                if vid =? 0 then ret (Returns 2)
                else
                  match template_of a with
                  | None => ret (Returns 2)
                  | Some tpl =>
                      WatchVideoJob.run E client
                        {| WatchVideoJob.video_id := vid;
                           WatchVideoJob.duration_seconds := duration a;
                           WatchVideoJob.interval_seconds := interval a;
                           WatchVideoJob.payload_template := with_fsresourceid a tpl;
                           WatchVideoJob.target_seconds := target_seconds a |} fuel ;;
                      ret (Returns 0)
                  end
            end
        | ProbeService =>
            match video_id a with
            | None => ret (Returns 2)
            | Some vid =>
                if vid =? 0 then ret (Returns 2)
                else
                  match template_of a with
                  | None => ret (Returns 2)
                  | Some tpl =>
                      ProbeServiceJob.run E client
                        {| ProbeServiceJob.video_id := vid;
                           ProbeServiceJob.payload_template := with_fsresourceid a tpl;
                           ProbeServiceJob.target_seconds := target_seconds a |} ;;
                      ret (Returns 0)
                  end
            end
        | WatchCourseIncomplete =>
            match course_id a with
            | None => ret (Returns 2)
            | Some cid =>
                if cid =? 0 then ret (Returns 2)
                else
                  match template_of a with
                  | None => ret (Returns 2)
                  | Some tpl =>
                      WatchCourseIncompleteJob.run E client
                        {| WatchCourseIncompleteJob.course_id := cid;
                           WatchCourseIncompleteJob.duration_seconds := duration a;
                           WatchCourseIncompleteJob.interval_seconds := interval a;
                           WatchCourseIncompleteJob.payload_template := tpl;
                           WatchCourseIncompleteJob.target_seconds := target_seconds a;
                           WatchCourseIncompleteJob.limit := limit a;
                           WatchCourseIncompleteJob.gap_seconds := gap a |} fuel ;;
                      ret (Returns 0)
                  end
            end
        end
  end.
End Main.

End Main.

(* ================================================================= *)
(** ** More to observe and to specify *)

Module Sent.
Import Extract HttpClient.

(** The requests among [evs], oldest first: the calls of [session.get]
    and [session.post] that the code made. *)
Definition sent (evs : list event) : list request :=
  flat_map (fun ev =>
              match ev with
              | EvRequest _ rq => [rq]
              | EvSleep _ _ => []
              end) evs.

(** The GET of the page /my/, as [get_my_courses_page] sends it. *)
Definition my_page_request (self : MoodleClient) : request :=
  get_request (base_url self ++ "/my/") [].

(** [evs] is what looking for a sesskey on /my/ leaves: GETs of that page,
    at most three, and the sleeps between them. *)
Definition my_page_fetch (self : MoodleClient) (evs : list event) : Prop :=
  Forall (fun rq => rq = my_page_request self) (sent evs) /\
  (List.length (sent evs) <= 3)%nat.

(** A POST to service.php. *)
Definition service_post (self : MoodleClient) (params : list (string * pyval))
           (body : pyval) : request :=
  {| rq_method := POST; rq_url := service_url self;
     rq_params := params; rq_body := Some body |}.

(** The sesskey that [page] carries, when it carries one. *)
Definition page_sesskey (html_context : option string) : option string :=
  match html_context with
  | Some page => if nonempty page then extract_sesskey page else None
  | None => None
  end.

(** A string of letters and digits. *)
Definition is_alnum (c : ascii) : bool :=
  in_range "a" "z" c || in_range "A" "Z" c || in_range "0" "9" c.

(** A run came to an end within the rounds the model gave it: it returned
    in one of the ways the code returns, or it raised. *)
Definition finished (r : result outcome) : Prop :=
  match r with
  | Ok Unfinished => False
  | _ => True
  end.

(** The variables of [WatchVideoJob.run] when its loop starts: the video
    id stands in for a resource id that was not found (lines 115 to 117). *)
Definition loop_context (self : WatchVideoJob.t) (truthy : pyval -> bool)
           (cx : WatchVideoJob.context) : WatchVideoJob.context :=
  if negb (truthy (WatchVideoJob.fsresourceid cx))
  then {| WatchVideoJob.html := WatchVideoJob.html cx;
          WatchVideoJob.sesskey := WatchVideoJob.sesskey cx;
          WatchVideoJob.sessiontimeout := WatchVideoJob.sessiontimeout cx;
          WatchVideoJob.course_id := WatchVideoJob.course_id cx;
          WatchVideoJob.context_instance_id := WatchVideoJob.context_instance_id cx;
          WatchVideoJob.fsresourceid := PInt (WatchVideoJob.video_id self);
          WatchVideoJob.target := WatchVideoJob.target cx |}
  else cx.

(** A course as [parse_overview_courses] lists it: with a name, and with
    the link of one of the [anchors] as its URL. *)
Definition listed_course (anchors : list Parsers.anchor) (c : Parsers.Course) : Prop :=
  Parsers.c_name c <> EmptyString /\
  Parsers.c_url c <> EmptyString /\
  exists a, In a anchors /\ Parsers.a_href a = Some (Parsers.c_url c).

(** What holds of the courses gathered so far and of the set of their
    links, while the anchors are considered. *)
Definition gathered (anchors : list Parsers.anchor)
           (st : list Parsers.Course * list string) : Prop :=
  NoDup (map Parsers.c_url (fst st)) /\
  (forall c, In c (fst st) -> In (Parsers.c_url c) (snd st)) /\
  Forall (listed_course anchors) (fst st).

(** A video as [parse_course_fsresources] lists it: with a name and a URL. *)
Definition listed_video (it : VideoItem) : Prop :=
  vi_name it <> EmptyString /\ vi_url it <> EmptyString.

(** The URL that the code hands to the session is one below [base]. *)
Definition on_host (base : string) (rq : request) : Prop :=
  startswith (rq_url rq) (base ++ "/") = true.

(** [w'] is a later world than [w], and every call of the session in
    between was given a URL below [base]. *)
Definition later_on_host (base : string) (w w' : world) : Prop :=
  exists evs, trace w' = (trace w ++ evs)%list /\ Forall (on_host base) (sent evs).

(** What the four values of the dict of [extract_fsresource_info] can be:
    an id that is None, an int or a bool (a bool is an int to
    [isinstance]); a duration that is None or an int from 0 on; a name that
    is None or a string without white space around it; a sesskey that is
    None or a string that is not empty. *)
Definition info_values (info : dict) : Prop :=
  match get_or_none info "fsresourceid" with
  | PNone | PInt _ | PBool _ => True
  | _ => False
  end /\
  match get_or_none info "duration" with
  | PNone => True
  | PInt z => 0 <= z
  | _ => False
  end /\
  match get_or_none info "name" with
  | PNone => True
  | PStr s => strip s = s
  | _ => False
  end /\
  match get_or_none info "sesskey" with
  | PNone => True
  | PStr s => s <> EmptyString
  | _ => False
  end.

End Sent.
Export Sent.

(* ================================================================= *)
(** ** More concrete jobs and pages *)

Module Cases.
Import HttpClient.

(** A job without a payload template. *)
Definition job_idle : WatchVideoJob.t :=
  {| WatchVideoJob.video_id := 159716;
     WatchVideoJob.duration_seconds := 120;
     WatchVideoJob.interval_seconds := 60;
     WatchVideoJob.payload_template := None;
     WatchVideoJob.target_seconds := None |}.

(** The probe of the video of [Scenario.job0]. *)
Definition probe0 : ProbeServiceJob.t :=
  {| ProbeServiceJob.video_id := 159716;
     ProbeServiceJob.payload_template := Some Scenario.template0;
     ProbeServiceJob.target_seconds := None |}.

(** An activity whose completion element has the class notcompleted and
    no state attribute, and which has the button of the to-do list. *)
Definition activity_notcompleted : Parsers.activity :=
  {| Parsers.li_link :=
       Some {| Parsers.a_href := Some "https://moodle.example/mod/fsresource/view.php?id=77";
               Parsers.a_text := "Lecture 1";
               Parsers.a_title := None |};
     Parsers.li_icon := None;
     Parsers.li_instancename := None;
     Parsers.li_completion :=
       Some {| Parsers.comp_completionstate := None;
               Parsers.comp_state := None;
               Parsers.comp_class := ["activity-completion"; "notcompleted"] |};
     Parsers.li_todo_button := true |}.

(** An activity known by its icon alone, with the state attribute 0. *)
Definition activity_by_icon : Parsers.activity :=
  {| Parsers.li_link := None;
     Parsers.li_icon := Some {| Parsers.i_src := Some "https://moodle.example/theme/f/video-24";
                                Parsers.i_data_id := Some "78" |};
     Parsers.li_instancename := Some EmptyString;
     Parsers.li_completion :=
       Some {| Parsers.comp_completionstate := None;
               Parsers.comp_state := Some "0";
               Parsers.comp_class := [] |};
     Parsers.li_todo_button := false |}.

(** A course page with these two activities, the first of them twice. *)
Definition page_of_activities : Parsers.course_page :=
  {| Parsers.activities := [activity_notcompleted; activity_by_icon; activity_notcompleted];
     Parsers.links := [] |}.

(** A course page without activities and with one link to a video. *)
Definition page_of_links : Parsers.course_page :=
  {| Parsers.activities := [];
     Parsers.links := [ {| Parsers.a_href := Some "/mod/fsresource/view.php?id=5";
                           Parsers.a_text := EmptyString;
                           Parsers.a_title := None |} ] |}.

(** A course page whose two activities are the videos of
    [Scenario.two_videos]. *)
Definition activity_of (vid : string) (text : string) : Parsers.activity :=
  {| Parsers.li_link :=
       Some {| Parsers.a_href := Some ("/mod/fsresource/view.php?id=" ++ vid);
               Parsers.a_text := text;
               Parsers.a_title := None |};
     Parsers.li_icon := None;
     Parsers.li_instancename := None;
     Parsers.li_completion :=
       Some {| Parsers.comp_completionstate := Some "0";
               Parsers.comp_state := None;
               Parsers.comp_class := [] |};
     Parsers.li_todo_button := false |}.

Definition page_of_two_videos : Parsers.course_page :=
  {| Parsers.activities := [activity_of "11" "first"; activity_of "12" "second"];
     Parsers.links := [] |}.

End Cases.


Import Re Json Extract HttpClient.

(* ================================================================= *)
(** * Properties *)

(** ** Arithmetic of the clock *)

Lemma Qltb_lt (a b : Q) : Qltb a b = true <-> (a < b)%Q.
Proof. unfold Qltb, Qlt. apply Z.ltb_lt. Qed.

Lemma Qltb_ge (a b : Q) : Qltb a b = false <-> (b <= a)%Q.
Proof. unfold Qltb, Qle. rewrite Z.ltb_ge. reflexivity. Qed.

Lemma usec_nonneg (n : N) : (0 <= usec n)%Q.
Proof. unfold usec, Qle; simpl. lia. Qed.

Lemma backoff_round_nonneg (backoff : Q) (attempt : Z) :
  (0 <= backoff)%Q -> 0 < attempt -> Qltb (backoff * inject_Z attempt) 0 = false.
Proof.
  intros Hb Ha. apply Qltb_ge.
  apply Qmult_le_0_compat; [exact Hb|].
  unfold Qle; simpl. lia.
Qed.

(** ** Events between two worlds *)

Lemma new_events_app (w w' : world) (evs : list event) :
  trace w' = (trace w ++ evs)%list -> new_events w w' = evs.
Proof.
  intros H. unfold new_events. rewrite H.
  rewrite skipn_app, skipn_all, Nat.sub_diag. reflexivity.
Qed.

(** ** The retry loop of [get] *)

Section GetLoop.
Variable E : env.
Variable self : MoodleClient.
Variables (url : string) (params : list (string * pyval)) (backoff : Q).
Hypothesis backoff_nonneg : (0 <= backoff)%Q.

Let rq := get_request url params.

(** A round that passes on: one request, one sleep, the next round. *)
Lemma attempt_once_passes (attempt : Z) (le : option exn) (w : world) :
  0 < attempt ->
  passes_on (http E (requests w) rq) = true ->
  exists w',
    attempt_once E url params backoff attempt le w
      = (Ok (Next (last_exc_after (http E (requests w) rq) le)), w') /\
    requests w' = S (requests w) /\
    trace w' = (trace w ++ [EvRequest (clock w) rq;
                            EvSleep (clock w + usec (latency E (requests w)))
                                    (backoff * inject_Z attempt)])%list.
Proof.
  intros Ha Hp.
  pose proof (backoff_round_nonneg backoff attempt backoff_nonneg Ha) as Hs.
  subst rq. unfold get_request in *.
  unfold attempt_once, try_except, bind, send, time_sleep, lift, ret. simpl.
  destruct (http E (requests w) _) as [st tx | e] eqn:Ho; simpl in *.
  - destruct (st =? 200) eqn:H200; [discriminate|]. simpl in Hp.
    destruct (retryable st) eqn:Hr; simpl.
    + rewrite Hs. eexists; repeat split; simpl.
      rewrite <- app_assoc. reflexivity.
    + unfold raise_for_status. simpl in Hp. rewrite Hp. simpl.
      rewrite Hs. eexists; repeat split; simpl.
      rewrite <- app_assoc. reflexivity.
  - rewrite Hs. eexists; repeat split; simpl.
    rewrite <- app_assoc. reflexivity.
Qed.

(** [k] rounds that pass on, then the rest of the loop. *)
Lemma get_attempts_pass (k m : nat) :
  forall (attempt : Z) (le : option exn) (w : world),
    0 < attempt ->
    (forall i, (i < k)%nat -> passes_on (http E (requests w + i) rq) = true) ->
    exists w' evs,
      get_attempts E url params backoff (k + m) attempt le w
        = get_attempts E url params backoff m (attempt + Z.of_nat k)
            (last_exc_rounds E rq (requests w) k le) w' /\
      requests w' = (requests w + k)%nat /\
      trace w' = (trace w ++ evs)%list /\
      map shape_of evs = retry_schedule url backoff attempt k.
Proof.
  induction k as [|k IH]; intros attempt le w Ha Hp.
  - exists w, []. simpl. rewrite Z.add_0_r, Nat.add_0_r, app_nil_r. auto.
  - destruct (attempt_once_passes attempt le w Ha) as (w1 & H1 & Hr1 & Ht1).
    { specialize (Hp 0%nat). rewrite Nat.add_0_r in Hp. apply Hp. lia. }
    destruct (IH (attempt + 1) (last_exc_after (http E (requests w) rq) le) w1)
      as (w' & evs & H2 & Hr2 & Ht2 & Hs2).
    { lia. }
    { intros i Hi. rewrite Hr1.
      replace (S (requests w) + i)%nat with (requests w + S i)%nat by lia.
      apply Hp. lia. }
    eexists w', (_ :: _ :: evs). repeat split.
    + change (S k + m)%nat with (S (k + m)). cbn [get_attempts].
      unfold bind at 1. rewrite H1. rewrite H2.
      rewrite Hr1. cbn [last_exc_rounds].
      replace (attempt + 1 + Z.of_nat k) with (attempt + Z.of_nat (S k)) by lia.
      reflexivity.
    + rewrite Hr2, Hr1. lia.
    + rewrite Ht2, Ht1, <- app_assoc. reflexivity.
    + cbn [map shape_of retry_schedule]. rewrite Hs2. reflexivity.
Qed.

Lemma requested_urls_schedule (evs : list event) (attempt : Z) (k : nat) :
  map shape_of evs = retry_schedule url backoff attempt k ->
  List.length (requested_urls evs) = k.
Proof.
  revert evs attempt. induction k as [|k IH]; intros evs attempt H.
  - destruct evs; [reflexivity | discriminate].
  - destruct evs as [|e1 [|e2 evs]]; try discriminate.
    cbn [map retry_schedule] in H. injection H as H1 H2 H3.
    destruct e1; [|discriminate]. destruct e2; [discriminate|].
    simpl. f_equal. eapply IH; eauto.
Qed.

(** Rounds that answer with a retryable status leave [last_exc] alone. *)
Lemma last_exc_rounds_retryable (k : nat) :
  forall (first : nat) (le : option exn),
    (forall i, (i < k)%nat ->
               exists st tx, http E (first + i) rq = Response st tx /\ retryable st = true) ->
    last_exc_rounds E rq first k le = le.
Proof.
  induction k as [|k IH]; intros first le H; [reflexivity|].
  cbn [last_exc_rounds].
  destruct (H 0%nat) as (st & tx & Ho & Hr); [lia|].
  rewrite Nat.add_0_r in Ho. rewrite Ho. cbn [last_exc_after]. rewrite Hr.
  apply IH. intros i Hi.
  replace (S first + i)%nat with (first + S i)%nat by lia. apply H. lia.
Qed.

(** Rounds that all answer with the status [st], an error status that is
    not retryable, leave the HTTPError of [st]. *)
Lemma last_exc_rounds_status (st : Z) (k : nat) :
  forall (first : nat) (le : option exn),
    retryable st = false ->
    (forall i, (i < S k)%nat -> exists tx, http E (first + i) rq = Response st tx) ->
    last_exc_rounds E rq first (S k) le = Some (HTTPError st).
Proof.
  induction k as [|k IH]; intros first le Hr H.
  - cbn [last_exc_rounds]. destruct (H 0%nat) as (tx & Ho); [lia|].
    rewrite Nat.add_0_r in Ho. rewrite Ho. cbn [last_exc_after]. rewrite Hr. reflexivity.
  - change (last_exc_rounds E rq first (S (S k)) le)
      with (last_exc_rounds E rq (S first) (S k) (last_exc_after (http E first rq) le)).
    apply IH; [exact Hr|]. intros i Hi.
    replace (S first + i)%nat with (first + S i)%nat by lia. apply H. lia.
Qed.

(** The round that is answered with 200 returns at once. *)
Lemma attempt_once_200 (attempt : Z) (le : option exn) (w : world) (tx : string) :
  http E (requests w) rq = Response 200 tx ->
  exists w',
    attempt_once E url params backoff attempt le w = (Ok (Return 200 tx), w') /\
    trace w' = (trace w ++ [EvRequest (clock w) rq])%list.
Proof.
  intros Ho. subst rq. unfold get_request in *.
  unfold attempt_once, try_except, bind, send. simpl.
  rewrite Ho. simpl. eexists; split; reflexivity.
Qed.
End GetLoop.

(** When every round of the loop passes on, [get] raises what the loop
    left in [last_exc], or its RuntimeError when that is still None. *)
Lemma get_raises_when_exhausted
      (E : env) (self : MoodleClient) (path : string)
      (params : list (string * pyval)) (max_retries : Z) (backoff : Q) (w : world) :
  (0 <= backoff)%Q ->
  let url := url_of self path in
  let rq := get_request url params in
  let n := Z.to_nat max_retries in
  let r := get E self path params max_retries backoff w in
  (forall k, (k < n)%nat -> passes_on (http E (requests w + k) rq) = true) ->
  fst r = Raise (exhausted (last_exc_rounds E rq (requests w) n None)) /\
  map shape_of (new_events w (snd r)) = retry_schedule url backoff 1 n.
Proof.
  intros Hb url rq n r Hall.
  destruct (get_attempts_pass E url params backoff Hb n 0 1 None w)
    as (w' & evs & Hg & Hr & Ht & Hs); [lia | exact Hall |].
  rewrite Nat.add_0_r in Hg.
  subst r. unfold get. fold url n. rewrite Hg. cbn [get_attempts]. fold rq.
  destruct (last_exc_rounds E rq (requests w) n None); unfold raise; cbn [fst snd exhausted];
    rewrite (new_events_app _ _ _ Ht); split; auto.
Qed.

Lemma retryable_passes_on (st : Z) (tx : string) :
  retryable st = true -> passes_on (Response st tx) = true.
Proof.
  intros Hr. unfold passes_on. rewrite Hr. simpl.
  destruct (st =? 200) eqn:H200; [|reflexivity].
  apply Z.eqb_eq in H200. subst st. discriminate.
Qed.

Lemma error_status_passes_on (st : Z) (tx : string) :
  400 <= st < 600 -> passes_on (Response st tx) = true.
Proof.
  intros H. unfold passes_on.
  replace (st =? 200) with false by (symmetry; apply Z.eqb_neq; lia).
  replace (400 <=? st) with true by (symmetry; apply Z.leb_le; lia).
  replace (st <? 600) with true by (symmetry; apply Z.ltb_lt; lia).
  simpl. apply orb_true_r.
Qed.

(** C1. [MoodleClient.get]: when every one of the [max_retries] attempts is
    answered with a retryable status (429, 500, 502, 503, 504), the call
    makes exactly [max_retries] requests, sleeps [backoff * attempt] seconds
    after attempt number [attempt], and then raises (the RuntimeError that
    stands for the exhausted retries). When an attempt is answered with
    200 (the attempts before it having failed in any way), its response is
    returned and nothing follows that request. *)
Theorem get_retries_then_fails
        (E : env) (self : MoodleClient) (path : string)
        (params : list (string * pyval)) (max_retries : Z) (backoff : Q) (w : world) :
  (0 <= backoff)%Q ->
  let url := url_of self path in
  let rq := get_request url params in
  let n := Z.to_nat max_retries in
  let r := get E self path params max_retries backoff w in
  ((forall k, (k < n)%nat ->
              exists st tx, http E (requests w + k) rq = Response st tx /\ retryable st = true) ->
   fst r = Raise (RuntimeError "Request failed without exception") /\
   map shape_of (new_events w (snd r)) = retry_schedule url backoff 1 n /\
   List.length (requested_urls (new_events w (snd r))) = n)
  /\
  (forall k tx,
      (k < n)%nat ->
      (forall i, (i < k)%nat -> passes_on (http E (requests w + i) rq) = true) ->
      http E (requests w + k) rq = Response 200 tx ->
      fst r = Ok (200, tx) /\
      map shape_of (new_events w (snd r))
        = (retry_schedule url backoff 1 k ++ [SRequest GET url])%list).
Proof.
  intros Hb url rq n r. split.
  - intros Hall. subst r n rq url.
    destruct (get_raises_when_exhausted E self path params max_retries backoff w Hb)
      as (Hf & Hs).
    { intros i Hi. destruct (Hall i Hi) as (st & tx & Ho & Hre).
      rewrite Ho. apply retryable_passes_on, Hre. }
    rewrite (last_exc_rounds_retryable E (url_of self path) params _ (requests w) None Hall)
      in Hf.
    repeat split; [exact Hf | exact Hs |].
    eapply requested_urls_schedule. exact Hs.
  - intros k tx Hk Hpass H200. subst r rq n url.
    set (url := url_of self path) in *.
    set (n := Z.to_nat max_retries) in *.
    destruct (get_attempts_pass E url params backoff Hb k (n - k) 1 None w)
      as (w' & evs & Hg & Hr & Ht & Hs); [lia | exact Hpass |].
    replace (k + (n - k))%nat with n in Hg by lia.
    destruct (attempt_once_200 E url params backoff
                (1 + Z.of_nat k)
                (last_exc_rounds E (get_request url params) (requests w) k None) w' tx)
      as (w2 & H2 & Ht2).
    { rewrite Hr. exact H200. }
    unfold get. fold url n. rewrite Hg.
    destruct (n - k)%nat as [|m] eqn:Hm; [lia|].
    cbn [get_attempts]. unfold bind. rewrite H2. unfold ret. cbn [fst snd].
    split; [reflexivity|].
    rewrite Ht in Ht2. rewrite <- app_assoc in Ht2.
    rewrite (new_events_app _ _ _ Ht2).
    rewrite map_app, Hs. reflexivity.
Qed.

(** C2, on the code: a sustained error status that is not in the retry list
    (404, 403, ...) is retried like a retryable one. [raise_for_status]
    raises inside the [try], the handler sleeps and the loop goes on; the
    HTTPError leaves [get] only after [max_retries] requests and sleeps. *)
Theorem get_retries_other_error_status
        (E : env) (self : MoodleClient) (path : string)
        (params : list (string * pyval)) (max_retries : Z) (backoff : Q) (w : world)
        (st : Z) :
  (0 <= backoff)%Q ->
  400 <= st < 600 ->
  retryable st = false ->
  0 < max_retries ->
  let url := url_of self path in
  let rq := get_request url params in
  let n := Z.to_nat max_retries in
  let r := get E self path params max_retries backoff w in
  (forall k, (k < n)%nat -> exists tx, http E (requests w + k) rq = Response st tx) ->
  fst r = Raise (HTTPError st) /\
  map shape_of (new_events w (snd r)) = retry_schedule url backoff 1 n.
Proof.
  intros Hb Hst Hnr Hm url rq n r Hall. subst r n rq url.
  destruct (get_raises_when_exhausted E self path params max_retries backoff w Hb)
    as (Hf & Hs).
  { intros i Hi. destruct (Hall i Hi) as (tx & Ho).
    rewrite Ho. apply error_status_passes_on, Hst. }
  split; [|exact Hs].
  assert (Hn : exists k, Z.to_nat max_retries = S k).
  { exists (Nat.pred (Z.to_nat max_retries)). lia. }
  destruct Hn as (k & Hn).
  rewrite Hf, Hn, (last_exc_rounds_status E (url_of self path) params st k); auto.
  intros i Hi. apply Hall. lia.
Qed.

Lemma get_retries_then_fails_witness :
  (fst (get (Scenario.always 503) Scenario.client0 "/my/" [] 3 (8 # 10) Scenario.w0)
     = Raise (RuntimeError "Request failed without exception") /\
   map shape_of
       (new_events Scenario.w0
          (snd (get (Scenario.always 503) Scenario.client0 "/my/" [] 3 (8 # 10) Scenario.w0)))
     = [SRequest GET "https://moodle.example/my/"; SSleep ((8 # 10) * inject_Z 1);
        SRequest GET "https://moodle.example/my/"; SSleep ((8 # 10) * inject_Z 2);
        SRequest GET "https://moodle.example/my/"; SSleep ((8 # 10) * inject_Z 3)] /\
   List.length
       (requested_urls
          (new_events Scenario.w0
             (snd (get (Scenario.always 503) Scenario.client0 "/my/" [] 3 (8 # 10) Scenario.w0))))
     = 3%nat)
  /\
  (fst (get (Scenario.recovers_after 2) Scenario.client0 "/my/" [] 3 (8 # 10) Scenario.w0)
     = Ok (200, "<html>") /\
   map shape_of
       (new_events Scenario.w0
          (snd (get (Scenario.recovers_after 2) Scenario.client0 "/my/" [] 3 (8 # 10)
                    Scenario.w0)))
     = [SRequest GET "https://moodle.example/my/"; SSleep ((8 # 10) * inject_Z 1);
        SRequest GET "https://moodle.example/my/"; SSleep ((8 # 10) * inject_Z 2);
        SRequest GET "https://moodle.example/my/"]).
Proof.
  assert (Hb : (0 <= 8 # 10)%Q) by (unfold Qle; simpl; lia).
  split.
  - apply (proj1 (get_retries_then_fails (Scenario.always 503) Scenario.client0
                    "/my/" [] 3 (8 # 10) Scenario.w0 Hb)).
    intros k _. exists 503, EmptyString. split; reflexivity.
  - apply (proj2 (get_retries_then_fails (Scenario.recovers_after 2) Scenario.client0
                    "/my/" [] 3 (8 # 10) Scenario.w0 Hb) 2%nat "<html>").
    + simpl. lia.
    + intros i Hi.
      destruct i as [|[|i]]; [reflexivity | reflexivity | lia].
    + reflexivity.
Defined.

Lemma get_retries_other_error_status_witness :
  fst (get (Scenario.always 404) Scenario.client0 "/mod/fsresource/view.php?id=9" []
           3 (8 # 10) Scenario.w0)
    = Raise (HTTPError 404) /\
  map shape_of
      (new_events Scenario.w0
         (snd (get (Scenario.always 404) Scenario.client0 "/mod/fsresource/view.php?id=9" []
                   3 (8 # 10) Scenario.w0)))
    = [SRequest GET "https://moodle.example/mod/fsresource/view.php?id=9";
       SSleep ((8 # 10) * inject_Z 1);
       SRequest GET "https://moodle.example/mod/fsresource/view.php?id=9";
       SSleep ((8 # 10) * inject_Z 2);
       SRequest GET "https://moodle.example/mod/fsresource/view.php?id=9";
       SSleep ((8 # 10) * inject_Z 3)].
Proof.
  apply (get_retries_other_error_status (Scenario.always 404) Scenario.client0
           "/mod/fsresource/view.php?id=9" [] 3 (8 # 10) Scenario.w0 404).
  - unfold Qle; simpl; lia.
  - lia.
  - reflexivity.
  - lia.
  - intros k _. exists EmptyString. reflexivity.
Defined.

(** ** Rules for [follows] *)

Section FollowsRules.
Context {S : Type} (R : S -> S -> Prop).
Hypothesis R_refl : forall s, R s s.
Hypothesis R_trans : forall s1 s2 s3, R s1 s2 -> R s2 s3 -> R s1 s3.

Lemma follows_ret {A} (a : A) : follows R (ret a).
Proof. intros s. apply R_refl. Qed.

Lemma follows_raise {A} (e : exn) : follows R (@raise S A e).
Proof. intros s. apply R_refl. Qed.

Lemma follows_lift {A} (r : result A) : follows R (lift r).
Proof. intros s. apply R_refl. Qed.

Lemma follows_get_state : follows R (@get_state S).
Proof. intros s. apply R_refl. Qed.

Lemma follows_bind {A B} (m : ST S A) (k : A -> ST S B) :
  follows R m -> (forall a, follows R (k a)) -> follows R (bind m k).
Proof.
  intros Hm Hk s. unfold bind. specialize (Hm s).
  destruct (m s) as [[a | e] s1]; cbn [snd] in *.
  - eapply R_trans; [exact Hm | apply Hk].
  - exact Hm.
Qed.

Lemma follows_try {A} (m : ST S A) (h : exn -> ST S A) :
  follows R m -> (forall e, follows R (h e)) -> follows R (try_except m h).
Proof.
  intros Hm Hh s. unfold try_except. specialize (Hm s).
  destruct (m s) as [[a | e] s1]; cbn [snd] in *.
  - exact Hm.
  - eapply R_trans; [exact Hm | apply Hh].
Qed.
End FollowsRules.

Lemma keeps_refl {S} (I : S -> Prop) (s : S) : keeps I s s.
Proof. intros H; exact H. Qed.

Lemma keeps_trans {S} (I : S -> Prop) (s1 s2 s3 : S) :
  keeps I s1 s2 -> keeps I s2 s3 -> keeps I s1 s3.
Proof. unfold keeps; auto. Qed.

(** ** Worlds only move forward *)

Lemma within_weaken (w1 w2 w3 w4 : world) (ev : event) :
  (clock w1 <= clock w2)%Q -> (clock w3 <= clock w4)%Q ->
  within w2 w3 ev -> within w1 w4 ev.
Proof. unfold within. intros H1 H2 [Ha Hb]. split; lra. Qed.

Lemma reaches_refl (w : world) : reaches w [] w.
Proof.
  unfold reaches. rewrite app_nil_r. repeat split; [lra | constructor].
Qed.

Lemma reaches_trans (w1 w2 w3 : world) (e1 e2 : list event) :
  reaches w1 e1 w2 -> reaches w2 e2 w3 -> reaches w1 (e1 ++ e2) w3.
Proof.
  intros (Ht1 & Hc1 & Hf1) (Ht2 & Hc2 & Hf2). repeat split.
  - rewrite Ht2, Ht1, app_assoc. reflexivity.
  - lra.
  - apply Forall_app; split.
    + eapply Forall_impl; [|exact Hf1]. intros ev. apply within_weaken; lra.
    + eapply Forall_impl; [|exact Hf2]. intros ev. apply within_weaken; lra.
Qed.

Lemma post_times_app (e1 e2 : list event) :
  post_times (e1 ++ e2) = (post_times e1 ++ post_times e2)%list.
Proof. unfold post_times. apply flat_map_app. Qed.

Lemma later_refl (w : world) : later w w.
Proof. exists []. apply reaches_refl. Qed.

Lemma later_trans (w1 w2 w3 : world) : later w1 w2 -> later w2 w3 -> later w1 w3.
Proof.
  intros (e1 & H1) (e2 & H2). exists (e1 ++ e2)%list. eapply reaches_trans; eauto.
Qed.

Lemma later_without_post_refl (w : world) : later_without_post w w.
Proof. exists []. split; [apply reaches_refl | reflexivity]. Qed.

Lemma later_without_post_trans (w1 w2 w3 : world) :
  later_without_post w1 w2 -> later_without_post w2 w3 -> later_without_post w1 w3.
Proof.
  intros (e1 & H1 & P1) (e2 & H2 & P2). exists (e1 ++ e2)%list. split.
  - eapply reaches_trans; eauto.
  - rewrite post_times_app, P1, P2. reflexivity.
Qed.

Lemma without_post_later (w w' : world) : later_without_post w w' -> later w w'.
Proof. intros (e & H & _). exists e. exact H. Qed.

Lemma without_post_one_post (w w' : world) : later_without_post w w' -> later_one_post w w'.
Proof. intros (e & H & P). exists e. split; [exact H|]. rewrite P. simpl. lia. Qed.

Lemma one_post_later (w w' : world) : later_one_post w w' -> later w w'.
Proof. intros (e & H & _). exists e. exact H. Qed.

(** A step of a quiet computation, then one with at most one POST. *)
Lemma without_post_then_one_post (w1 w2 w3 : world) :
  later_without_post w1 w2 -> later_one_post w2 w3 -> later_one_post w1 w3.
Proof.
  intros (e1 & H1 & P1) (e2 & H2 & P2). exists (e1 ++ e2)%list. split.
  - eapply reaches_trans; eauto.
  - rewrite post_times_app, P1. exact P2.
Qed.

Lemma one_post_then_without_post (w1 w2 w3 : world) :
  later_one_post w1 w2 -> later_without_post w2 w3 -> later_one_post w1 w3.
Proof.
  intros (e1 & H1 & P1) (e2 & H2 & P2). exists (e1 ++ e2)%list. split.
  - eapply reaches_trans; eauto.
  - rewrite post_times_app, P2, app_nil_r. exact P1.
Qed.

(** Sequencing two computations that follow different relations. *)
Lemma follows_bind_mixed {S A B} (R1 R2 R3 : S -> S -> Prop)
      (m : ST S A) (k : A -> ST S B) :
  (forall s1 s2 s3, R1 s1 s2 -> R2 s2 s3 -> R3 s1 s3) ->
  (forall s1 s2, R1 s1 s2 -> R3 s1 s2) ->
  follows R1 m -> (forall a, follows R2 (k a)) -> follows R3 (bind m k).
Proof.
  intros Hc Hw Hm Hk s. unfold bind. specialize (Hm s).
  destruct (m s) as [[a | e] s1]; cbn [snd] in *.
  - eapply Hc; [exact Hm | apply Hk].
  - apply Hw, Hm.
Qed.

Ltac quiet_step :=
  first [ apply (follows_bind later_without_post later_without_post_trans)
        | apply (follows_try later_without_post later_without_post_trans)
        | apply (follows_ret later_without_post later_without_post_refl)
        | apply (follows_raise later_without_post later_without_post_refl)
        | apply (follows_lift later_without_post later_without_post_refl) ].

Ltac later_step :=
  first [ apply (follows_bind later later_trans)
        | apply (follows_try later later_trans)
        | apply (follows_ret later later_refl)
        | apply (follows_raise later later_refl)
        | apply (follows_lift later later_refl) ].

Lemma follows_quiet_later {A} (m : M A) :
  follows later_without_post m -> follows later m.
Proof. intros H w. apply without_post_later, H. Qed.

Lemma follows_one_post_later {A} (m : M A) :
  follows later_one_post m -> follows later m.
Proof. intros H w. apply one_post_later, H. Qed.

Section WorldSteps.
Variable E : env.

Lemma time_time_run (w : world) : time_time w = (Ok (clock w), w).
Proof. reflexivity. Qed.

(** What [time.sleep] does. *)
Lemma time_sleep_cases (s : Q) (w : world) :
  (Qltb s 0 = true /\ time_sleep E s w = (Raise ValueError, w)) \/
  (Qltb s 0 = false /\
   exists w', time_sleep E s w = (Ok tt, w') /\
              reaches w [EvSleep (clock w) s] w' /\
              (clock w + s <= clock w')%Q).
Proof.
  unfold time_sleep. destruct (Qltb s 0) eqn:Hs; [left; auto | right].
  split; [reflexivity|]. eexists. split; [reflexivity|].
  apply Qltb_ge in Hs. pose proof (usec_nonneg (oversleep E (sleeps w))) as Ho.
  unfold reaches, within. cbn [trace clock ev_time].
  repeat split; try lra.
  constructor; [cbn [ev_time]; split; lra | constructor].
Qed.

Lemma time_time_quiet : follows later_without_post time_time.
Proof. intros w. apply later_without_post_refl. Qed.

Lemma time_sleep_quiet (s : Q) : follows later_without_post (time_sleep E s).
Proof.
  intros w. destruct (time_sleep_cases s w) as [[_ H] | [_ (w' & H & Hr & _)]];
    rewrite H; cbn [snd].
  - apply later_without_post_refl.
  - eexists. split; [exact Hr | reflexivity].
Qed.

Lemma send_reaches (rq : request) (w : world) :
  reaches w [EvRequest (clock w) rq] (snd (send E rq w)).
Proof.
  unfold send. pose proof (usec_nonneg (latency E (requests w))) as Hl.
  destruct (http E (requests w) rq); cbn [snd];
    unfold reaches, within; cbn [trace clock ev_time];
    (repeat split; try lra; constructor; [cbn [ev_time]; split; lra | constructor]).
Qed.

Lemma send_get_quiet (rq : request) :
  rq_method rq = GET -> follows later_without_post (send E rq).
Proof.
  intros Hm w. eexists. split; [apply send_reaches|].
  cbn. rewrite Hm. reflexivity.
Qed.

Lemma send_one_post (rq : request) : follows later_one_post (send E rq).
Proof.
  intros w. eexists. split; [apply send_reaches|].
  cbn. destruct (rq_method rq); simpl; lia.
Qed.

Lemma random_random_quiet : follows later_without_post (random_random E).
Proof.
  intros w. exists []. split; [|reflexivity].
  unfold random_random, reaches. cbn [snd trace clock].
  rewrite app_nil_r. repeat split; [lra | constructor].
Qed.

Variable self : MoodleClient.

Lemma attempt_once_quiet url params backoff attempt le :
  follows later_without_post (attempt_once E url params backoff attempt le).
Proof.
  unfold attempt_once. quiet_step.
  - quiet_step; [apply send_get_quiet; reflexivity|].
    intros [st tx]. destruct (st =? 200); [quiet_step|].
    destruct (retryable st).
    + quiet_step; [apply time_sleep_quiet | intros; quiet_step].
    + quiet_step; [quiet_step | intros; quiet_step].
  - intros e. quiet_step; [apply time_sleep_quiet | intros; quiet_step].
Qed.

Lemma get_attempts_quiet url params backoff todo :
  forall attempt le,
    follows later_without_post (get_attempts E url params backoff todo attempt le).
Proof.
  induction todo as [|todo IH]; intros attempt le; cbn [get_attempts].
  - destruct le; quiet_step.
  - quiet_step; [apply attempt_once_quiet|].
    intros [st tx | le']; [quiet_step | apply IH].
Qed.

Lemma get_quiet path params max_retries backoff :
  follows later_without_post (get E self path params max_retries backoff).
Proof. apply get_attempts_quiet. Qed.

Lemma get_text_quiet path : follows later_without_post (get_text E self path).
Proof.
  unfold get_text. quiet_step; [apply get_quiet|].
  intros [st tx]. quiet_step.
Qed.

Lemma resolve_sesskey_quiet html_context :
  follows later_without_post (resolve_sesskey E self html_context).
Proof.
  unfold resolve_sesskey.
  match goal with |- context [if ?b then _ else _] => destruct b end.
  - quiet_step.
  - quiet_step; [|intros; quiet_step].
    quiet_step; [apply get_text_quiet | intros; quiet_step].
Qed.

Lemma post_service_one_post payload html_context timestamp :
  follows later_one_post (post_service E self payload html_context timestamp).
Proof.
  unfold post_service.
  eapply follows_bind_mixed;
    [ apply without_post_then_one_post | apply without_post_one_post
    | apply resolve_sesskey_quiet | ].
  intros sk.
  eapply follows_bind_mixed;
    [ apply without_post_then_one_post | apply without_post_one_post | | ].
  { destruct timestamp; [quiet_step|].
    quiet_step; [apply time_time_quiet | intros; quiet_step]. }
  intros ts.
  eapply follows_bind_mixed;
    [ apply one_post_then_without_post | intros; assumption
    | apply send_one_post | ].
  intros [st tx]. quiet_step; [quiet_step | intros; quiet_step].
Qed.

Lemma get_course_module_info_later cmid html_context :
  follows later (get_course_module_info E self cmid html_context).
Proof.
  unfold get_course_module_info. later_step.
  - apply follows_one_post_later, post_service_one_post.
  - intros; later_step.
Qed.
End WorldSteps.

(** ** The polling loop of [WatchVideoJob.run] *)

Lemma reaches_post_times_after (w w' : world) (evs : list event) :
  reaches w evs w' -> Forall (fun t => (clock w <= t)%Q) (post_times evs).
Proof.
  intros (_ & _ & Hf). induction Hf as [|ev evs [Hev _] _ IH]; [constructor|].
  destruct ev as [t rq | t s]; cbn.
  - destruct (rq_method rq); [exact IH | constructor; [exact Hev | exact IH]].
  - exact IH.
Qed.

Lemma reaches_post_times_before (w w' : world) (evs : list event) :
  reaches w evs w' -> Forall (fun t => (t <= clock w')%Q) (post_times evs).
Proof.
  intros (_ & _ & Hf). induction Hf as [|ev evs [_ Hev] _ IH]; [constructor|].
  destruct ev as [t rq | t s]; cbn.
  - destruct (rq_method rq); [exact IH | constructor; [exact Hev | exact IH]].
  - exact IH.
Qed.

Lemma apart_at_most_one (d : Q) (ts : list Q) :
  (List.length ts <= 1)%nat -> apart d ts.
Proof.
  destruct ts as [|t [|t' ts]]; simpl; intros H; try lia.
  - constructor.
  - constructor; constructor.
Qed.

Lemma apart_weaken (d d' : Q) (ts : list Q) :
  (d' <= d)%Q -> apart d ts -> apart d' ts.
Proof.
  intros Hd H. induction H as [|t ts Hf _ IH]; constructor; [|exact IH].
  eapply Forall_impl; [|exact Hf]. cbn. intros t2 Ht. lra.
Qed.

Section VideoRun.
Variable E : env.
Variable client : MoodleClient.
Variable self : WatchVideoJob.t.

Lemma resolve_later page : follows later (WatchVideoJob.resolve E client self page).
Proof.
  unfold WatchVideoJob.resolve.
  repeat (later_step; [later_step | intros]).
  later_step.
  { match goal with |- context [if ?b then _ else _] => destruct b end.
    - later_step; [later_step | intros; later_step].
    - later_step. }
  intros.
  repeat (later_step; [later_step | intros]).
  later_step.
  { match goal with |- context [if ?b then _ else _] => destruct b end.
    - later_step; [later_step | intros; later_step].
    - later_step. }
  intros. later_step; [|intros; later_step].
  match goal with |- context [if ?b then _ else _] => destruct b end.
  - later_step; [later_step | intros].
    later_step; [apply get_course_module_info_later | intros; later_step].
  - later_step.
Qed.

Lemma fill_declared_quiet cx payload elapsed timestamp :
  follows later_without_post
          (WatchVideoJob.fill_declared E cx payload elapsed timestamp).
Proof.
  unfold WatchVideoJob.fill_declared. quiet_step.
  - destruct (WatchVideoJob.target cx) as [tg|]; [|quiet_step].
    destruct (WatchVideoJob.truthy_int (Some tg)); [|quiet_step].
    quiet_step; [quiet_step | intros; quiet_step].
  - intros p1. quiet_step; [apply random_random_quiet | intros; quiet_step].
Qed.

(** The POST of a round: it never raises, and sends at most one POST. *)
Lemma submit_cases cx payload timestamp (w : world) :
  exists c w' evs,
    WatchVideoJob.submit E client cx payload timestamp w = (Ok c, w') /\
    reaches w evs w' /\ (List.length (post_times evs) <= 1)%nat.
Proof.
  unfold WatchVideoJob.submit, try_except, bind.
  destruct (post_service_one_post E client payload
              (Some (WatchVideoJob.html cx)) (Some timestamp) w) as (evs & Hr & Hp).
  destruct (post_service E client payload (Some (WatchVideoJob.html cx))
              (Some timestamp) w) as [[resp | e] w1]; cbn [snd] in *.
  - destruct (is_completed (unwrap_response resp)); unfold ret;
      do 3 eexists; (split; [reflexivity | split; [exact Hr | exact Hp]]).
  - unfold ret. do 3 eexists. split; [reflexivity | split; [exact Hr | exact Hp]].
Qed.

(** One round of the loop: when it asks for another round, a POST it
    sent lies at least the round's sleep before the round's end. *)
Lemma iteration_paced cx start (w : world) :
  let d := inject_Z (WatchVideoJob.sleep_s (WatchVideoJob.interval_seconds self)
                                           (WatchVideoJob.sessiontimeout cx)) in
  exists evs,
    reaches w evs (snd (WatchVideoJob.iteration E client self cx start w)) /\
    match fst (WatchVideoJob.iteration E client self cx start w) with
    | Ok Continue =>
        post_times evs = [] \/
        exists t, post_times evs = [t] /\
                  (t + d <= clock (snd (WatchVideoJob.iteration E client self cx start w)))%Q
    | _ => (List.length (post_times evs) <= 1)%nat
    end.
Proof.
  intros d.
  destruct (WatchVideoJob.iteration E client self cx start w) as [r wf] eqn:Hit.
  cbn [fst snd]. revert Hit. unfold WatchVideoJob.iteration.
  unfold bind at 1. rewrite time_time_run.
  unfold bind at 1. rewrite time_time_run.
  destruct (negb (WatchVideoJob.truthy_template (WatchVideoJob.payload_template self))).
  - unfold bind.
    destruct (time_sleep_cases E (inject_Z (WatchVideoJob.interval_seconds self)) w)
      as [[_ H] | [_ (w' & H & Hr & _)]]; rewrite H; unfold ret;
      intros Hit; injection Hit as <- <-.
    + exists []. split; [apply reaches_refl | simpl; lia].
    + eexists. split; [exact Hr | left; reflexivity].
  - destruct (json_loads _) as [payload | e].
    + unfold bind at 1.
      destruct (fill_declared_quiet cx payload (Qtrunc (clock w - start))
                  (Qtrunc (clock w * 1000)) w) as (ev0 & Hr0 & Hp0).
      destruct (WatchVideoJob.fill_declared E cx payload _ _ w)
        as [[payload' | e] w1]; cbn [snd] in Hr0.
      * unfold bind at 1.
        destruct (submit_cases cx payload' (Qtrunc (clock w * 1000)) w1)
          as (c & w2 & ev1 & Hs & Hr1 & Hp1).
        rewrite Hs.
        pose proof (reaches_trans _ _ _ _ _ Hr0 Hr1) as Hr01.
        assert (Hp01 : post_times (ev0 ++ ev1) = post_times ev1).
        { rewrite post_times_app, Hp0. reflexivity. }
        destruct c as [|o].
        -- unfold bind. fold d.
           destruct (time_sleep_cases E d w2)
             as [[_ H] | [_ (w3 & H & Hr2 & Hc)]]; rewrite H; unfold ret;
             intros Hit; injection Hit as <- <-.
           ++ exists (ev0 ++ ev1)%list. split; [exact Hr01 | rewrite Hp01; exact Hp1].
           ++ exists ((ev0 ++ ev1) ++ [EvSleep (clock w2) d])%list.
              split; [eapply reaches_trans; eauto|].
              rewrite post_times_app, Hp01. cbn [post_times flat_map]. rewrite app_nil_r.
              pose proof (reaches_post_times_before _ _ _ Hr1) as Hb.
              destruct (post_times ev1) as [|t [|t' ts]];
                [left; reflexivity | | simpl in Hp1; lia].
              right. exists t. split; [reflexivity|].
              inversion Hb; subst. lra.
        -- unfold ret. intros Hit; injection Hit as <- <-.
           exists (ev0 ++ ev1)%list.
           split; [exact Hr01 | rewrite Hp01; exact Hp1].
      * intros Hit; injection Hit as <- <-.
        exists ev0. split; [exact Hr0 | rewrite Hp0; simpl; lia].
    + unfold ret. intros Hit; injection Hit as <- <-.
      exists []. split; [apply reaches_refl | simpl; lia].
Qed.

(** Any two POSTs of the loop are at least the round's sleep apart. *)
Lemma loop_paced cx start end_ (fuel : nat) :
  forall w,
    exists evs,
      reaches w evs (snd (WatchVideoJob.loop E client self fuel cx start end_ w)) /\
      apart (inject_Z (WatchVideoJob.sleep_s (WatchVideoJob.interval_seconds self)
                                             (WatchVideoJob.sessiontimeout cx)))
            (post_times evs).
Proof.
  induction fuel as [|fuel IH]; intros w; cbn [WatchVideoJob.loop].
  - exists []. split; [apply reaches_refl | constructor].
  - unfold bind at 1. rewrite time_time_run.
    destruct (Qltb (clock w) end_).
    + unfold bind.
      destruct (iteration_paced cx start w) as (ev1 & Hr1 & Hc1).
      destruct (WatchVideoJob.iteration E client self cx start w)
        as [[[|o] | e] w1]; cbn [fst snd] in *.
      * destruct (IH w1) as (ev2 & Hr2 & Ha2).
        exists (ev1 ++ ev2)%list. split; [eapply reaches_trans; eauto|].
        rewrite post_times_app.
        destruct Hc1 as [Hn | (t & Ht & Hd)].
        -- rewrite Hn. exact Ha2.
        -- rewrite Ht. cbn [app]. constructor; [|exact Ha2].
           pose proof (reaches_post_times_after _ _ _ Hr2) as Hafter.
           eapply Forall_impl; [|exact Hafter]. cbn. intros t2 Ht2. lra.
      * exists ev1. split; [exact Hr1 | apply apart_at_most_one, Hc1].
      * exists ev1. split; [exact Hr1 | apply apart_at_most_one, Hc1].
    + cbn [snd ret]. exists []. split; [apply reaches_refl | constructor].
Qed.

Lemma loop_later cx start end_ fuel :
  follows later (WatchVideoJob.loop E client self fuel cx start end_).
Proof.
  intros w. destruct (loop_paced cx start end_ fuel w) as (evs & Hr & _).
  exists evs. exact Hr.
Qed.

Lemma run_later fuel : follows later (WatchVideoJob.run E client self fuel).
Proof.
  unfold WatchVideoJob.run. later_step.
  - apply follows_quiet_later, get_text_quiet.
  - intros page. later_step; [apply resolve_later|].
    intros cx. destruct (negb (py_truthy E (WatchVideoJob.sesskey cx))); [later_step|].
    later_step; [apply follows_quiet_later, time_time_quiet|].
    intros start. apply loop_later.
Qed.
End VideoRun.

Lemma min_gap_le_sleep_s (interval : Z) (sessiontimeout : option Z) :
  min_gap interval sessiontimeout <= WatchVideoJob.sleep_s interval sessiontimeout.
Proof.
  unfold min_gap, WatchVideoJob.sleep_s. destruct sessiontimeout as [st|]; [|lia].
  destruct (WatchVideoJob.truthy_int (Some st) && (st <? interval)); lia.
Qed.

(** ** The batch over the incomplete videos of a course *)

Lemma starts_with_send (E : env) (rq : request) : starts_with rq (send E rq).
Proof.
  intros w. exists []. destruct (send_reaches E rq w) as (Ht & _). exact Ht.
Qed.

Lemma starts_with_bind (rq : request) {A B} (m : M A) (k : A -> M B) :
  starts_with rq m -> (forall a, follows later (k a)) -> starts_with rq (bind m k).
Proof.
  intros Hm Hk w. destruct (Hm w) as (evs & Ht). unfold bind.
  destruct (m w) as [[a | e] w1]; cbn [snd] in *.
  - destruct (Hk a w1) as (ev2 & Ht2 & _). exists (evs ++ ev2)%list.
    rewrite Ht2, Ht, <- app_assoc. reflexivity.
  - exists evs. exact Ht.
Qed.

Lemma starts_with_try (rq : request) {A} (m : M A) (h : exn -> M A) :
  starts_with rq m -> (forall e, follows later (h e)) -> starts_with rq (try_except m h).
Proof.
  intros Hm Hh w. destruct (Hm w) as (evs & Ht). unfold try_except.
  destruct (m w) as [[a | e] w1]; cbn [snd] in *.
  - exists evs. exact Ht.
  - destruct (Hh e w1) as (ev2 & Ht2 & _). exists (evs ++ ev2)%list.
    rewrite Ht2, Ht, <- app_assoc. reflexivity.
Qed.

Section Batch.
Variable E : env.
Variable client : MoodleClient.

Lemma get_text_starts path :
  starts_with (get_request (url_of client path) []) (get_text E client path).
Proof.
  unfold get_text. apply starts_with_bind; [|intros [st tx]; later_step].
  unfold get. cbn [Z.to_nat Pos.to_nat Pos.iter_op Nat.add get_attempts].
  apply starts_with_bind.
  - unfold attempt_once. apply starts_with_try.
    + apply starts_with_bind; [apply starts_with_send|].
      intros [st tx]. destruct (st =? 200); [later_step|].
      destruct (retryable st).
      * later_step; [apply follows_quiet_later, time_sleep_quiet | intros; later_step].
      * later_step; [later_step | intros; later_step].
    + intros e. later_step; [apply follows_quiet_later, time_sleep_quiet | intros; later_step].
  - intros [st tx | le]; [later_step|].
    apply follows_quiet_later, get_attempts_quiet.
Qed.

Lemma run_starts (job : WatchVideoJob.t) fuel :
  starts_with (get_request (url_of client (WatchVideoJob.page_path job)) [])
              (WatchVideoJob.run E client job fuel).
Proof.
  unfold WatchVideoJob.run. apply starts_with_bind; [apply get_text_starts|].
  intros page. later_step; [apply resolve_later|].
  intros cx. destruct (negb (py_truthy E (WatchVideoJob.sesskey cx))); [later_step|].
  later_step; [apply follows_quiet_later, time_time_quiet|].
  intros start. apply loop_later.
Qed.

Variable self : WatchCourseIncompleteJob.t.

Lemma watch_items_later fuel items :
  follows later (WatchCourseIncompleteJob.watch_items E client self fuel items).
Proof.
  induction items as [|it rest IH]; cbn [WatchCourseIncompleteJob.watch_items].
  - later_step.
  - later_step; [apply run_later|].
    intros o.
    assert (Hgo : follows later
              (time_sleep E (inject_Z (WatchCourseIncompleteJob.gap_seconds self)) ;;
               outs <- WatchCourseIncompleteJob.watch_items E client self fuel rest ;;
               ret ((vi_id it, o) :: outs))).
    { later_step; [apply follows_quiet_later, time_sleep_quiet|].
      intros _. later_step; [exact IH | intros; later_step]. }
    destruct o; try exact Hgo. later_step.
Qed.
End Batch.

(** C3, as the code has it. After a video's run has returned, however it
    ended (completed, timed out, no sesskey, template not JSON), the batch
    sleeps the gap and requests the page of the next video. An exception
    that leaves a video's run is not caught: it leaves the batch too, and
    nothing more is done. *)
Theorem batch_continues_after_return
        (E : env) (client : MoodleClient) (self : WatchCourseIncompleteJob.t)
        (fuel : nat) (it nxt : VideoItem) (rest : list VideoItem) (w w1 : world) :
  (forall o,
      WatchVideoJob.run E client (WatchCourseIncompleteJob.job_for self it) fuel w = (Ok o, w1) ->
      o <> Unfinished ->
      0 <= WatchCourseIncompleteJob.gap_seconds self ->
      exists t evs,
        trace (snd (WatchCourseIncompleteJob.watch_items E client self fuel
                      (it :: nxt :: rest) w))
          = (trace w1
               ++ EvSleep (clock w1) (inject_Z (WatchCourseIncompleteJob.gap_seconds self))
               :: EvRequest t
                    (get_request
                       (url_of client
                          (WatchVideoJob.page_path (WatchCourseIncompleteJob.job_for self nxt)))
                       [])
               :: evs)%list /\
        (clock w1 + inject_Z (WatchCourseIncompleteJob.gap_seconds self) <= t)%Q)
  /\
  (forall e,
      WatchVideoJob.run E client (WatchCourseIncompleteJob.job_for self it) fuel w = (Raise e, w1) ->
      WatchCourseIncompleteJob.watch_items E client self fuel (it :: nxt :: rest) w
        = (Raise e, w1)).
Proof.
  split.
  - intros o Hrun Ho Hgap.
    assert (Hs : Qltb (inject_Z (WatchCourseIncompleteJob.gap_seconds self)) 0 = false).
    { apply Qltb_ge. rewrite <- (Zle_Qle 0). exact Hgap. }
    destruct (time_sleep_cases E (inject_Z (WatchCourseIncompleteJob.gap_seconds self)) w1)
      as [[Hneg _] | [_ (w2 & Hsl & (Ht2 & _) & Hc2)]]; [congruence|].
    pose proof (starts_with_bind _ _
                  (fun o' =>
                     match o' with
                     | Unfinished => ret [(vi_id nxt, o')]
                     | _ =>
                         time_sleep E (inject_Z (WatchCourseIncompleteJob.gap_seconds self)) ;;
                         outs <- WatchCourseIncompleteJob.watch_items E client self fuel rest ;;
                         ret ((vi_id nxt, o') :: outs)
                     end)
                  (run_starts E client (WatchCourseIncompleteJob.job_for self nxt) fuel)) as Hnext.
    assert (Hk : forall o',
               follows later
                 match o' with
                 | Unfinished => ret [(vi_id nxt, o')]
                 | _ =>
                     time_sleep E (inject_Z (WatchCourseIncompleteJob.gap_seconds self)) ;;
                     outs <- WatchCourseIncompleteJob.watch_items E client self fuel rest ;;
                     ret ((vi_id nxt, o') :: outs)
                 end).
    { intros o'.
      assert (Hgo : follows later
                (time_sleep E (inject_Z (WatchCourseIncompleteJob.gap_seconds self)) ;;
                 outs <- WatchCourseIncompleteJob.watch_items E client self fuel rest ;;
                 ret ((vi_id nxt, o') :: outs))).
      { later_step; [apply follows_quiet_later, time_sleep_quiet|].
        intros _. later_step; [apply watch_items_later | intros; later_step]. }
      destruct o'; try exact Hgo. later_step. }
    destruct (Hnext Hk w2) as (evs & Hev).
    assert (Hnxt : exists evs',
               trace (snd ((outs <- WatchCourseIncompleteJob.watch_items E client self fuel
                                      (nxt :: rest) ;;
                            ret ((vi_id it, o) :: outs)) w2))
               = (trace w2 ++ EvRequest (clock w2)
                     (get_request
                        (url_of client
                           (WatchVideoJob.page_path (WatchCourseIncompleteJob.job_for self nxt)))
                        []) :: evs')%list).
    { apply (starts_with_bind _
               (WatchCourseIncompleteJob.watch_items E client self fuel (nxt :: rest))
               (fun outs => ret ((vi_id it, o) :: outs))).
      - exact (Hnext Hk).
      - intros; later_step. }
    destruct Hnxt as (evs' & Hev').
    exists (clock w2), evs'. split; [|exact Hc2].
    change (WatchCourseIncompleteJob.watch_items E client self fuel (it :: nxt :: rest) w)
      with ((o' <- WatchVideoJob.run E client (WatchCourseIncompleteJob.job_for self it) fuel ;;
             match o' with
             | Unfinished => ret [(vi_id it, o')]
             | _ =>
                 time_sleep E (inject_Z (WatchCourseIncompleteJob.gap_seconds self)) ;;
                 outs <- WatchCourseIncompleteJob.watch_items E client self fuel (nxt :: rest) ;;
                 ret ((vi_id it, o') :: outs)
             end) w).
    unfold bind at 1. rewrite Hrun.
    assert (Hstep : forall k : M (list (Z * outcome)),
               (time_sleep E (inject_Z (WatchCourseIncompleteJob.gap_seconds self)) ;; k) w1
               = k w2).
    { intros k. unfold bind. rewrite Hsl. reflexivity. }
    destruct o; try (rewrite Hstep, Hev', Ht2, <- app_assoc; reflexivity).
    congruence.
  - intros e Hrun.
    cbn [WatchCourseIncompleteJob.watch_items]. unfold bind at 1. rewrite Hrun. reflexivity.
Qed.

(** C3 at a concrete batch: no page has a sesskey, so the first run
    returns before its loop, and the second video is visited. *)
Lemma batch_continues_after_return_witness :
  exists t evs,
    trace (snd (WatchCourseIncompleteJob.watch_items
                  Scenario.no_sesskey_pages Scenario.client0 Scenario.batch0 3
                  Scenario.two_videos
                  Scenario.w0))
      = (trace (snd (WatchVideoJob.run Scenario.no_sesskey_pages Scenario.client0
                       (WatchCourseIncompleteJob.job_for Scenario.batch0
                          (hd (Build_VideoItem 0 "" "" None) Scenario.two_videos))
                       3 Scenario.w0))
           ++ EvSleep (1000 + (250000 # 1000000)) (inject_Z 5)
           :: EvRequest t
                (get_request "https://moodle.example/mod/fsresource/view.php?id=12" [])
           :: evs)%list.
Proof.
  destruct (proj1 (batch_continues_after_return
                     Scenario.no_sesskey_pages Scenario.client0 Scenario.batch0 3
                     (Build_VideoItem 11 "first" "/mod/fsresource/view.php?id=11" (Some true))
                     (Build_VideoItem 12 "second" "/mod/fsresource/view.php?id=12" (Some true))
                     [] Scenario.w0
                     (snd (WatchVideoJob.run Scenario.no_sesskey_pages Scenario.client0
                             (WatchCourseIncompleteJob.job_for Scenario.batch0
                                (hd (Build_VideoItem 0 "" "" None) Scenario.two_videos))
                             3 Scenario.w0)))
                  AbortedNoSesskey)
    as (t & evs & Ht & _).
  - vm_compute. reflexivity.
  - discriminate.
  - vm_compute. discriminate.
  - exists t, evs. exact Ht.
Defined.

(** C3 as stated fails: the page of the first video cannot be fetched, the
    error leaves [WatchVideoJob.run] and the batch, and the second video
    of the list is never requested. *)
Lemma batch_stops_at_failed_fetch :
  fst (WatchCourseIncompleteJob.run Scenario.only_course_page Scenario.client0
         Scenario.batch0 3 Scenario.w0)
    = Raise (TransportError "connection refused") /\
  requested_urls
    (trace (snd (WatchCourseIncompleteJob.run Scenario.only_course_page Scenario.client0
                   Scenario.batch0 3 Scenario.w0)))
    = [ "https://moodle.example/course/view.php?id=2545";
        "https://moodle.example/mod/fsresource/view.php?id=11";
        "https://moodle.example/mod/fsresource/view.php?id=11";
        "https://moodle.example/mod/fsresource/view.php?id=11" ].
Proof. vm_compute. split; reflexivity. Qed.

(** ** Completion *)

(** C8. In a round of the polling loop whose POST is answered, when the
    unwrapped answer is a dict whose completion entry is the string
    "已完成", the loop ends in that round with [Completed]: the world is the
    one the answer arrived in (no sleep, no further request), whatever
    time [end_] is still ahead. *)
Theorem completion_stops_the_loop
        (E : env) (client : MoodleClient) (self : WatchVideoJob.t) (fuel : nat)
        (cx : WatchVideoJob.context) (start end_ : Q) (w w1 w2 : world)
        (template : string) (payload payload' resp_json : pyval) (d : dict) :
  let timestamp := Qtrunc (clock w * 1000) in
  let elapsed := Qtrunc (clock w - start) in
  Qltb (clock w) end_ = true ->
  WatchVideoJob.payload_template self = Some template ->
  nonempty template = true ->
  json_loads (WatchVideoJob.fill_template E self template cx timestamp
                (Z.min elapsed (WatchVideoJob.duration_seconds self))) = Ok payload ->
  WatchVideoJob.fill_declared E cx payload elapsed timestamp w = (Ok payload', w1) ->
  post_service E client payload' (Some (WatchVideoJob.html cx)) (Some timestamp) w1
    = (Ok resp_json, w2) ->
  unwrap_response resp_json = PDict d ->
  dict_get d "completion" = Some (PStr completed_marker) ->
  WatchVideoJob.loop E client self (S fuel) cx start end_ w = (Ok Completed, w2).
Proof.
  intros timestamp elapsed Hlt Htpl Hne Hjson Hfill Hpost Hout Hdone.
  assert (Hc : is_completed (unwrap_response resp_json) = true).
  { rewrite Hout. unfold is_completed, get_or_none. rewrite Hdone.
    apply String.eqb_refl. }
  assert (Hsub : WatchVideoJob.submit E client cx payload' timestamp w1
                 = (Ok (Break Completed), w2)).
  { unfold WatchVideoJob.submit, try_except, bind. rewrite Hpost, Hc. reflexivity. }
  assert (Hit : WatchVideoJob.iteration E client self cx start w
                = (Ok (Break Completed), w2)).
  { unfold WatchVideoJob.iteration.
    unfold bind at 1. rewrite time_time_run.
    unfold bind at 1. rewrite time_time_run.
    unfold WatchVideoJob.truthy_template. rewrite Htpl, Hne. cbn [negb].
    fold timestamp elapsed. rewrite Hjson.
    unfold bind at 1. rewrite Hfill.
    unfold bind at 1. rewrite Hsub. reflexivity. }
  cbn [WatchVideoJob.loop]. unfold bind at 1. rewrite time_time_run, Hlt.
  unfold bind. rewrite Hit. reflexivity.
Qed.

(** C8 at the answer of the scenario, 300 seconds before the deadline. *)
Lemma completion_stops_the_loop_witness :
  exists w2,
    WatchVideoJob.loop Scenario.completing Scenario.client0 Scenario.job0 1
                       Scenario.context0 1000 1300 Scenario.w0
      = (Ok Completed, w2) /\
    map shape_of (trace w2) = [SRequest POST "https://moodle.example/lib/ajax/service.php"].
Proof.
  eexists. split.
  - eapply (completion_stops_the_loop Scenario.completing Scenario.client0 Scenario.job0 0
              Scenario.context0 1000 1300 Scenario.w0 _ _ Scenario.template0).
    + reflexivity.
    + reflexivity.
    + reflexivity.
    + cbv. reflexivity.
    + cbv. reflexivity.
    + cbv. reflexivity.
    + cbv. reflexivity.
    + reflexivity.
  - reflexivity.
Defined.

(** ** Dictionaries *)

Lemma dict_get_set_same (d : dict) (k : string) (v : pyval) :
  dict_get (dict_set d k v) k = Some v.
Proof.
  induction d as [|[k' v'] d IH]; cbn [dict_set dict_get].
  - rewrite String.eqb_refl. reflexivity.
  - destruct (String.eqb k k') eqn:Hk; cbn [dict_get]; rewrite Hk; [reflexivity | exact IH].
Qed.

Lemma dict_get_set_other (d : dict) (k k' : string) (v : pyval) :
  k' <> k -> dict_get (dict_set d k v) k' = dict_get d k'.
Proof.
  intros Hne. induction d as [|[k0 v0] d IH]; cbn [dict_set dict_get].
  - replace (String.eqb k' k) with false by (symmetry; apply String.eqb_neq; exact Hne).
    reflexivity.
  - destruct (String.eqb k k0) eqn:Hk; cbn [dict_get].
    + apply String.eqb_eq in Hk. subst k0.
      replace (String.eqb k' k) with false by (symmetry; apply String.eqb_neq; exact Hne).
      reflexivity.
    + rewrite IH. reflexivity.
Qed.


Lemma dict_keys_set (d : dict) (k : string) (v : pyval) :
  dict_mem k d = true -> dict_keys (dict_set d k v) = dict_keys d.
Proof.
  unfold dict_mem, dict_keys.
  induction d as [|[k0 v0] d IH]; cbn [dict_set dict_get map fst]; [discriminate|].
  destruct (String.eqb k k0) eqn:Hk; cbn [map fst]; [reflexivity|].
  intros H. rewrite IH; [reflexivity | exact H].
Qed.


(** ** Writing only what the template declares *)










(** ** What the POST of a round carries *)














(** ** The extractors never raise *)

Section NeverRaises.
Context {S : Type}.

Lemma never_raises_ret {A} (a : A) : never_raises (@ret S A a).
Proof. intros s. exists a. reflexivity. Qed.

Lemma never_raises_modify (f : S -> S) : never_raises (modify f).
Proof. intros s. exists tt. reflexivity. Qed.

Lemma never_raises_bind {A B} (m : ST S A) (k : A -> ST S B) :
  never_raises m -> (forall a, never_raises (k a)) -> never_raises (bind m k).
Proof.
  intros Hm Hk s. unfold bind. destruct (Hm s) as (a & Ha).
  destruct (m s) as [[a' | e] s1]; cbn [fst] in Ha; [|discriminate].
  apply Hk.
Qed.

(** A handler that never raises makes the whole [try] safe. *)
Lemma never_raises_try {A} (m : ST S A) (h : exn -> ST S A) :
  (forall e, never_raises (h e)) -> never_raises (try_except m h).
Proof.
  intros Hh s. unfold try_except.
  destruct (m s) as [[a | e] s1]; [exists a; reflexivity | apply Hh].
Qed.

Lemma returns_state_get : returns_state (@get_state S).
Proof. intros s. reflexivity. Qed.

Lemma returns_state_bind {A} (m : ST S A) (k : A -> ST S S) :
  never_raises m -> (forall a, returns_state (k a)) -> returns_state (bind m k).
Proof.
  intros Hm Hk s. unfold bind. destruct (Hm s) as (a & Ha).
  destruct (m s) as [[a' | e] s1]; cbn [fst] in Ha; [|discriminate].
  apply Hk.
Qed.
End NeverRaises.

Lemma first_int_never_raises (key : string) (pats : list regex) (html : string) :
  never_raises (first_int key pats html).
Proof.
  induction pats as [|pat rest IH]; cbn [first_int]; [apply never_raises_ret|].
  destruct (search pat html) as [m|]; [|exact IH].
  apply never_raises_bind.
  - apply never_raises_try. intros e. apply never_raises_ret.
  - intros [|]; [apply never_raises_ret | exact IH].
Qed.

Lemma dict_mem_keys (d : dict) (k : string) :
  In k (dict_keys d) -> dict_mem k d = true.
Proof.
  unfold dict_mem, dict_keys. induction d as [|[k0 v0] d IH]; cbn [map fst In dict_get].
  - intros [].
  - intros [-> | H].
    + rewrite String.eqb_refl. reflexivity.
    + destruct (String.eqb k k0); [reflexivity | apply IH, H].
Qed.

(** Writing one of the four entries of [info] keeps its shape, when a
    value written to duration is an int. *)
Lemma set_info_keeps (k : string) (v : pyval) :
  In k (dict_keys info0) ->
  (k = "duration" -> none_or_int v) ->
  follows (keeps info_shape) (set_info k v).
Proof.
  intros Hin Hv info [Hkeys Hdur]. unfold set_info, modify. cbn [snd]. split.
  - rewrite dict_keys_set; [exact Hkeys|]. apply dict_mem_keys. rewrite Hkeys. exact Hin.
  - unfold get_or_none in *. destruct (string_dec k "duration") as [-> | Hne].
    + rewrite dict_get_set_same. apply Hv. reflexivity.
    + rewrite dict_get_set_other by congruence. exact Hdur.
Qed.

Ltac shape_step :=
  first [ apply (follows_bind (keeps info_shape) (keeps_trans info_shape))
        | apply (follows_try (keeps info_shape) (keeps_trans info_shape))
        | apply (follows_ret (keeps info_shape) (keeps_refl info_shape))
        | apply (follows_lift (keeps info_shape) (keeps_refl info_shape))
        | apply (follows_get_state (keeps info_shape) (keeps_refl info_shape)) ].

Ltac shape_set :=
  apply set_info_keeps; [cbn; tauto | intros; first [discriminate | right; eexists; reflexivity]].

Lemma read_playerdata_keeps (raw : string) : follows (keeps info_shape) (read_playerdata raw).
Proof.
  unfold read_playerdata.
  shape_step; [shape_step | intros pdata].
  shape_step; [shape_step | intros fsid].
  shape_step.
  - destruct fsid; try shape_step; try shape_set.
    destruct (isdigit s); [|shape_step].
    shape_step; [shape_step | intros; shape_set].
  - intros _. shape_step; [shape_step | intros sk].
    destruct sk; try shape_step. destruct (nonempty s); [shape_set | shape_step].
Qed.

Lemma first_int_keeps (key : string) (pats : list regex) (html : string) :
  In key (dict_keys info0) -> follows (keeps info_shape) (first_int key pats html).
Proof.
  intros Hin. induction pats as [|pat rest IH]; cbn [first_int]; [shape_step|].
  destruct (search pat html) as [m|]; [|exact IH].
  shape_step.
  - shape_step; [|intros; shape_step].
    shape_step; [shape_step | intros z].
    shape_step; [|intros; shape_step].
    apply set_info_keeps; [exact Hin | intros; right; eexists; reflexivity].
  - intros [|]; [shape_step | exact IH].
Qed.

Lemma info0_shape : info_shape info0.
Proof. split; [reflexivity | left; reflexivity]. Qed.

(** [extract_fsresource_info] returns its dict of four entries. *)
Lemma extract_fsresource_info_total (html : string) :
  exists info, extract_fsresource_info html = Ok info /\ info_shape info.
Proof.
  unfold extract_fsresource_info.
  exists (snd (extract_fsresource_info_steps html info0)). split.
  - assert (Hr : returns_state (extract_fsresource_info_steps html)); [|apply Hr].
    unfold extract_fsresource_info_steps.
    apply returns_state_bind.
    { destruct (search_playerdata html); [|apply never_raises_ret].
      apply never_raises_try. intros; apply never_raises_ret. }
    intros _. apply returns_state_bind; [apply first_int_never_raises|].
    intros _. apply returns_state_bind; [apply first_int_never_raises|].
    intros _. apply returns_state_bind; [|intros; apply returns_state_get].
    destruct (search pat_h2 html); [apply never_raises_modify | apply never_raises_ret].
  - assert (H : follows (keeps info_shape) (extract_fsresource_info_steps html)).
    { unfold extract_fsresource_info_steps.
      shape_step.
      { destruct (search_playerdata html); [|shape_step].
        shape_step; [apply read_playerdata_keeps | intros; shape_step]. }
      intros _. shape_step; [apply first_int_keeps; cbn; tauto|].
      intros _. shape_step; [apply first_int_keeps; cbn; tauto|].
      intros _. shape_step; [|intros; shape_step].
      destruct (search pat_h2 html); [shape_set | shape_step]. }
    apply H, info0_shape.
Qed.

(** ** The object that [parse_m_cfg] parses starts with a brace *)

Lemma strip_prefix_length (p s s' : string) :
  strip_prefix p s = Some s' -> (String.length s' <= String.length s)%nat.
Proof.
  revert s. induction p as [|a p IH]; intros s H; cbn [strip_prefix] in H.
  - injection H as <-. lia.
  - destruct s as [|b s]; [discriminate|].
    destruct (Ascii.eqb a b); [|discriminate].
    apply IH in H. cbn [String.length]. lia.
Qed.

Section Groupless.
Context {R : Type}.

(** A loop over a step that leaves the groups alone leaves them alone. *)
Lemma iterate_groupless (step : string -> caps -> @cont R -> option R) (greedy : bool) :
  (forall s g k x, step s g k = Some x ->
                   exists s', k s' g = Some x /\ (String.length s' <= String.length s)%nat) ->
  forall fuel s g k x,
    iterate step greedy fuel s g k = Some x ->
    exists s', k s' g = Some x /\ (String.length s' <= String.length s)%nat.
Proof.
  intros Hstep. induction fuel as [|fuel IH]; intros s g k x H; cbn [iterate] in H.
  - exists s. split; [exact H | lia].
  - assert (Hmore : forall y,
               step s g (fun s' g' =>
                           if (String.length s' <? String.length s)%nat
                           then iterate step greedy fuel s' g' k else None) = Some y ->
               exists s', k s' g = Some y /\ (String.length s' <= String.length s)%nat).
    { intros y Hy. apply Hstep in Hy. destruct Hy as (s1 & Hy & Hl).
      destruct (String.length s1 <? String.length s)%nat; [|discriminate].
      apply IH in Hy. destruct Hy as (s' & Hk & Hl'). exists s'. split; [exact Hk | lia]. }
    destruct greedy.
    + destruct (step s g _) as [y|] eqn:Hy.
      * injection H as <-. apply Hmore. reflexivity.
      * exists s. split; [exact H | lia].
    + destruct (k s g) as [y|] eqn:Hy.
      * injection H as <-. exists s. split; [exact Hy | lia].
      * apply Hmore. exact H.
Qed.

(** Matching a regular expression without groups calls the continuation
    with the groups it was given, on a suffix of the text. *)
Lemma rmatch_groupless (r : regex) :
  groupless r = true ->
  forall s g (k : @cont R) x,
    rmatch r s g k = Some x ->
    exists s', k s' g = Some x /\ (String.length s' <= String.length s)%nat.
Proof.
  induction r as [lit | neg items | dotall | r1 IH1 r2 IH2 | greedy r1 IH1
                  | greedy r1 IH1 | greedy r1 IH1 | n r1 IH1];
    intros Hg s g k x H; cbn [groupless] in Hg; cbn [rmatch] in H.
  - destruct (strip_prefix lit s) as [s'|] eqn:Hp; [|discriminate].
    exists s'. split; [exact H | eapply strip_prefix_length; eauto].
  - destruct s as [|c s']; [discriminate|].
    destruct (xorb neg (existsb (in_cset c) items)); [|discriminate].
    exists s'. split; [exact H | cbn; lia].
  - destruct s as [|c s']; [discriminate|].
    destruct (dotall || negb (Ascii.eqb c "010")); [|discriminate].
    exists s'. split; [exact H | cbn; lia].
  - apply andb_prop in Hg. destruct Hg as [Hg1 Hg2].
    apply (IH1 Hg1) in H. destruct H as (s1 & H & Hl1).
    apply (IH2 Hg2) in H. destruct H as (s2 & H & Hl2).
    exists s2. split; [exact H | lia].
  - eapply iterate_groupless; [|exact H]. intros; eapply IH1; eauto.
  - apply (IH1 Hg) in H. destruct H as (s1 & H & Hl1).
    eapply iterate_groupless in H; [|intros; eapply IH1; eauto].
    destruct H as (s2 & H & Hl2). exists s2. split; [exact H | lia].
  - destruct greedy.
    + destruct (rmatch r1 s g k) as [y|] eqn:Hy.
      * injection H as <-. eapply IH1; eauto.
      * exists s. split; [exact H | lia].
    + destruct (k s g) as [y|] eqn:Hy.
      * injection H as <-. exists s. split; [exact Hy | lia].
      * eapply IH1; eauto.
  - discriminate.
Qed.

Lemma groupless_seq (rs : list regex) :
  forallb groupless rs = true -> groupless (seq rs) = true.
Proof.
  induction rs as [|r rs IH]; cbn [forallb seq fold_right groupless]; [reflexivity|].
  intros H. apply andb_prop in H. destruct H as [H1 H2].
  fold (seq rs). rewrite H1, (IH H2). reflexivity.
Qed.

(** Group 1 of [braces_lazy] is a text that starts with a brace. *)
Lemma rmatch_braces_lazy (s : string) (g : caps) (k : @cont R) (x : R) :
  rmatch braces_lazy s g k = Some x ->
  exists s' t, k s' ((1%nat, String "{" t) :: g) = Some x.
Proof.
  unfold braces_lazy. cbn [rmatch seq fold_right]. intros H.
  destruct s as [|c s1]; cbn [strip_prefix] in H; [discriminate|].
  destruct (Ascii.eqb "{" c) eqn:Hc; [|discriminate].
  apply Ascii.eqb_eq in Hc. subst c.
  change (rmatch (seq [RStar false (RAny true); RLit "}"]) s1 g
            (fun s' g' => k s' ((1%nat, consumed (String "{" s1) s') :: g')) = Some x) in H.
  apply rmatch_groupless in H; [|reflexivity].
  destruct H as (s' & H & Hl).
  exists s'. unfold consumed in H. cbn [String.length] in H.
  rewrite Nat.sub_succ_l in H by exact Hl. cbn [substring] in H.
  eexists. exact H.
Qed.

(** The same for a pattern made of parts without groups around
    [braces_lazy]. *)
Lemma rmatch_around_braces (pre post : list regex) :
  forallb groupless pre = true ->
  forallb groupless post = true ->
  forall s g (k : @cont R) x,
    rmatch (seq (pre ++ braces_lazy :: post)) s g k = Some x ->
    exists s' t, k s' ((1%nat, String "{" t) :: g) = Some x.
Proof.
  intros Hpre Hpost. induction pre as [|r pre IH]; intros s g k x H.
  - cbn [app seq fold_right rmatch] in H. fold (seq post) in H.
    apply rmatch_braces_lazy in H. destruct H as (s1 & t & H).
    apply rmatch_groupless in H; [|apply groupless_seq, Hpost].
    destruct H as (s2 & H & _). exists s2, t. exact H.
  - cbn [forallb] in Hpre. apply andb_prop in Hpre. destruct Hpre as [Hr Hpre].
    cbn [app seq fold_right rmatch] in H. fold (seq (pre ++ braces_lazy :: post)) in H.
    apply (rmatch_groupless r Hr) in H. destruct H as (s1 & H & _).
    eapply IH; eauto.
Qed.
End Groupless.

Lemma search_match_at (r : regex) (s : string) (m : rmatched) :
  search r s = Some m -> exists s0, match_at r s0 = Some m.
Proof.
  induction s as [|c s IH]; cbn [search]; intros H.
  - destruct (match_at r EmptyString) eqn:Hm; [|discriminate].
    injection H as <-. eauto.
  - destruct (match_at r (String c s)) eqn:Hm.
    + injection H as <-. eauto.
    + apply IH, H.
Qed.

Lemma search_around_braces (pre post : list regex) (s : string) (m : rmatched) :
  forallb groupless pre = true ->
  forallb groupless post = true ->
  search (seq (pre ++ braces_lazy :: post)) s = Some m ->
  exists t, group m 1 = String "{" t.
Proof.
  intros Hpre Hpost H. apply search_match_at in H. destruct H as (s0 & H).
  unfold match_at in H. apply (rmatch_around_braces pre post Hpre Hpost) in H.
  destruct H as (s' & t & H). injection H as <-. exists t. reflexivity.
Qed.

Lemma search_m_cfg_brace (html : string) (m : rmatched) :
  search_m_cfg html = Some m -> exists t, group m 1 = String "{" t.
Proof.
  unfold search_m_cfg.
  destruct (search pat_mcfg_assign html) as [m1|] eqn:H1.
  - intros H. injection H as <-.
    apply (search_around_braces [RLit "M.cfg"; ws_star; RLit "="; ws_star]
                                [ws_star; RLit ";"] html m1); auto.
  - intros H.
    apply (search_around_braces [RLit "cfg"; ws_star; RLit ":"; ws_star] [] html m); auto.
Qed.

(** A JSON text that starts with a brace is an object. *)
Lemma json_members_dict (fuel : nat) :
  forall s pairs v r, json_members fuel s pairs = Ok (v, r) -> exists d, v = PDict d.
Proof.
  induction fuel as [|fuel IH]; intros s pairs v r H; cbn [json_members] in H; [discriminate|].
  destruct s as [|c s']; [discriminate|].
  destruct (Ascii.eqb c dq); [|discriminate].
  unfold rbind in H.
  destruct (scanstring _ s') as [[key r0] | e]; [|discriminate].
  destruct (expect ":" (skip_ws r0)) as [r1|]; [|discriminate].
  destruct (scan_once fuel (skip_ws r1)) as [[v1 r2] | e]; [|discriminate].
  destruct (expect "}" (skip_ws r2)) as [r3|].
  - injection H as <- <-. eauto.
  - destruct (expect "," (skip_ws r2)) as [r3|]; [|discriminate].
    eapply IH; eauto.
Qed.

Lemma json_loads_brace (t : string) (v : pyval) :
  json_loads (String "{" t) = Ok v -> exists d, v = PDict d.
Proof.
  unfold json_loads, rbind.
  change (skip_ws (String "{" t)) with (String "{" t).
  destruct (scan_once _ _) as [[v0 rest] | e] eqn:Hs; [|discriminate].
  intros H. destruct (skip_ws rest); [|discriminate]. injection H as <-.
  cbn [scan_once] in Hs.
  change (Ascii.eqb "{" dq) with false in Hs.
  change (Ascii.eqb "{" "{") with true in Hs. cbv iota in Hs.
  destruct (expect "}" (skip_ws t)) as [r|].
  - injection Hs as <- _. eauto.
  - eapply json_members_dict; eauto.
Qed.

(** [parse_m_cfg] returns a dict. *)
Lemma parse_m_cfg_dict (html : string) : exists d, parse_m_cfg html = Ok (PDict d).
Proof.
  unfold parse_m_cfg. destruct (search_m_cfg html) as [m|] eqn:Hm; [|eauto].
  destruct (search_m_cfg_brace html m Hm) as (t & Ht). rewrite Ht.
  change (strip_trailing_commas (String "{" t))
    with (String "{" (sub_from pat_trailing_comma (fun m => group m 1) t 0)).
  change (single_to_double (String "{" t))
    with (String "{" (replace_from (str1 sq) (str1 dq) t 0)).
  change (strip_trailing_commas (String "{" (replace_from (str1 sq) (str1 dq) t 0)))
    with (String "{" (sub_from pat_trailing_comma (fun m => group m 1)
                               (replace_from (str1 sq) (str1 dq) t 0) 0)).
  set (first_pass := sub_from pat_trailing_comma (fun m => group m 1) t 0).
  set (second_pass := sub_from pat_trailing_comma (fun m => group m 1)
                               (replace_from (str1 sq) (str1 dq) t 0) 0).
  unfold rtry.
  destruct (json_loads (String "{" first_pass)) as [v | e] eqn:H1.
  - apply json_loads_brace in H1. destruct H1 as (d & ->). eauto.
  - destruct (json_loads (String "{" second_pass)) as [v | e'] eqn:H2; [|eauto].
    apply json_loads_brace in H2. destruct H2 as (d & ->). eauto.
Qed.

(** C6. For every input string the three extractors return: [parse_m_cfg]
    a dict (the parsed object, or the empty dict when both parsing passes
    fail or no object is found), [extract_fsresource_info] its dict with
    exactly the four entries fsresourceid, duration, name and sesskey, and
    [extract_sesskey] a string or None. None of them raises. *)
Theorem extractors_never_raise (html : string) :
  (exists d, parse_m_cfg html = Ok (PDict d)) /\
  (exists info, extract_fsresource_info html = Ok info /\
                dict_keys info = ["fsresourceid"; "duration"; "name"; "sesskey"]) /\
  (extract_sesskey html = None \/ exists s, extract_sesskey html = Some s).
Proof.
  split; [|split].
  - apply parse_m_cfg_dict.
  - destruct (extract_fsresource_info_total html) as (info & H & Hkeys & _).
    exists info. split; [exact H | exact Hkeys].
  - destruct (extract_sesskey html) as [s|]; [right; exists s; reflexivity | left; reflexivity].
Qed.

(** Near-JSON blobs: a trailing comma is dropped, single quotes are
    accepted in the second pass, unquoted keys give the empty dict. *)
Example parse_m_cfg_trailing_comma :
  parse_m_cfg Scenario.page_trailing_comma
  = Ok (PDict [("sesskey", PStr "abc"); ("courseId", PInt 5); ("contextInstanceId", PInt 77)]).
Proof. vm_compute. reflexivity. Qed.

Example parse_m_cfg_single_quotes :
  parse_m_cfg Scenario.page_single_quotes
  = Ok (PDict [("sesskey", PStr "abc"); ("courseId", PInt 5)]).
Proof. vm_compute. reflexivity. Qed.

Example parse_m_cfg_unquoted_keys :
  parse_m_cfg Scenario.page_unquoted_keys = Ok (PDict []).
Proof. vm_compute. reflexivity. Qed.

(** C7. The page that consists of the playerdata text of the scenario:
    [extract_fsresource_info] finds the resource id 4821 and the duration
    600, [extract_sesskey] finds the token abc123, and the first part of
    [WatchVideoJob.run] takes exactly these as resource id, target
    duration and sesskey, without any request. *)
Theorem playerdata_scenario_extracted :
  extract_fsresource_info Scenario.page_playerdata
    = Ok [("fsresourceid", PInt 4821); ("duration", PInt 600);
          ("name", PNone); ("sesskey", PNone)] /\
  extract_sesskey Scenario.page_playerdata = Some "abc123" /\
  forall (E : env) (client : MoodleClient) (video duration interval : Z)
         (template : option string) (w : world),
    WatchVideoJob.resolve E client
      {| WatchVideoJob.video_id := video;
         WatchVideoJob.duration_seconds := duration;
         WatchVideoJob.interval_seconds := interval;
         WatchVideoJob.payload_template := template;
         WatchVideoJob.target_seconds := None |}
      Scenario.page_playerdata w
    = (Ok {| WatchVideoJob.html := Scenario.page_playerdata;
             WatchVideoJob.sesskey := PStr "abc123";
             WatchVideoJob.sessiontimeout := None;
             WatchVideoJob.course_id := PNone;
             WatchVideoJob.context_instance_id := PNone;
             WatchVideoJob.fsresourceid := PInt 4821;
             WatchVideoJob.target := Some 600 |}, w).
Proof.
  split; [vm_compute; reflexivity | split; [vm_compute; reflexivity|]].
  intros. vm_compute. reflexivity.
Qed.

(** C5, on the code: the playerdata object of this page parses and gives
    the resource id 222, and the returned id is the 5 of the [cmid] in the
    text. The pattern loop runs whether or not the structured parse gave
    a value, and overwrites it. *)
Theorem pattern_search_overrides_playerdata :
  (exists m,
      search_playerdata Scenario.page_two_ids = Some m /\
      json_loads (single_to_double (strip_trailing_commas (group m 1)))
        = Ok (PDict [("fsresourceid", PInt 222)])) /\
  extract_fsresource_info Scenario.page_two_ids
    = Ok [("fsresourceid", PInt 5); ("duration", PNone); ("name", PNone); ("sesskey", PNone)].
Proof.
  split; [|vm_compute; reflexivity].
  eexists. split; [vm_compute; reflexivity | vm_compute; reflexivity].
Qed.

(** ** Unresolved course and context ids *)




(* ================================================================= *)
(** * More properties of the code *)

(** ** What a capturing group holds *)

Lemma all_chars_impl (p q : ascii -> bool) (s : string) :
  (forall c, p c = true -> q c = true) -> all_chars p s = true -> all_chars q s = true.
Proof.
  intros Hpq. induction s as [|c s IH]; cbn [all_chars]; [reflexivity|].
  intros H. apply andb_prop in H. destruct H as [Hc Hs].
  rewrite (Hpq c Hc), (IH Hs). reflexivity.
Qed.

Lemma length_append (t s : string) :
  String.length (t ++ s) = (String.length t + String.length s)%nat.
Proof. induction t as [|c t IH]; cbn; [reflexivity | rewrite IH; reflexivity]. Qed.

Lemma substring_prefix (t s : string) : substring 0 (String.length t) (t ++ s) = t.
Proof.
  induction t as [|c t IH]; cbn.
  - destruct s; reflexivity.
  - rewrite IH. reflexivity.
Qed.

(** The text between [t ++ s] and its suffix [s] is [t]. *)
Lemma consumed_append (t s : string) : consumed (t ++ s) s = t.
Proof.
  unfold consumed. rewrite length_append.
  replace (String.length t + String.length s - String.length s)%nat
    with (String.length t) by lia.
  apply substring_prefix.
Qed.

Section Captures.
Context {R : Type}.

(** A loop over a character set consumes characters of the set. *)
Lemma iterate_set (negated : bool) (items : list cset) (greedy : bool) (fuel : nat) :
  forall s g (k : @cont R) x,
    iterate (rmatch (RSet negated items)) greedy fuel s g k = Some x ->
    exists t s',
      s = t ++ s' /\
      all_chars (fun c => xorb negated (existsb (in_cset c) items)) t = true /\
      k s' g = Some x.
Proof.
  induction fuel as [|fuel IH]; intros s g k x H; cbn [iterate] in H.
  - exists EmptyString, s. auto.
  - assert (Hmore : forall y,
               rmatch (RSet negated items) s g
                 (fun s' g' => if (String.length s' <? String.length s)%nat
                               then iterate (rmatch (RSet negated items)) greedy fuel s' g' k
                               else None) = Some y ->
               exists t s',
                 s = t ++ s' /\
                 all_chars (fun c => xorb negated (existsb (in_cset c) items)) t = true /\
                 k s' g = Some y).
    { intros y Hy. cbn [rmatch] in Hy. destruct s as [|c s1]; [discriminate|].
      destruct (xorb negated (existsb (in_cset c) items)) eqn:Hc; [|discriminate].
      destruct (String.length s1 <? String.length (String c s1))%nat; [|discriminate].
      apply IH in Hy. destruct Hy as (t & s' & -> & Ht & Hk).
      exists (String c t), s'. cbn [append all_chars]. rewrite Hc, Ht. auto. }
    destruct greedy.
    + destruct (rmatch (RSet negated items) s g _) as [y|] eqn:Hy.
      * injection H as <-. apply Hmore. reflexivity.
      * exists EmptyString, s. auto.
    + destruct (k s g) as [y|] eqn:Hy.
      * injection H as <-. exists EmptyString, s. auto.
      * apply Hmore. exact H.
Qed.

(** The group [(set+)] holds a non-empty text of characters of the set. *)
Lemma rmatch_group_set_plus (n : nat) (negated : bool) (items : list cset) (greedy : bool) :
  forall s g (k : @cont R) x,
    rmatch (RGroup n (RPlus greedy (RSet negated items))) s g k = Some x ->
    exists t s',
      k s' ((n, t) :: g) = Some x /\
      t <> EmptyString /\
      all_chars (fun c => xorb negated (existsb (in_cset c) items)) t = true.
Proof.
  intros s g k x H. cbn [rmatch] in H.
  destruct s as [|c s1]; [discriminate|].
  destruct (xorb negated (existsb (in_cset c) items)) eqn:Hc; [|discriminate].
  apply iterate_set in H. destruct H as (t & s' & -> & Ht & Hk).
  change (String c (t ++ s')) with (String c t ++ s') in Hk.
  rewrite consumed_append in Hk.
  exists (String c t), s'. split; [exact Hk | split; [discriminate|]].
  cbn [all_chars]. rewrite Hc, Ht. reflexivity.
Qed.

(** A pattern made of parts without groups around one group: what holds
    of the group's text wherever the group matches holds of group 1. *)
Lemma rmatch_around_group (pre post : list regex) (r1 : regex) (P : string -> Prop) :
  forallb groupless pre = true ->
  forallb groupless post = true ->
  (forall s g (k : @cont R) x,
      rmatch (RGroup 1 r1) s g k = Some x ->
      exists t s', k s' ((1%nat, t) :: g) = Some x /\ P t) ->
  forall s g (k : @cont R) x,
    rmatch (seq (pre ++ RGroup 1 r1 :: post)) s g k = Some x ->
    exists t s', k s' ((1%nat, t) :: g) = Some x /\ P t.
Proof.
  intros Hpre Hpost Hgroup. induction pre as [|r pre IH]; intros s g k x H.
  - cbn [app seq fold_right] in H. fold (seq post) in H.
    change (rmatch (RSeq (RGroup 1 r1) (seq post)) s g k)
      with (rmatch (RGroup 1 r1) s g (fun s' g' => rmatch (seq post) s' g' k)) in H.
    apply Hgroup in H. destruct H as (t & s1 & H & Ht).
    apply rmatch_groupless in H; [|apply groupless_seq, Hpost].
    destruct H as (s2 & H & _). exists t, s2. auto.
  - cbn [forallb] in Hpre. apply andb_prop in Hpre. destruct Hpre as [Hr Hpre].
    cbn [app seq fold_right rmatch] in H. fold (seq (pre ++ RGroup 1 r1 :: post)) in H.
    apply (rmatch_groupless r Hr) in H. destruct H as (s1 & H & _).
    eapply IH; eauto.
Qed.
End Captures.

Lemma search_around_group (pre post : list regex) (r1 : regex) (P : string -> Prop)
      (s : string) (m : rmatched) :
  forallb groupless pre = true ->
  forallb groupless post = true ->
  (forall s g (k : @cont rmatched) x,
      rmatch (RGroup 1 r1) s g k = Some x ->
      exists t s', k s' ((1%nat, t) :: g) = Some x /\ P t) ->
  search (seq (pre ++ RGroup 1 r1 :: post)) s = Some m ->
  P (group m 1).
Proof.
  intros Hpre Hpost Hgroup H. apply search_match_at in H. destruct H as (s0 & H).
  unfold match_at in H.
  apply (rmatch_around_group pre post r1 P Hpre Hpost Hgroup) in H.
  destruct H as (t & s' & H & Ht). injection H as <-. exact Ht.
Qed.

(** A non-empty text of the characters [p]. *)
Lemma search_around_set_plus (pre post : list regex) (items : list cset)
      (p : ascii -> bool) (s : string) (m : rmatched) :
  forallb groupless pre = true ->
  forallb groupless post = true ->
  (forall c, existsb (in_cset c) items = true -> p c = true) ->
  search (seq (pre ++ RGroup 1 (RPlus true (RSet false items)) :: post)) s = Some m ->
  group m 1 <> EmptyString /\ all_chars p (group m 1) = true.
Proof.
  intros Hpre Hpost Hp H.
  apply (search_around_group pre post (RPlus true (RSet false items))
           (fun t => t <> EmptyString /\ all_chars p t = true) s m Hpre Hpost); [|exact H].
  intros s0 g k x Hm. apply rmatch_group_set_plus in Hm.
  destruct Hm as (t & s' & Hk & Hne & Hall). exists t, s'.
  split; [exact Hk | split; [exact Hne|]].
  eapply all_chars_impl; [|exact Hall]. intros c Hc. apply Hp. exact Hc.
Qed.

Lemma alnum_items (c : ascii) :
  existsb (in_cset c) [CRange "a" "z"; CRange "A" "Z"; CRange "0" "9"] = true ->
  is_alnum c = true.
Proof.
  unfold is_alnum. cbn [existsb in_cset]. rewrite orb_false_r, orb_assoc. auto.
Qed.

Lemma digit_items (c : ascii) : existsb (in_cset c) [CDigit] = true -> is_digit c = true.
Proof. cbn [existsb in_cset]. rewrite orb_false_r. auto. Qed.

(** What [extract_sesskey] finds. *)
Lemma sesskey_token (html sesskey : string) :
  extract_sesskey html = Some sesskey ->
  sesskey <> EmptyString /\ all_chars is_alnum sesskey = true.
Proof.
  unfold extract_sesskey.
  destruct (search pat_sesskey_input html) as [m|] eqn:H1.
  - intros H. injection H as <-.
    apply (search_around_set_plus
             [RLit "name="; a_quote; RLit "sesskey"; a_quote; ws_plus; RLit "value="; a_quote]
             [a_quote] [CRange "a" "z"; CRange "A" "Z"; CRange "0" "9"] is_alnum html m);
      [reflexivity | reflexivity | apply alnum_items | exact H1].
  - destruct (search pat_sesskey_js html) as [m|] eqn:H2; [|discriminate].
    intros H. injection H as <-.
    apply (search_around_set_plus
             [RLit "sesskey"; ROpt true a_quote; ws_star; colon_or_eq; ws_star; a_quote]
             [a_quote] [CRange "a" "z"; CRange "A" "Z"; CRange "0" "9"] is_alnum html m);
      [reflexivity | reflexivity | apply alnum_items | exact H2].
Qed.

Lemma sesskey_nonempty (html sesskey : string) :
  extract_sesskey html = Some sesskey -> nonempty sesskey = true.
Proof.
  intros H. apply sesskey_token in H. destruct H as [H _].
  destruct sesskey; [contradiction | reflexivity].
Qed.

(** X1. A sesskey that [extract_sesskey] finds is a non-empty string of
    ASCII letters and digits: the test [if not sesskey] of its callers asks
    only whether one was found. *)
Theorem extract_sesskey_gives_a_token (html sesskey : string) :
  extract_sesskey html = Some sesskey ->
  sesskey <> EmptyString /\ all_chars is_alnum sesskey = true.
Proof. apply sesskey_token. Qed.

Lemma extract_sesskey_gives_a_token_witness :
  "abc123" <> EmptyString /\ all_chars is_alnum "abc123" = true.
Proof.
  apply (extract_sesskey_gives_a_token Scenario.page_playerdata "abc123").
  reflexivity.
Defined.

(** ** Every call of [get] *)

Lemma sent_app (e1 e2 : list event) : sent (e1 ++ e2) = (sent e1 ++ sent e2)%list.
Proof. unfold sent. apply flat_map_app. Qed.

Section GetAlways.
Variable E : env.
Variable self : MoodleClient.
Variables (url : string) (params : list (string * pyval)) (backoff : Q).

Let rq := get_request url params.

(** A round of the loop sends one request and, at most, sleeps after it;
    when it returns a response, that is the answer to its request, with a
    status that [raise_for_status] lets pass. *)
Lemma attempt_once_cases (attempt : Z) (le : option exn) (w : world) :
  let r := attempt_once E url params backoff attempt le w in
  requests (snd r) = S (requests w) /\
  exists tail,
    trace (snd r) = (trace w ++ EvRequest (clock w) rq :: tail)%list /\
    sent tail = [] /\
    forall st tx,
      fst r = Ok (Return st tx) ->
      tail = [] /\ http E (requests w) rq = Response st tx /\ (st < 400 \/ 600 <= st).
Proof.
  subst rq. unfold get_request.
  unfold attempt_once, try_except, bind, send, time_sleep, lift, ret, raise_for_status.
  cbn [fst snd].
  assert (Hpass : forall st, (400 <=? st) && (st <? 600) = false -> st < 400 \/ 600 <= st).
  { intros st Hb. apply andb_false_iff in Hb. destruct Hb as [Hb | Hb];
      [apply Z.leb_gt in Hb | apply Z.ltb_ge in Hb]; lia. }
  destruct (http E (requests w) _) as [st tx | e] eqn:Ho;
    cbn [fst snd requests trace clock sleeps];
    [ destruct (st =? 200) eqn:H200;
      [ | destruct (retryable st) eqn:Hr;
          [ | destruct ((400 <=? st) && (st <? 600)) eqn:Hb ] ] | ];
    cbn [fst snd requests trace clock sleeps];
    try (destruct (Qltb (backoff * inject_Z attempt) 0) eqn:Hs;
         cbn [fst snd requests trace clock sleeps]; try rewrite Hs;
         cbn [fst snd requests trace clock sleeps]);
    (split; [reflexivity|]);
    try (exists []; split; [reflexivity | split; [reflexivity|]];
         intros st' tx' H;
         first [ discriminate H
               | injection H as <- <-;
                 split; [reflexivity | split; [reflexivity|]];
                 first [ apply Z.eqb_eq in H200; lia | apply Hpass, Hb ] ]);
    try (eexists [_]; split; [rewrite <- app_assoc; reflexivity | split; [reflexivity|]];
         intros st' tx' H; discriminate H).
Qed.

(** The loop of [get], whatever the server answers. *)
Lemma get_attempts_cases (todo : nat) :
  forall (attempt : Z) (le : option exn) (w : world),
    let r := get_attempts E url params backoff todo attempt le w in
    exists evs,
      trace (snd r) = (trace w ++ evs)%list /\
      Forall (fun q => q = rq) (sent evs) /\
      (List.length (sent evs) <= todo)%nat /\
      requests (snd r) = (requests w + List.length (sent evs))%nat /\
      (todo = O -> evs = [] /\ exists e, fst r = Raise e) /\
      forall st tx,
        fst r = Ok (st, tx) ->
        (st < 400 \/ 600 <= st) /\
        (exists before t, evs = (before ++ [EvRequest t rq])%list) /\
        http E (Nat.pred (requests (snd r))) rq = Response st tx.
Proof.
  induction todo as [|todo IH]; intros attempt le w; cbn [get_attempts].
  - exists []. destruct le; unfold raise; cbn [fst snd];
      rewrite app_nil_r; cbn [sent flat_map List.length];
      (repeat split; try constructor; try lia; try discriminate; eauto).
  - cbv zeta. unfold bind.
    destruct (attempt_once_cases attempt le w) as (Hq & tail & Ht & Hs & Hret).
    destruct (attempt_once E url params backoff attempt le w) as [[[st tx | le'] | e] w1];
      cbn [fst snd] in *.
    + destruct (Hret st tx eq_refl) as (-> & Ho & Hst).
      exists [EvRequest (clock w) rq]. unfold ret. cbn [fst snd sent flat_map app List.length].
      repeat split; try assumption; try lia; try discriminate.
      * constructor; [reflexivity | constructor].
      * injection H as <- _. exact Hst.
      * exists [], (clock w). reflexivity.
      * injection H as <- <-. rewrite Hq. exact Ho.
    + destruct (IH (attempt + 1) le' w1) as (evs & Ht' & Hf & Hl & Hr & _ & Hok).
      exists (EvRequest (clock w) rq :: tail ++ evs)%list.
      assert (Hsent : sent (EvRequest (clock w) rq :: tail ++ evs) = rq :: sent evs).
      { change (EvRequest (clock w) rq :: tail ++ evs)%list
          with ([EvRequest (clock w) rq] ++ tail ++ evs)%list.
        rewrite !sent_app, Hs. reflexivity. }
      rewrite Hsent. cbn [List.length].
      repeat split; try discriminate.
      * rewrite Ht', Ht, <- app_assoc. reflexivity.
      * constructor; [reflexivity | exact Hf].
      * lia.
      * rewrite Hr, Hq. lia.
      * destruct (Hok st tx H) as (Hst & _ & _). exact Hst.
      * destruct (Hok st tx H) as (_ & (before & t & ->) & _).
        exists (EvRequest (clock w) rq :: tail ++ before)%list, t.
        cbn [app]. rewrite <- app_assoc. reflexivity.
      * destruct (Hok st tx H) as (_ & _ & Ho). exact Ho.
    + exists (EvRequest (clock w) rq :: tail)%list.
      assert (Hsent : sent (EvRequest (clock w) rq :: tail) = [rq]).
      { change (EvRequest (clock w) rq :: tail)%list
          with ([EvRequest (clock w) rq] ++ tail)%list.
        rewrite sent_app, Hs. reflexivity. }
      rewrite Hsent. cbn [List.length].
      repeat split; try assumption; try lia; try discriminate.
      constructor; [reflexivity | constructor].
Qed.
End GetAlways.

(** X2. [MoodleClient.get], whatever the server does and whatever the
    arguments are: it sends at most [max_retries] requests, each of them the
    GET of the same URL with the same parameters; with [max_retries] of 0 or
    less it sends nothing and raises. *)
Theorem get_sends_at_most_max_retries
        (E : env) (self : MoodleClient) (path : string)
        (params : list (string * pyval)) (max_retries : Z) (backoff : Q) (w : world) :
  let r := get E self path params max_retries backoff w in
  let requests_sent := sent (new_events w (snd r)) in
  (Z.of_nat (List.length requests_sent) <= Z.max 0 max_retries) /\
  Forall (fun rq => rq = get_request (url_of self path) params) requests_sent /\
  (max_retries <= 0 ->
   new_events w (snd r) = [] /\
   fst r = Raise (RuntimeError "Request failed without exception")).
Proof.
  intros r requests_sent. subst requests_sent r. unfold get.
  destruct (get_attempts_cases E (url_of self path) params backoff
              (Z.to_nat max_retries) 1 None w) as (evs & Ht & Hf & Hl & _ & _ & _).
  split; [|split].
  - rewrite (new_events_app _ _ _ Ht). lia.
  - rewrite (new_events_app _ _ _ Ht). exact Hf.
  - intros Hm. replace (Z.to_nat max_retries) with O by lia.
    cbn [get_attempts]. unfold raise, new_events. cbn [fst snd].
    rewrite skipn_all. split; reflexivity.
Qed.

(** X3. When [get] returns a response, it is the server's answer to the
    last request sent, nothing follows that request, and its status is one
    that [raise_for_status] lets pass (below 400 or from 600 on): 200, but
    also 204 or 304. *)
Theorem get_returns_the_last_answer
        (E : env) (self : MoodleClient) (path : string)
        (params : list (string * pyval)) (max_retries : Z) (backoff : Q) (w : world)
        (status_code : Z) (text : string) :
  let r := get E self path params max_retries backoff w in
  let rq := get_request (url_of self path) params in
  fst r = Ok (status_code, text) ->
  (status_code < 400 \/ 600 <= status_code) /\
  (exists before t, new_events w (snd r) = (before ++ [EvRequest t rq])%list) /\
  http E (Nat.pred (requests (snd r))) rq = Response status_code text.
Proof.
  intros r rq Hok. subst r rq. unfold get in *.
  destruct (get_attempts_cases E (url_of self path) params backoff
              (Z.to_nat max_retries) 1 None w) as (evs & Ht & _ & _ & _ & _ & Hret).
  rewrite (new_events_app _ _ _ Ht).
  apply Hret, Hok.
Qed.

Lemma get_returns_the_last_answer_witness :
  (304 < 400 \/ 600 <= 304) /\
  (exists before t,
      new_events Scenario.w0
        (snd (get (Scenario.always 304) Scenario.client0 "/my/" [] 3 (8 # 10) Scenario.w0))
      = (before ++ [EvRequest t (get_request (url_of Scenario.client0 "/my/") [])])%list) /\
  http (Scenario.always 304)
       (Nat.pred (requests (snd (get (Scenario.always 304) Scenario.client0 "/my/" [] 3
                                     (8 # 10) Scenario.w0))))
       (get_request (url_of Scenario.client0 "/my/") [])
  = Response 304 EmptyString.
Proof.
  apply (get_returns_the_last_answer (Scenario.always 304) Scenario.client0 "/my/" [] 3
           (8 # 10) Scenario.w0 304 EmptyString).
  reflexivity.
Defined.

(** ** The callers of service.php *)

Section ServiceCalls.
Variable E : env.
Variable self : MoodleClient.

(** Looking for the sesskey never raises; it sends nothing when the page
    at hand carries a sesskey, and fetches /my/ otherwise. *)
Lemma resolve_sesskey_cases (html_context : option string) (w : world) :
  exists sk fetch w',
    resolve_sesskey E self html_context w = (Ok sk, w') /\
    trace w' = (trace w ++ fetch)%list /\
    my_page_fetch self fetch /\
    (option_nonempty (page_sesskey html_context) = true ->
     fetch = [] /\ sk = page_sesskey html_context /\ w' = w).
Proof.
  unfold resolve_sesskey. fold (page_sesskey html_context).
  destruct (option_nonempty (page_sesskey html_context)) eqn:Hp.
  - exists (page_sesskey html_context), [], w. unfold ret.
    rewrite app_nil_r. repeat split; try constructor. simpl. lia.
  - unfold try_except, bind, get_my_courses_page, get_text, get, bind.
    destruct (get_attempts_cases E (url_of self "/my/") [] (8 # 10) (Z.to_nat 3) 1 None w)
      as (evs & Ht & Hf & Hl & _ & _ & _).
    destruct (get_attempts E (url_of self "/my/") [] (8 # 10) (Z.to_nat 3) 1 None w)
      as [[[st tx] | e] w1]; cbn [fst snd] in *; unfold ret;
      do 3 eexists; (split; [reflexivity|]); (split; [exact Ht|]);
      (split; [split; [exact Hf | exact Hl] | discriminate]).
Qed.

(** The time stamp of a POST: the one given, else the clock's. *)
Lemma timestamp_cases (timestamp : option Z) (w : world) :
  exists ts,
    match timestamp with
    | Some t => ret t
    | None => now <- time_time ;; ret (Qtrunc (now * 1000))
    end w = (Ok ts, w) /\
    (forall t, timestamp = Some t -> ts = t).
Proof.
  destruct timestamp as [t|].
  - exists t. split; [reflexivity|]. intros t' H. injection H as <-. reflexivity.
  - eexists. split; [reflexivity | discriminate].
Qed.
End ServiceCalls.

Lemma page_sesskey_nonempty (html_context : option string) (s : string) :
  page_sesskey html_context = Some s ->
  option_nonempty (page_sesskey html_context) = true.
Proof.
  intros H. rewrite H. cbn [option_nonempty].
  unfold page_sesskey in H. destruct html_context as [page|]; [|discriminate].
  destruct (Extract.nonempty page); [|discriminate].
  eapply sesskey_nonempty; eauto.
Qed.

(** What a call of [post_service] leaves in the trace. *)
Lemma post_service_events
        (E : env) (self : MoodleClient) (payload_list : pyval)
        (html_context : option string) (timestamp : option Z) (w : world) :
  let r := post_service E self payload_list html_context timestamp w in
  exists fetch t sesskey ts,
    new_events w (snd r)
      = (fetch ++ [EvRequest t (service_post self [("sesskey", PStr sesskey);
                                                   ("timestamp", PInt ts)]
                                             payload_list)])%list /\
    my_page_fetch self fetch /\
    (forall t0, timestamp = Some t0 -> ts = t0) /\
    (forall s, page_sesskey html_context = Some s -> fetch = [] /\ sesskey = s).
Proof.
  intros r. subst r. unfold post_service.
  unfold bind at 1.
  destruct (resolve_sesskey_cases E self html_context w)
    as (sk & fetch & w1 & Hr & Ht & Hf & Hpage).
  rewrite Hr. unfold bind at 1.
  destruct (timestamp_cases timestamp w1) as (ts & Hts & Hgiven). rewrite Hts.
  unfold bind at 1.
  match goal with |- context [send E ?q w1] => set (rq := q) end.
  assert (Hsend : trace (snd (send E rq w1)) = (trace w1 ++ [EvRequest (clock w1) rq])%list).
  { unfold send. destruct (http E (requests w1) rq); reflexivity. }
  exists fetch, (clock w1), (match sk with Some s => s | None => EmptyString end), ts.
  split; [|split; [exact Hf | split; [exact Hgiven|]]].
  - apply new_events_app.
    destruct (send E rq w1) as [[[st tx] | e] w2]; cbn [snd] in *.
    + unfold bind, lift. destruct (raise_for_status st); cbn [snd];
        rewrite Hsend, Ht, <- app_assoc; reflexivity.
    + rewrite Hsend, Ht, <- app_assoc. reflexivity.
  - intros s Hs. destruct Hpage as (-> & -> & _).
    + eapply page_sesskey_nonempty; eauto.
    + rewrite Hs. split; reflexivity.
Qed.

(** X4. Every call of [post_service] sends exactly one POST, as the last
    thing it does: to service.php, with the payload as body, a sesskey
    parameter that is a string and the time stamp. When the page at hand
    carries a sesskey, that one is sent and nothing else is requested;
    otherwise /my/ is fetched first, with at most three GETs, and the POST
    is sent even when no sesskey was found. *)
Theorem post_service_sends_one_post
        (E : env) (self : MoodleClient) (payload_list : pyval)
        (html_context : option string) (timestamp : option Z) (w : world) :
  let r := post_service E self payload_list html_context timestamp w in
  exists fetch t sesskey ts,
    new_events w (snd r)
      = (fetch ++ [EvRequest t (service_post self [("sesskey", PStr sesskey);
                                                   ("timestamp", PInt ts)]
                                             payload_list)])%list /\
    my_page_fetch self fetch /\
    (forall t0, timestamp = Some t0 -> ts = t0) /\
    (forall s, page_sesskey html_context = Some s -> fetch = [] /\ sesskey = s).
Proof. apply post_service_events. Qed.

(** X5. [post_service_capture] sends what [post_service] sends and leaves
    the same world; it returns the dict of the raw text and the parsed JSON
    where [post_service] returns the parsed JSON, puts None for the JSON
    where [post_service] raises because the text is not JSON, and raises
    what [post_service] raises otherwise. *)
Theorem post_service_capture_agrees
        (E : env) (self : MoodleClient) (payload_list : pyval)
        (html_context : option string) (timestamp : option Z) (w : world) :
  let c := Services.post_service_capture E self payload_list html_context timestamp w in
  let p := post_service E self payload_list html_context timestamp w in
  snd c = snd p /\
  match fst c with
  | Ok out =>
      exists raw,
        out = PDict [("raw", PStr raw); ("json", catch_default (json_loads raw) PNone)] /\
        fst p = json_loads raw
  | Raise e => fst p = Raise e
  end.
Proof.
  intros c p. subst c p. unfold Services.post_service_capture, post_service, bind.
  destruct (resolve_sesskey E self html_context w) as [[sk | e] w1]; [|split; reflexivity].
  destruct timestamp as [t|]; unfold ret, time_time, lift;
    (destruct (send E _ w1) as [[[st tx] | e] w2]; [|split; reflexivity];
     destruct (raise_for_status st); cbn [fst snd]; [|split; reflexivity];
     split; [reflexivity|]; exists tx; split; reflexivity).
Qed.

(** X6. Every call of [call_ajax_service] sends exactly one POST, as the
    last thing it does, to service.php; its body names the method and the
    arguments, and the parameter info is sent exactly when the method name
    is not empty. Before it, /my/ is fetched when the page at hand has no
    sesskey. *)
Theorem call_ajax_service_sends_one_post
        (E : env) (self : MoodleClient) (methodname : string) (args : pyval)
        (html_context : option string) (w : world) :
  let r := Services.call_ajax_service E self methodname args html_context w in
  exists fetch t sesskey,
    new_events w (snd r)
      = (fetch ++
         [EvRequest t
            (service_post self
               (("sesskey", PStr sesskey)
                  :: (if Extract.nonempty methodname
                      then [("info", PStr methodname)] else []))
               (PList [PDict [("index", PInt 0); ("methodname", PStr methodname);
                              ("args", args)]]))])%list /\
    my_page_fetch self fetch /\
    (forall s, page_sesskey html_context = Some s -> fetch = [] /\ sesskey = s).
Proof.
  intros r. subst r. unfold Services.call_ajax_service.
  unfold bind at 1.
  destruct (resolve_sesskey_cases E self html_context w)
    as (sk & fetch & w1 & Hr & Ht & Hf & Hpage).
  rewrite Hr. unfold bind at 1.
  match goal with |- context [send E ?q w1] => set (rq := q) end.
  assert (Hsend : trace (snd (send E rq w1)) = (trace w1 ++ [EvRequest (clock w1) rq])%list).
  { unfold send. destruct (http E (requests w1) rq); reflexivity. }
  exists fetch, (clock w1), (match sk with Some s => s | None => EmptyString end).
  split; [|split; [exact Hf|]].
  - apply new_events_app.
    assert (Hquiet : forall (m : M pyval) w2,
               trace w2 = (trace w ++ fetch ++ [EvRequest (clock w1) rq])%list ->
               (forall w3, trace (snd (m w3)) = trace w3) ->
               trace (snd (m w2)) = (trace w ++ fetch ++ [EvRequest (clock w1) rq])%list).
    { intros m w2 H2 Hm. rewrite Hm. exact H2. }
    destruct (send E rq w1) as [[[st tx] | e] w2]; cbn [snd] in *;
      [|rewrite Hsend, Ht, <- app_assoc; reflexivity].
    unfold bind, lift. destruct (raise_for_status st); cbn [snd];
      [|rewrite Hsend, Ht, <- app_assoc; reflexivity].
    destruct (json_loads tx) as [data | e]; cbn [snd];
      [|rewrite Hsend, Ht, <- app_assoc; reflexivity].
    assert (Htr : trace w2 = (trace w ++ fetch ++ [EvRequest (clock w1) rq])%list).
    { rewrite Hsend, Ht, <- app_assoc. reflexivity. }
    destruct data as [| | | | | [|entry rest] |]; unfold ret; cbn [snd]; try exact Htr.
    destruct (Extract.py_get entry "error") as [err | e]; cbn [snd]; [|exact Htr].
    destruct (py_truthy E err); cbn [snd]; exact Htr.
  - intros s Hs. destruct Hpage as (-> & -> & _).
    + eapply page_sesskey_nonempty; eauto.
    + rewrite Hs. split; reflexivity.
Qed.

(** X7. [fetch_overview_courses_api] looks for the sesskey in the page it
    is given and nowhere else: without one it returns the empty list and
    sends nothing; with one it sends exactly one POST, which is not retried,
    and nothing else. *)
Theorem fetch_overview_courses_api_requests
        (E : env) (self : MoodleClient) (html classification : string) (w : world) :
  let r := Services.fetch_overview_courses_api E self html classification w in
  match extract_sesskey html with
  | None => r = (Ok (PList []), w)
  | Some sesskey =>
      exists t body,
        new_events w (snd r)
          = [EvRequest t
               (service_post self
                  [("sesskey", PStr sesskey); ("info", PStr Services.overview_method)]
                  body)] /\
        Observe.arg body "classification" = Some (PStr classification)
  end.
Proof.
  intros r. subst r. unfold Services.fetch_overview_courses_api.
  destruct (extract_sesskey html) as [sk|] eqn:Hsk; [|reflexivity].
  rewrite (sesskey_nonempty _ _ Hsk). cbn [negb]. unfold bind at 1.
  match goal with |- context [send E ?q w] => set (rq := q) end.
  assert (Hsend : trace (snd (send E rq w)) = (trace w ++ [EvRequest (clock w) rq])%list).
  { unfold send. destruct (http E (requests w) rq); reflexivity. }
  exists (clock w). eexists. split.
  - apply new_events_app.
    destruct (send E rq w) as [[[st tx] | e] w2]; cbn [snd] in *; [|exact Hsend].
    unfold bind, lift. destruct (raise_for_status st); cbn [snd]; [|exact Hsend].
    destruct (json_loads tx) as [data | e]; cbn [snd]; [|exact Hsend].
    destruct data as [| | | | | [|entry rest] |]; unfold ret; cbn [snd]; try exact Hsend.
    destruct (Extract.py_get entry "error") as [err | e]; cbn [snd]; [|exact Hsend].
    destruct (py_truthy E err); cbn [snd]; [exact Hsend|].
    destruct (Extract.py_get entry "data") as [d | e]; cbn [snd]; [|exact Hsend].
    destruct (Extract.py_get (py_or E d (PDict [])) "courses"); cbn [snd]; exact Hsend.
  - reflexivity.
Qed.

(** ** The polling loop comes to an end *)

Lemma later_clock (w w' : world) : later w w' -> (clock w <= clock w')%Q.
Proof. intros (evs & _ & H & _). exact H. Qed.

Lemma sleep_s_positive (interval : Z) (sessiontimeout : option Z) :
  1 <= interval -> 1 <= WatchVideoJob.sleep_s interval sessiontimeout.
Proof.
  intros H. unfold WatchVideoJob.sleep_s. destruct sessiontimeout as [st|]; [|exact H].
  destruct (WatchVideoJob.truthy_int (Some st) && (st <? interval)); lia.
Qed.

Section LoopEnds.
Variable E : env.
Variable client : MoodleClient.
Variable self : WatchVideoJob.t.
Hypothesis interval_positive : 1 <= WatchVideoJob.interval_seconds self.

(** A round that asks for another round has slept for a second or more. *)
Lemma iteration_advances cx start (w : world) :
  fst (WatchVideoJob.iteration E client self cx start w) = Ok Continue ->
  (clock w + 1 <= clock (snd (WatchVideoJob.iteration E client self cx start w)))%Q.
Proof.
  assert (H1 : (1 <= inject_Z (WatchVideoJob.interval_seconds self))%Q).
  { change 1%Q with (inject_Z 1). rewrite <- Zle_Qle. exact interval_positive. }
  assert (H2 : (1 <= inject_Z (WatchVideoJob.sleep_s (WatchVideoJob.interval_seconds self)
                                                     (WatchVideoJob.sessiontimeout cx)))%Q).
  { change 1%Q with (inject_Z 1). rewrite <- Zle_Qle.
    apply sleep_s_positive, interval_positive. }
  destruct (WatchVideoJob.iteration E client self cx start w) as [r wf] eqn:Hit.
  cbn [fst snd]. revert Hit. unfold WatchVideoJob.iteration.
  unfold bind at 1. rewrite time_time_run.
  unfold bind at 1. rewrite time_time_run.
  destruct (negb (WatchVideoJob.truthy_template (WatchVideoJob.payload_template self))).
  - unfold bind.
    destruct (time_sleep_cases E (inject_Z (WatchVideoJob.interval_seconds self)) w)
      as [[_ H] | [_ (w' & H & _ & Hc)]]; rewrite H; unfold ret;
      intros Hit; injection Hit as <- <-; intros Hr; [discriminate | lra].
  - destruct (json_loads _) as [payload | e].
    + unfold bind at 1.
      pose proof (fill_declared_quiet E cx payload (Qtrunc (clock w - start))
                    (Qtrunc (clock w * 1000)) w) as H0.
      apply without_post_later, later_clock in H0.
      destruct (WatchVideoJob.fill_declared E cx payload _ _ w)
        as [[payload' | e] w1]; cbn [snd] in H0.
      * unfold bind at 1.
        destruct (submit_cases E client cx payload' (Qtrunc (clock w * 1000)) w1)
          as (c & w2 & ev1 & Hs & (_ & Hc1 & _) & _).
        rewrite Hs. destruct c as [|o].
        -- unfold bind.
           destruct (time_sleep_cases E
                       (inject_Z (WatchVideoJob.sleep_s (WatchVideoJob.interval_seconds self)
                                                        (WatchVideoJob.sessiontimeout cx))) w2)
             as [[_ H] | [_ (w3 & H & _ & Hc)]]; rewrite H; unfold ret;
             intros Hit; injection Hit as <- <-; intros Hr; [discriminate | lra].
        -- unfold ret. intros Hit; injection Hit as <- <-. discriminate.
      * intros Hit; injection Hit as <- <-. discriminate.
    + unfold ret. intros Hit; injection Hit as <- <-. discriminate.
Qed.

(** A round breaks out of the loop in one of two ways. *)
Lemma iteration_breaks cx start (w : world) (o : outcome) :
  fst (WatchVideoJob.iteration E client self cx start w) = Ok (Break o) ->
  o = Completed \/ o = AbortedTemplate.
Proof.
  unfold WatchVideoJob.iteration.
  unfold bind at 1. rewrite time_time_run.
  unfold bind at 1. rewrite time_time_run.
  destruct (negb (WatchVideoJob.truthy_template (WatchVideoJob.payload_template self))).
  - unfold bind. destruct (time_sleep E _ w) as [[[] | e] w1]; cbn; discriminate.
  - destruct (json_loads _) as [payload | e].
    + unfold bind at 1.
      destruct (WatchVideoJob.fill_declared E cx payload _ _ w) as [[payload' | e] w1];
        [|cbn; discriminate].
      unfold bind at 1. unfold WatchVideoJob.submit, try_except, bind at 1.
      destruct (post_service E client payload' _ _ w1) as [[resp | e] w2].
      * destruct (is_completed (unwrap_response resp)); unfold ret.
        -- cbn. intros H. injection H as <-. left. reflexivity.
        -- unfold bind. destruct (time_sleep E _ w2) as [[[] | e] w3]; cbn; discriminate.
      * unfold ret, bind. destruct (time_sleep E _ w2) as [[[] | e'] w3]; cbn; discriminate.
    + cbn. intros H. injection H as <-. right. reflexivity.
Qed.

(** With one round more than the seconds left, the loop ends. *)
Lemma loop_ends cx start end_ (rounds : nat) :
  forall w,
    (end_ - clock w <= inject_Z (Z.of_nat rounds))%Q ->
    finished (fst (WatchVideoJob.loop E client self (S rounds) cx start end_ w)).
Proof.
  induction rounds as [|rounds IH]; intros w Hleft.
  - cbn [WatchVideoJob.loop]. unfold bind at 1. rewrite time_time_run.
    replace (Qltb (clock w) end_) with false; [exact I|].
    symmetry. apply Qltb_ge. change (inject_Z (Z.of_nat 0)) with 0%Q in Hleft. lra.
  - change (WatchVideoJob.loop E client self (S (S rounds)) cx start end_ w)
      with ((now <- time_time ;;
             if Qltb now end_ then
               c <- WatchVideoJob.iteration E client self cx start ;;
               match c with
               | Continue => WatchVideoJob.loop E client self (S rounds) cx start end_
               | Break o => ret o
               end
             else ret TimedOut) w).
    unfold bind at 1. rewrite time_time_run.
    destruct (Qltb (clock w) end_); [|exact I].
    unfold bind.
    pose proof (iteration_advances cx start w) as Hadv.
    pose proof (iteration_breaks cx start w) as Hbr.
    destruct (WatchVideoJob.iteration E client self cx start w) as [[[|o] | e] w1];
      cbn [fst snd] in *.
    + apply IH. specialize (Hadv eq_refl).
      rewrite Nat2Z.inj_succ in Hleft. unfold Z.succ in Hleft.
      rewrite inject_Z_plus in Hleft. change (inject_Z 1) with 1%Q in Hleft. lra.
    + destruct (Hbr o eq_refl) as [-> | ->]; exact I.
    + exact I.
Qed.
End LoopEnds.

(** A loop that ended does the same with more rounds to spare. *)
Lemma loop_fuel_enough (E : env) (client : MoodleClient) (self : WatchVideoJob.t)
      cx start end_ (fuel : nat) :
  forall w more,
    finished (fst (WatchVideoJob.loop E client self fuel cx start end_ w)) ->
    WatchVideoJob.loop E client self (fuel + more) cx start end_ w
    = WatchVideoJob.loop E client self fuel cx start end_ w.
Proof.
  induction fuel as [|fuel IH]; intros w more Hfin.
  - contradiction.
  - change (S fuel + more)%nat with (S (fuel + more)).
    cbn [WatchVideoJob.loop] in *. unfold bind at 1 3. unfold bind at 1 in Hfin.
    rewrite time_time_run in *.
    destruct (Qltb (clock w) end_); [|reflexivity].
    unfold bind in *.
    destruct (WatchVideoJob.iteration E client self cx start w) as [[[|o] | e] w1];
      [apply IH; exact Hfin | reflexivity | reflexivity].
Qed.

(** X8. [WatchVideoJob.run] comes to an end: with an interval of a second
    or more, the polling loop makes at most [duration_seconds] rounds and
    one more test of its condition, so the run returns or raises within
    that many rounds, and does the same when given more. *)
Theorem watch_video_run_ends
        (E : env) (client : MoodleClient) (self : WatchVideoJob.t) (rounds : nat)
        (w : world) :
  1 <= WatchVideoJob.interval_seconds self ->
  WatchVideoJob.duration_seconds self <= Z.of_nat rounds ->
  finished (fst (WatchVideoJob.run E client self (S rounds) w)) /\
  forall more,
    WatchVideoJob.run E client self (S rounds + more) w
    = WatchVideoJob.run E client self (S rounds) w.
Proof.
  intros Hi Hd.
  assert (Hloop : forall cx w1,
             finished (fst (WatchVideoJob.loop E client self (S rounds) cx (clock w1)
                              (clock w1 + inject_Z (WatchVideoJob.duration_seconds self)) w1))).
  { intros cx w1. apply loop_ends; [exact Hi|].
    rewrite Zle_Qle in Hd. lra. }
  unfold WatchVideoJob.run, bind.
  destruct (get_text E client _ w) as [[page | e] w1]; [|split; [exact I | reflexivity]].
  destruct (WatchVideoJob.resolve E client self page w1) as [[cx | e] w2];
    [|split; [exact I | reflexivity]].
  destruct (negb (py_truthy E (WatchVideoJob.sesskey cx))); [split; [exact I | reflexivity]|].
  rewrite time_time_run. split.
  - apply Hloop.
  - intros more. apply loop_fuel_enough, Hloop.
Qed.

Lemma watch_video_run_ends_witness :
  finished (fst (WatchVideoJob.run Scenario.completing Scenario.client0 Scenario.job0
                   (S 300) Scenario.w0)) /\
  forall more,
    WatchVideoJob.run Scenario.completing Scenario.client0 Scenario.job0 (S 300 + more)
                      Scenario.w0
    = WatchVideoJob.run Scenario.completing Scenario.client0 Scenario.job0 (S 300)
                        Scenario.w0.
Proof.
  apply (watch_video_run_ends Scenario.completing Scenario.client0 Scenario.job0 300
           Scenario.w0).
  - cbn. lia.
  - cbn. lia.
Defined.

(** ** A run without a template *)

(** X9. Without a payload template the polling loop contacts nobody: all
    it does is sleep, [interval_seconds] at a time. *)
Theorem loop_without_template_only_sleeps
        (E : env) (client : MoodleClient) (self : WatchVideoJob.t) (fuel : nat)
        (cx : WatchVideoJob.context) (start end_ : Q) (w : world) :
  WatchVideoJob.truthy_template (WatchVideoJob.payload_template self) = false ->
  Forall (fun ev => exists t,
              ev = EvSleep t (inject_Z (WatchVideoJob.interval_seconds self)))
         (new_events w (snd (WatchVideoJob.loop E client self fuel cx start end_ w))).
Proof.
  intros Hno.
  assert (H : forall w,
             exists evs,
               trace (snd (WatchVideoJob.loop E client self fuel cx start end_ w))
               = (trace w ++ evs)%list /\
               Forall (fun ev => exists t,
                           ev = EvSleep t (inject_Z (WatchVideoJob.interval_seconds self)))
                      evs).
  { clear w. induction fuel as [|fuel IH]; intros w; cbn [WatchVideoJob.loop].
    - exists []. rewrite app_nil_r. split; [reflexivity | constructor].
    - unfold bind at 1. rewrite time_time_run.
      destruct (Qltb (clock w) end_);
        [|exists []; rewrite app_nil_r; split; [reflexivity | constructor]].
      unfold bind at 1. unfold WatchVideoJob.iteration.
      unfold bind at 1. rewrite time_time_run.
      unfold bind at 1. rewrite time_time_run.
      rewrite Hno. cbn [negb]. unfold bind at 1.
      destruct (time_sleep_cases E (inject_Z (WatchVideoJob.interval_seconds self)) w)
        as [[_ Hs] | [_ (w' & Hs & (Ht & _) & _)]]; rewrite Hs.
      + exists []. cbn [snd]. rewrite app_nil_r. split; [reflexivity | constructor].
      + unfold ret. destruct (IH w') as (evs & He & Hf).
        exists (EvSleep (clock w) (inject_Z (WatchVideoJob.interval_seconds self)) :: evs).
        split.
        * rewrite He, Ht, <- app_assoc. reflexivity.
        * constructor; [eexists; reflexivity | exact Hf]. }
  destruct (H w) as (evs & Ht & Hf). rewrite (new_events_app _ _ _ Ht). exact Hf.
Qed.

Lemma loop_without_template_only_sleeps_witness :
  Forall (fun ev => exists t,
              ev = EvSleep t (inject_Z (WatchVideoJob.interval_seconds Cases.job_idle)))
         (new_events Scenario.w0
            (snd (WatchVideoJob.loop (Scenario.always 200) Scenario.client0 Cases.job_idle 5
                    Scenario.context0 1000 1120 Scenario.w0))).
Proof.
  apply (loop_without_template_only_sleeps (Scenario.always 200) Scenario.client0
           Cases.job_idle 5 Scenario.context0 1000 1120 Scenario.w0).
  reflexivity.
Defined.

(** ** Which videos the batch runs *)

Section BatchItems.
Variable E : env.
Variable client : MoodleClient.
Variable self : WatchCourseIncompleteJob.t.

(** The loop of the batch runs the videos in the order of the list; it
    leaves none out unless a run was cut short by the model's rounds. *)
Lemma watch_items_runs (fuel : nat) (items : list VideoItem) :
  forall w outs,
    fst (WatchCourseIncompleteJob.watch_items E client self fuel items w) = Ok outs ->
    map fst outs = map vi_id (firstn (List.length outs) items) /\
    (Forall (fun o => snd o <> Unfinished) outs -> List.length outs = List.length items).
Proof.
  induction items as [|it items IH]; intros w outs; cbn [WatchCourseIncompleteJob.watch_items].
  - unfold ret. cbn. intros H. injection H as <-. split; reflexivity.
  - unfold bind at 1.
    destruct (WatchVideoJob.run E client _ fuel w) as [[o | e] w1]; [|discriminate].
    assert (Hgo : fst ((time_sleep E (inject_Z (WatchCourseIncompleteJob.gap_seconds self)) ;;
                        outs <- WatchCourseIncompleteJob.watch_items E client self fuel items ;;
                        ret ((vi_id it, o) :: outs)) w1) = Ok outs ->
                  o <> Unfinished ->
                  map fst outs = map vi_id (firstn (List.length outs) (it :: items)) /\
                  (Forall (fun o => snd o <> Unfinished) outs ->
                   List.length outs = List.length (it :: items))).
    { unfold bind at 1.
      destruct (time_sleep E _ w1) as [[[] | e] w2]; [|discriminate].
      unfold bind.
      destruct (WatchCourseIncompleteJob.watch_items E client self fuel items w2)
        as [[outs' | e] w3] eqn:Hrest; [|discriminate].
      unfold ret. cbn [fst]. intros H _. injection H as <-.
      destruct (IH w2 outs') as (Hm & Hall); [rewrite Hrest; reflexivity|].
      cbn [List.length firstn map fst]. split; [f_equal; exact Hm|].
      intros Hf. inversion Hf; subst. f_equal. apply Hall. assumption. }
    destruct o; try (intros H; apply Hgo; [exact H | discriminate]).
    unfold ret. cbn [fst]. intros H. injection H as <-. split; [reflexivity|].
    intros Hf. inversion Hf; subst. cbn [snd] in *. contradiction.
Qed.
End BatchItems.

Lemma firstn_slice_length {A} (items : list A) (n : Z) :
  0 <= n -> Z.of_nat (List.length (py_slice_to items n)) <= n.
Proof.
  intros Hn. unfold py_slice_to.
  replace (0 <=? n) with true by (symmetry; apply Z.leb_le; exact Hn).
  rewrite length_firstn. lia.
Qed.

(** X10. The videos a batch runs are the ones that [ListCourseVideosJob]
    lists for the course with [only_incomplete], cut to [limit]: in the
    order of the page, each once per entry of the list, none left out when
    the batch returns. With a limit of 0 or more, no more than that many
    are run. *)
Theorem batch_runs_the_listed_videos
        (E : env) (client : MoodleClient) (self : WatchCourseIncompleteJob.t)
        (fuel : nat) (w : world) (outs : list (Z * outcome)) :
  let listing :=
    ListCourseVideosJob.run E client
      {| ListCourseVideosJob.course_id := WatchCourseIncompleteJob.course_id self;
         ListCourseVideosJob.only_incomplete := true |} w in
  fst (WatchCourseIncompleteJob.run E client self fuel w) = Ok outs ->
  exists items,
    fst listing = Ok items /\
    Forall (fun it => vi_incomplete it = Some true) items /\
    let chosen :=
      match WatchCourseIncompleteJob.limit self with
      | Some n => py_slice_to items n
      | None => items
      end in
    map fst outs = map vi_id (firstn (List.length outs) chosen) /\
    (Forall (fun o => snd o <> Unfinished) outs -> map fst outs = map vi_id chosen) /\
    (forall n, WatchCourseIncompleteJob.limit self = Some n -> 0 <= n ->
               Z.of_nat (List.length outs) <= n).
Proof.
  intros listing. subst listing.
  unfold WatchCourseIncompleteJob.run, ListCourseVideosJob.run, bind.
  change (ListCourseVideosJob.course_path _) with (WatchCourseIncompleteJob.course_path self).
  destruct (get_text E client (WatchCourseIncompleteJob.course_path self) w)
    as [[page | e] w1]; [|discriminate].
  cbn [ListCourseVideosJob.only_incomplete].
  set (items := filter WatchCourseIncompleteJob.is_incomplete (parse_course_fsresources E page)).
  intros Hrun. exists items. unfold ret. cbn [fst].
  split; [reflexivity|]. split.
  { apply Forall_forall. intros it Hin. subst items. apply filter_In in Hin.
    destruct Hin as [_ Hinc]. unfold WatchCourseIncompleteJob.is_incomplete in Hinc.
    destruct (vi_incomplete it) as [[|]|]; [reflexivity | discriminate | discriminate]. }
  cbv zeta.
  set (chosen := match WatchCourseIncompleteJob.limit self with
                 | Some n => py_slice_to items n
                 | None => items
                 end).
  assert (Hw : fst (WatchCourseIncompleteJob.watch_items E client self fuel chosen w1)
               = Ok outs).
  { destruct items as [|it items'] eqn:Hitems; [|exact Hrun].
    unfold ret in Hrun. cbn [fst] in Hrun. injection Hrun as <-.
    subst chosen. destruct (WatchCourseIncompleteJob.limit self) as [n|]; [|reflexivity].
    unfold py_slice_to. destruct (0 <=? n); rewrite firstn_nil; reflexivity. }
  destruct (watch_items_runs E client self fuel chosen w1 outs Hw) as (Hm & Hall).
  split; [exact Hm | split].
  - intros Hf. rewrite Hm, (Hall Hf), firstn_all. reflexivity.
  - intros n Hl Hn.
    assert (Hlen : (List.length outs <= List.length chosen)%nat).
    { apply (f_equal (@List.length Z)) in Hm. rewrite !length_map, length_firstn in Hm. lia. }
    pose proof (firstn_slice_length items n Hn) as Hs.
    subst chosen. rewrite Hl in Hlen. lia.
Qed.

Lemma batch_runs_the_listed_videos_witness :
  exists items,
    fst (ListCourseVideosJob.run Scenario.no_sesskey_pages Scenario.client0
           {| ListCourseVideosJob.course_id :=
                WatchCourseIncompleteJob.course_id Scenario.batch0;
              ListCourseVideosJob.only_incomplete := true |} Scenario.w0) = Ok items /\
    Forall (fun it => vi_incomplete it = Some true) items /\
    let chosen :=
      match WatchCourseIncompleteJob.limit Scenario.batch0 with
      | Some n => py_slice_to items n
      | None => items
      end in
    map fst [(11, AbortedNoSesskey); (12, AbortedNoSesskey)]
    = map vi_id (firstn (List.length [(11, AbortedNoSesskey); (12, AbortedNoSesskey)]) chosen) /\
    (Forall (fun o => snd o <> Unfinished) [(11, AbortedNoSesskey); (12, AbortedNoSesskey)] ->
     map fst [(11, AbortedNoSesskey); (12, AbortedNoSesskey)] = map vi_id chosen) /\
    (forall n, WatchCourseIncompleteJob.limit Scenario.batch0 = Some n -> 0 <= n ->
               Z.of_nat (List.length [(11, AbortedNoSesskey); (12, AbortedNoSesskey)]) <= n).
Proof.
  apply (batch_runs_the_listed_videos Scenario.no_sesskey_pages Scenario.client0
           Scenario.batch0 3 Scenario.w0 [(11, AbortedNoSesskey); (12, AbortedNoSesskey)]).
  vm_compute. reflexivity.
Defined.

(** ** The probe *)

(** X11. Once the page is fetched, [ProbeServiceJob.run] resolves its
    values without raising, whatever the page holds and whatever the server
    answers: the call for the course module and the conversion of the
    module id sit inside its [try]. *)
Theorem probe_resolution_never_raises
        (E : env) (client : MoodleClient) (self : ProbeServiceJob.t) (page : string)
        (w : world) :
  exists cx, fst (ProbeServiceJob.resolve E client self page w) = Ok cx.
Proof.
  unfold ProbeServiceJob.resolve.
  destruct (parse_m_cfg_dict page) as (d & ->).
  destruct (extract_fsresource_info_total page) as (info & -> & _).
  unfold bind, lift, ret, try_except. cbn [py_get].
  match goal with |- context [if ?b then _ else _] => destruct b end.
  - destruct (py_int E (get_or_none d "contextInstanceId")) as [cmid | e];
      [|eexists; reflexivity].
    destruct (get_course_module_info E client cmid (Some page) w) as [[cm | e] w1];
      [|eexists; reflexivity].
    destruct (py_get cm "instance"); eexists; reflexivity.
  - eexists. reflexivity.
Qed.

(** X12. Where [WatchVideoJob.run] resolves its values for a page, the
    probe of the same video resolves the same sesskey, course id, module
    id and resource id, with the same requests; so the payload text it
    fills in is the one the watcher fills in for the time 3. *)
Theorem probe_fills_like_the_watcher
        (E : env) (client : MoodleClient) (probe : ProbeServiceJob.t)
        (job : WatchVideoJob.t) (page : string) (w w1 : world)
        (cx : WatchVideoJob.context) :
  ProbeServiceJob.video_id probe = WatchVideoJob.video_id job ->
  WatchVideoJob.resolve E client job page w = (Ok cx, w1) ->
  exists pcx,
    ProbeServiceJob.resolve E client probe page w = (Ok pcx, w1) /\
    ProbeServiceJob.sesskey pcx = WatchVideoJob.sesskey cx /\
    ProbeServiceJob.course_id pcx = WatchVideoJob.course_id cx /\
    ProbeServiceJob.context_instance_id pcx = WatchVideoJob.context_instance_id cx /\
    ProbeServiceJob.fsresourceid pcx
    = WatchVideoJob.fsresourceid (loop_context job (py_truthy E) cx) /\
    forall template timestamp,
      ProbeServiceJob.fill_template E probe template pcx timestamp
      = WatchVideoJob.fill_template E job template (loop_context job (py_truthy E) cx)
                                    timestamp 3.
Proof.
  intros Hid. unfold WatchVideoJob.resolve, ProbeServiceJob.resolve.
  destruct (parse_m_cfg_dict page) as (d & ->).
  destruct (extract_fsresource_info_total page) as (info & -> & _).
  unfold bind, lift, ret, try_except, catch_default, rbind. cbn [py_get].
  assert (Hfill : forall pcx c,
             ProbeServiceJob.sesskey pcx = WatchVideoJob.sesskey c ->
             ProbeServiceJob.course_id pcx = WatchVideoJob.course_id c ->
             ProbeServiceJob.context_instance_id pcx = WatchVideoJob.context_instance_id c ->
             ProbeServiceJob.fsresourceid pcx = WatchVideoJob.fsresourceid c ->
             forall template timestamp,
               ProbeServiceJob.fill_template E probe template pcx timestamp
               = WatchVideoJob.fill_template E job template c timestamp 3).
  { intros pcx c H1 H2 H3 H4 template timestamp.
    unfold ProbeServiceJob.fill_template, WatchVideoJob.fill_template,
      ProbeServiceJob.substitutions, WatchVideoJob.substitutions.
    rewrite H1, H2, H3, H4, Hid. reflexivity. }
  assert (Hdone : forall sk cid ctx fsid st tg,
             let c := {| WatchVideoJob.html := page; WatchVideoJob.sesskey := sk;
                         WatchVideoJob.sessiontimeout := st; WatchVideoJob.course_id := cid;
                         WatchVideoJob.context_instance_id := ctx;
                         WatchVideoJob.fsresourceid := fsid;
                         WatchVideoJob.target := tg |} in
             let pcx := {| ProbeServiceJob.html := page; ProbeServiceJob.sesskey := sk;
                           ProbeServiceJob.course_id := cid;
                           ProbeServiceJob.context_instance_id := ctx;
                           ProbeServiceJob.fsresourceid :=
                             if negb (py_truthy E fsid)
                             then PInt (ProbeServiceJob.video_id probe) else fsid |} in
             ProbeServiceJob.sesskey pcx = WatchVideoJob.sesskey c /\
             ProbeServiceJob.course_id pcx = WatchVideoJob.course_id c /\
             ProbeServiceJob.context_instance_id pcx = WatchVideoJob.context_instance_id c /\
             ProbeServiceJob.fsresourceid pcx
             = WatchVideoJob.fsresourceid (loop_context job (py_truthy E) c) /\
             forall template timestamp,
               ProbeServiceJob.fill_template E probe template pcx timestamp
               = WatchVideoJob.fill_template E job template
                   (loop_context job (py_truthy E) c) timestamp 3).
  { intros sk cid ctx fsid st tg c pcx.
    assert (Hf : ProbeServiceJob.fsresourceid pcx
                 = WatchVideoJob.fsresourceid (loop_context job (py_truthy E) c)).
    { subst pcx c. unfold loop_context. cbn. rewrite Hid.
      destruct (negb (py_truthy E fsid)); reflexivity. }
    repeat split; try exact Hf.
    apply Hfill; try exact Hf;
      subst pcx c; unfold loop_context; cbn; destruct (negb (py_truthy E fsid)); reflexivity. }
  destruct (py_truthy E (get_or_none d "sessiontimeout"));
    [destruct (py_int E (get_or_none d "sessiontimeout")); [|discriminate]|];
    (match goal with
     | |- context [if negb (WatchVideoJob.truthy_int ?t) && ?b then _ else _] =>
         destruct (negb (WatchVideoJob.truthy_int t) && b);
         [destruct (py_int E (get_or_none info "duration")); [|discriminate]|]
     end);
    (match goal with
     | |- context [if negb (py_truthy E (get_or_none info "fsresourceid")) && ?b
                   then _ else _] =>
         destruct (negb (py_truthy E (get_or_none info "fsresourceid")) && b)
     end);
    try (destruct (py_int E (get_or_none d "contextInstanceId")) as [cmid | e];
         [|discriminate];
         destruct (get_course_module_info E client cmid (Some page) w) as [[cm | e] w2];
         [|discriminate];
         destruct (py_get cm "instance"));
    intros H; injection H as <- <-; eexists; (split; [reflexivity|]); apply Hdone.
Qed.

Lemma probe_fills_like_the_watcher_witness :
  exists pcx,
    ProbeServiceJob.resolve Scenario.completing Scenario.client0 Cases.probe0
                            Scenario.page_playerdata Scenario.w0 = (Ok pcx, Scenario.w0) /\
    ProbeServiceJob.sesskey pcx = WatchVideoJob.sesskey Scenario.context0 /\
    ProbeServiceJob.course_id pcx = WatchVideoJob.course_id Scenario.context0 /\
    ProbeServiceJob.context_instance_id pcx
    = WatchVideoJob.context_instance_id Scenario.context0 /\
    ProbeServiceJob.fsresourceid pcx
    = WatchVideoJob.fsresourceid
        (loop_context Scenario.job0 (py_truthy Scenario.completing) Scenario.context0) /\
    forall template timestamp,
      ProbeServiceJob.fill_template Scenario.completing Cases.probe0 template pcx timestamp
      = WatchVideoJob.fill_template Scenario.completing Scenario.job0 template
          (loop_context Scenario.job0 (py_truthy Scenario.completing) Scenario.context0)
          timestamp 3.
Proof.
  apply (probe_fills_like_the_watcher Scenario.completing Scenario.client0 Cases.probe0
           Scenario.job0 Scenario.page_playerdata Scenario.w0 Scenario.w0 Scenario.context0).
  - reflexivity.
  - vm_compute. reflexivity.
Defined.

(** ** [parsers.py]: one entry for every key *)

Section Dedupe.
Context {A K : Type} (key : A -> K) (eqb : K -> K -> bool).
Hypothesis eqb_eq : forall a b, eqb a b = true <-> a = b.

Lemma existsb_eqb (k : K) (seen : list K) : existsb (eqb k) seen = true <-> In k seen.
Proof.
  rewrite existsb_exists. split.
  - intros (x & Hin & He). apply eqb_eq in He. subst. exact Hin.
  - intros Hin. exists k. split; [exact Hin | apply eqb_eq; reflexivity].
Qed.

Lemma existsb_eqb_false (k : K) (seen : list K) :
  existsb (eqb k) seen = false <-> ~ In k seen.
Proof.
  rewrite <- existsb_eqb. destruct (existsb (eqb k) seen); split; intros H;
    try reflexivity; try discriminate; try (intros H'; discriminate); exfalso; auto.
Qed.

(** What is kept comes from the list and has a key not seen before. *)
Lemma dedupe_by_in (xs : list A) :
  forall seen x,
    In x (Parsers.dedupe_by key eqb seen xs) -> In x xs /\ ~ In (key x) seen.
Proof.
  induction xs as [|y xs IH]; intros seen x; cbn [Parsers.dedupe_by]; [intros []|].
  destruct (existsb (eqb (key y)) seen) eqn:Hs.
  - intros H. apply IH in H. destruct H as [Hin Hn]. split; [right; exact Hin | exact Hn].
  - apply existsb_eqb_false in Hs. intros [<- | H].
    + split; [left; reflexivity | exact Hs].
    + apply IH in H. destruct H as [Hin Hn].
      split; [right; exact Hin | intros Hk; apply Hn; right; exact Hk].
Qed.

Lemma dedupe_by_nodup (xs : list A) :
  forall seen, NoDup (map key (Parsers.dedupe_by key eqb seen xs)).
Proof.
  induction xs as [|y xs IH]; intros seen; cbn [Parsers.dedupe_by]; [constructor|].
  destruct (existsb (eqb (key y)) seen); [apply IH|].
  cbn [map]. constructor; [|apply IH].
  intros Hin. apply in_map_iff in Hin. destruct Hin as (x & Hk & Hx).
  apply dedupe_by_in in Hx. destruct Hx as [_ Hn]. apply Hn. left. symmetry. exact Hk.
Qed.

(** No key of the list is lost. *)
Lemma dedupe_by_complete (xs : list A) :
  forall seen x,
    In x xs ->
    In (key x) seen \/ exists x', In x' (Parsers.dedupe_by key eqb seen xs) /\ key x' = key x.
Proof.
  induction xs as [|y xs IH]; intros seen x; [intros []|].
  cbn [Parsers.dedupe_by]. intros [-> | Hin].
  - destruct (existsb (eqb (key x)) seen) eqn:Hs.
    + left. apply existsb_eqb. exact Hs.
    + right. exists x. split; [left; reflexivity | reflexivity].
  - destruct (existsb (eqb (key y)) seen) eqn:Hs.
    + apply IH. exact Hin.
    + destruct (IH (key y :: seen) x Hin) as [[Hk | Hk] | (x' & Hx' & Hk)].
      * right. exists y. split; [left; reflexivity | exact Hk].
      * left. exact Hk.
      * right. exists x'. split; [right; exact Hx' | exact Hk].
Qed.

(** The entry kept for a key is the first of the list with that key. *)
Lemma dedupe_by_first (xs : list A) :
  forall seen x,
    In x (Parsers.dedupe_by key eqb seen xs) ->
    find (fun y => eqb (key y) (key x)) xs = Some x.
Proof.
  induction xs as [|y xs IH]; intros seen x; cbn [Parsers.dedupe_by]; [intros []|].
  cbn [find]. destruct (existsb (eqb (key y)) seen) eqn:Hs.
  - intros H. pose proof (dedupe_by_in _ _ _ H) as [_ Hn].
    destruct (eqb (key y) (key x)) eqn:He; [|eapply IH; exact H].
    apply eqb_eq in He. apply existsb_eqb in Hs. rewrite He in Hs. contradiction.
  - intros [<- | H].
    + replace (eqb (key y) (key y)) with true by (symmetry; apply eqb_eq; reflexivity).
      reflexivity.
    + pose proof (dedupe_by_in _ _ _ H) as [_ Hn].
      destruct (eqb (key y) (key x)) eqn:He; [|eapply IH; exact H].
      apply eqb_eq in He. exfalso. apply Hn. left. exact He.
Qed.

(** Entries that differ under [f] still differ after the pass. *)
Lemma dedupe_by_nodup_map {B} (f : A -> B) (xs : list A) :
  forall seen, NoDup (map f xs) -> NoDup (map f (Parsers.dedupe_by key eqb seen xs)).
Proof.
  induction xs as [|y xs IH]; intros seen Hnd; cbn [Parsers.dedupe_by]; [constructor|].
  cbn [map] in Hnd. inversion Hnd as [|? ? Hy Hrest]; subst.
  destruct (existsb (eqb (key y)) seen); [apply IH, Hrest|].
  cbn [map]. constructor; [|apply IH, Hrest].
  intros Hin. apply Hy. apply in_map_iff in Hin. destruct Hin as (x & Hf & Hx).
  apply dedupe_by_in in Hx. destruct Hx as [Hx _].
  apply in_map_iff. exists x. auto.
Qed.

(** A list without two entries of a key is left as it is. *)
Lemma dedupe_by_fixed (xs : list A) :
  forall seen,
    NoDup (map key xs) -> (forall x, In x xs -> ~ In (key x) seen) ->
    Parsers.dedupe_by key eqb seen xs = xs.
Proof.
  induction xs as [|y xs IH]; intros seen Hnd Hseen; cbn [Parsers.dedupe_by]; [reflexivity|].
  cbn [map] in Hnd. inversion Hnd as [|? ? Hy Hrest]; subst.
  replace (existsb (eqb (key y)) seen) with false
    by (symmetry; apply existsb_eqb_false, Hseen; left; reflexivity).
  f_equal. apply IH; [exact Hrest|].
  intros x Hx [Hk | Hk].
  - apply Hy. rewrite Hk. apply in_map. exact Hx.
  - apply (Hseen x); [right; exact Hx | exact Hk].
Qed.
End Dedupe.

Lemma key_eqb_eq (a b : Parsers.course_key) : Parsers.key_eqb a b = true <-> a = b.
Proof.
  destruct a as [x | x], b as [y | y]; cbn [Parsers.key_eqb].
  - rewrite Z.eqb_eq. split; [intros ->; reflexivity | intros H; injection H; auto].
  - split; discriminate.
  - split; discriminate.
  - rewrite String.eqb_eq. split; [intros ->; reflexivity | intros H; injection H; auto].
Qed.

(** X13. [_dedupe] keeps, for every key [c.id or c.url] of the list, the
    first course with that key and no other: the keys of the result are
    distinct, every key of the list is among them, and a second pass
    changes nothing. *)
Theorem dedupe_keeps_the_first_of_each_key (courses : list Parsers.Course) :
  let kept := Parsers._dedupe courses in
  NoDup (map Parsers.key_of kept) /\
  (forall c, In c courses -> exists c', In c' kept /\ Parsers.key_of c' = Parsers.key_of c) /\
  (forall c, In c kept ->
             find (fun y => Parsers.key_eqb (Parsers.key_of y) (Parsers.key_of c)) courses
             = Some c) /\
  Parsers._dedupe kept = kept.
Proof.
  intros kept. subst kept. unfold Parsers._dedupe. repeat split.
  - apply dedupe_by_nodup, key_eqb_eq.
  - intros c Hin.
    destruct (dedupe_by_complete Parsers.key_of Parsers.key_eqb key_eqb_eq courses [] c Hin)
      as [[] | H]; exact H.
  - intros c Hin. eapply dedupe_by_first; [apply key_eqb_eq | exact Hin].
  - apply dedupe_by_fixed; [apply key_eqb_eq | apply dedupe_by_nodup, key_eqb_eq | auto].
Qed.

(** ** [parsers.py]: the courses of the overview *)

Lemma or_default_nonempty (a : option string) (d : string) :
  d <> EmptyString -> Parsers.or_default a d <> EmptyString.
Proof.
  intros Hd. unfold Parsers.or_default. destruct a as [s|]; [|exact Hd].
  destruct s; [exact Hd | discriminate].
Qed.

Lemma nonempty_neq (s : string) : Extract.nonempty s = true -> s <> EmptyString.
Proof. destruct s; [discriminate | intros _; discriminate]. Qed.

Lemma consider_anchor_gathers (anchors : list Parsers.anchor) (a : Parsers.anchor)
      (st : list Parsers.Course * list string) :
  In a anchors -> gathered anchors st -> gathered anchors (Parsers.consider_anchor a st).
Proof.
  intros Ha (Hnd & Hseen & Hall). unfold Parsers.consider_anchor.
  destruct (Parsers.a_href a) as [href|] eqn:Hh; [|repeat split; assumption].
  destruct (Extract.nonempty href) eqn:Hne; cbn [negb]; [|repeat split; assumption].
  destruct (search Parsers.COURSE_LINK_RE href) as [m|]; [|repeat split; assumption].
  destruct (existsb (String.eqb href) (snd st)) eqn:Hs; [repeat split; assumption|].
  assert (Hnew : ~ In href (snd st)).
  { intros Hin. apply (existsb_eqb_false String.eqb String.eqb_eq) in Hs. contradiction. }
  unfold gathered. cbn [fst snd]. repeat split.
  - rewrite map_app. cbn [map Parsers.c_url]. apply NoDup_app; repeat split.
    + exact Hnd.
    + constructor; [intros [] | constructor].
    + intros u Hu [<- | []]. apply Hnew.
      apply in_map_iff in Hu. destruct Hu as (c & <- & Hc). apply Hseen, Hc.
  - intros c Hc. apply in_app_or in Hc. destruct Hc as [Hc | [<- | []]].
    + right. apply Hseen, Hc.
    + left. reflexivity.
  - apply Forall_app. split; [exact Hall|]. constructor; [|constructor].
    unfold listed_course. cbn [Parsers.c_name Parsers.c_url]. repeat split.
    + apply or_default_nonempty, nonempty_neq, Hne.
    + apply nonempty_neq, Hne.
    + exists a. auto.
Qed.

Lemma fold_consider_gathers (anchors todo : list Parsers.anchor) :
  forall st,
    incl todo anchors -> gathered anchors st ->
    gathered anchors (fold_left (fun st a => Parsers.consider_anchor a st) todo st).
Proof.
  induction todo as [|a todo IH]; intros st Hincl Hst; cbn [fold_left]; [exact Hst|].
  apply IH.
  - intros x Hx. apply Hincl. right. exact Hx.
  - apply consider_anchor_gathers; [apply Hincl; left; reflexivity | exact Hst].
Qed.

(** X14. [parse_overview_courses] lists no link twice and no key
    [c.id or c.url] twice; every course it lists has a name that is not
    empty and, as its URL, the link of one of the anchors it was given. *)
Theorem overview_courses_are_distinct (containers : list (list Parsers.anchor)) :
  let courses := Parsers.parse_overview_courses containers in
  NoDup (map Parsers.c_url courses) /\
  NoDup (map Parsers.key_of courses) /\
  Forall (listed_course (List.concat containers)) courses.
Proof.
  intros courses. subst courses. unfold Parsers.parse_overview_courses, Parsers._dedupe.
  destruct (fold_consider_gathers (List.concat containers) (List.concat containers) ([], []))
    as (Hnd & _ & Hall).
  { apply incl_refl. }
  { repeat split; [constructor | intros c [] | constructor]. }
  repeat split.
  - apply dedupe_by_nodup_map; [apply key_eqb_eq | exact Hnd].
  - apply dedupe_by_nodup, key_eqb_eq.
  - apply Forall_forall. intros c Hc.
    apply (dedupe_by_in Parsers.key_of Parsers.key_eqb key_eqb_eq) in Hc.
    destruct Hc as [Hc _]. rewrite Forall_forall in Hall. apply Hall, Hc.
Qed.

(** ** [parsers.py]: the videos of a course page *)

Lemma search_link_nonempty (href : string) (m : rmatched) :
  search Parsers.FSRESOURCE_LINK_RE href = Some m -> href <> EmptyString.
Proof. intros H ->. vm_compute in H. discriminate. Qed.

Lemma parse_activity_listed (li : Parsers.activity) (it : VideoItem) :
  Parsers.parse_activity li = Ok (Some it) -> listed_video it.
Proof.
  unfold Parsers.parse_activity, rbind.
  destruct (search Parsers.FSRESOURCE_LINK_RE _) as [m|].
  - destruct (int_of_str (group m 1)) as [vid|]; [|discriminate].
    destruct (Parsers.li_link li) as [a|]; [|discriminate].
    destruct (Parsers.li_icon li) as [ic|];
      [destruct (contains_str "/f/video" _)|];
      intros H; injection H as <-; split; apply or_default_nonempty; discriminate.
  - destruct (Parsers.li_icon li) as [ic|]; [|discriminate].
    destruct (contains_str "/f/video" _); [|discriminate].
    destruct (Parsers.i_data_id ic) as [d|]; [|discriminate].
    destruct (int_of_str d) as [z|]; [|discriminate].
    destruct (match Parsers.li_link li with Some a => Parsers.a_href a | None => None end)
      as [h|];
      intros H; injection H as <-; split; cbn [vi_name vi_url];
      first [ apply or_default_nonempty; discriminate
            | discriminate
            | destruct h; cbn; discriminate ].
Qed.

Lemma parse_activities_listed (lis : list Parsers.activity) :
  forall items, Parsers.parse_activities lis = Ok items -> Forall listed_video items.
Proof.
  induction lis as [|li lis IH]; intros items; cbn [Parsers.parse_activities].
  - intros H. injection H as <-. constructor.
  - unfold rbind. destruct (Parsers.parse_activity li) as [r|] eqn:Hli; [|discriminate].
    destruct (Parsers.parse_activities lis) as [rest|]; [|discriminate].
    intros H. injection H as <-. specialize (IH rest eq_refl).
    destruct r as [it|]; [|exact IH].
    constructor; [eapply parse_activity_listed; exact Hli | exact IH].
Qed.

(** What the loop over the links of the page gives: listed videos of
    unknown state. *)
Lemma fallback_links_listed (anchors : list Parsers.anchor) :
  forall items,
    Parsers.fallback_links anchors = Ok items ->
    Forall (fun it => listed_video it /\ vi_incomplete it = None) items.
Proof.
  induction anchors as [|a anchors IH]; intros items; cbn [Parsers.fallback_links].
  - intros H. injection H as <-. constructor.
  - destruct (Parsers.a_href a) as [href|]; [|discriminate].
    unfold rbind.
    destruct (search Parsers.FSRESOURCE_LINK_RE href) as [m|] eqn:Hm.
    + destruct (int_of_str (group m 1)) as [vid|]; [|discriminate].
      destruct (Parsers.fallback_links anchors) as [rest|]; [|discriminate].
      intros H. injection H as <-. constructor; [|apply IH; reflexivity].
      split; [split|reflexivity]; cbn [vi_name vi_url].
      * apply or_default_nonempty. discriminate.
      * eapply search_link_nonempty; exact Hm.
    + destruct (Parsers.fallback_links anchors) as [rest|]; [|discriminate].
      intros H. injection H as <-. apply IH. reflexivity.
Qed.

(** What [parse_course_fsresources] lists. *)
Lemma course_videos_listed (soup : Parsers.course_page) (items : list VideoItem) :
  Parsers.parse_course_fsresources soup = Ok items ->
  NoDup (map vi_id items) /\ Forall listed_video items.
Proof.
  unfold Parsers.parse_course_fsresources, rbind.
  destruct (Parsers.parse_activities (Parsers.activities soup)) as [found|] eqn:Hf;
    [|discriminate].
  assert (Hall : forall all,
             match found with
             | [] => Parsers.fallback_links (Parsers.links soup)
             | _ => Ok found
             end = Ok all -> Forall listed_video all).
  { intros all Hall. destruct found as [|it found'].
    - apply fallback_links_listed in Hall.
      eapply Forall_impl; [|exact Hall]. intros x [Hx _]. exact Hx.
    - injection Hall as <-. eapply parse_activities_listed; exact Hf. }
  destruct (match found with [] => _ | _ => _ end) as [all|]; [|discriminate].
  intros H. injection H as <-. split.
  - apply dedupe_by_nodup. intros a b. apply Z.eqb_eq.
  - apply Forall_forall. intros it Hit.
    apply (dedupe_by_in vi_id Z.eqb (fun a b => Z.eqb_eq a b)) in Hit.
    destruct Hit as [Hit _]. specialize (Hall all eq_refl).
    rewrite Forall_forall in Hall. apply Hall, Hit.
Qed.

(** X15. The videos that [parse_course_fsresources] lists have distinct
    ids, and each has a name and a URL that are not empty. *)
Theorem course_videos_are_distinct (soup : Parsers.course_page) (items : list VideoItem) :
  Parsers.parse_course_fsresources soup = Ok items ->
  NoDup (map vi_id items) /\ Forall listed_video items.
Proof. apply course_videos_listed. Qed.

Lemma course_videos_are_distinct_witness :
  NoDup (map vi_id
           [ {| vi_id := 77; vi_name := "Lecture 1";
                vi_url := "https://moodle.example/mod/fsresource/view.php?id=77";
                vi_incomplete := Some false |};
             {| vi_id := 78; vi_name := "fsresource-78";
                vi_url := "/mod/fsresource/view.php?id=78";
                vi_incomplete := Some true |} ]) /\
  Forall listed_video
         [ {| vi_id := 77; vi_name := "Lecture 1";
              vi_url := "https://moodle.example/mod/fsresource/view.php?id=77";
              vi_incomplete := Some false |};
           {| vi_id := 78; vi_name := "fsresource-78";
              vi_url := "/mod/fsresource/view.php?id=78";
              vi_incomplete := Some true |} ].
Proof.
  apply (course_videos_are_distinct Cases.page_of_activities).
  vm_compute. reflexivity.
Defined.

Lemma strip_prefix_contains (p k s r : string) :
  strip_prefix (p ++ k) s = Some r -> contains_str k s = true.
Proof.
  revert s. induction p as [|c p IH]; intros s H.
  - cbn [append] in H. destruct s; cbn [contains_str]; unfold startswith; rewrite H; reflexivity.
  - cbn [append strip_prefix] in H. destruct s as [|b s]; [discriminate|].
    destruct (Ascii.eqb c b); [|discriminate].
    cbn [contains_str]. rewrite (IH s H). apply orb_true_r.
Qed.

(** A text that holds [p ++ k] holds [k]. *)
Lemma contains_str_suffix (p k s : string) :
  contains_str (p ++ k) s = true -> contains_str k s = true.
Proof.
  induction s as [|c s IH]; cbn [contains_str]; intros H;
    apply orb_prop in H; destruct H as [H | H].
  - unfold startswith in H.
    destruct (strip_prefix (p ++ k) EmptyString) as [r|] eqn:Hp; [|discriminate].
    change (contains_str k EmptyString = true). eapply strip_prefix_contains; exact Hp.
  - discriminate.
  - unfold startswith in H.
    destruct (strip_prefix (p ++ k) (String c s)) as [r|] eqn:Hp; [|discriminate].
    change (contains_str k (String c s) = true). eapply strip_prefix_contains; exact Hp.
  - rewrite (IH H). apply orb_true_r.
Qed.

(** X16. Where the completion element of an activity has no state
    attribute, the classes decide, and the test for completed comes first:
    a class that holds notcompleted holds completed, so the video is
    listed as complete (incomplete is False), whatever else the element
    shows, and is not among the videos that the batch runs. *)
Theorem notcompleted_class_reads_as_complete
        (li : Parsers.activity) (comp : Parsers.completion) (it : VideoItem) :
  Parsers.li_completion li = Some comp ->
  Parsers.or_else (Parsers.comp_completionstate comp) (Parsers.comp_state comp) = None ->
  contains_str "notcompleted" (String.concat " " (Parsers.comp_class comp)) = true ->
  Parsers.parse_activity li = Ok (Some it) ->
  vi_incomplete it = Some false /\ WatchCourseIncompleteJob.is_incomplete it = false.
Proof.
  intros Hcomp Hstate Hclass.
  assert (Hc : Parsers.completion_state comp = Some false).
  { unfold Parsers.completion_state. rewrite Hstate. cbv zeta.
    rewrite (contains_str_suffix "not" "completed" _ Hclass). reflexivity. }
  assert (Hinc : forall it, vi_incomplete it = Some false ->
                            vi_incomplete it = Some false /\
                            WatchCourseIncompleteJob.is_incomplete it = false).
  { intros x Hx. split; [exact Hx|].
    unfold WatchCourseIncompleteJob.is_incomplete. rewrite Hx. reflexivity. }
  unfold Parsers.parse_activity, rbind. rewrite Hcomp, Hc.
  destruct (search Parsers.FSRESOURCE_LINK_RE _) as [m|].
  - destruct (int_of_str (group m 1)) as [vid|]; [|discriminate].
    destruct (Parsers.li_link li) as [a|]; [|discriminate].
    destruct (Parsers.li_icon li) as [ic|];
      [destruct (contains_str "/f/video" _)|];
      intros H; injection H as <-; apply Hinc; reflexivity.
  - destruct (Parsers.li_icon li) as [ic|]; [|discriminate].
    destruct (contains_str "/f/video" _); [|discriminate].
    destruct (Parsers.i_data_id ic) as [d|]; [|discriminate].
    destruct (int_of_str d) as [z|]; [|discriminate].
    destruct (match Parsers.li_link li with Some a => Parsers.a_href a | None => None end);
      intros H; injection H as <-; apply Hinc; reflexivity.
Qed.

Lemma notcompleted_class_reads_as_complete_witness :
  vi_incomplete
    {| vi_id := 77; vi_name := "Lecture 1";
       vi_url := "https://moodle.example/mod/fsresource/view.php?id=77";
       vi_incomplete := Some false |} = Some false /\
  WatchCourseIncompleteJob.is_incomplete
    {| vi_id := 77; vi_name := "Lecture 1";
       vi_url := "https://moodle.example/mod/fsresource/view.php?id=77";
       vi_incomplete := Some false |} = false.
Proof.
  apply (notcompleted_class_reads_as_complete Cases.activity_notcompleted
           {| Parsers.comp_completionstate := None;
              Parsers.comp_state := None;
              Parsers.comp_class := ["activity-completion"; "notcompleted"] |}).
  - reflexivity.
  - reflexivity.
  - reflexivity.
  - vm_compute. reflexivity.
Defined.

(** X17. When no activity of the page gives a video, the links of the page
    are listed instead, each with an unknown state: [list-videos] shows
    them, and the batch, which asks for [incomplete is True], runs none. *)
Theorem fallback_videos_have_unknown_state
        (soup : Parsers.course_page) (items : list VideoItem) :
  Parsers.parse_activities (Parsers.activities soup) = Ok [] ->
  Parsers.parse_course_fsresources soup = Ok items ->
  Forall (fun it => vi_incomplete it = None) items /\
  filter WatchCourseIncompleteJob.is_incomplete items = [].
Proof.
  intros Hnone. unfold Parsers.parse_course_fsresources, rbind. rewrite Hnone.
  destruct (Parsers.fallback_links (Parsers.links soup)) as [all|] eqn:Hfb; [|discriminate].
  intros H. injection H as <-.
  apply fallback_links_listed in Hfb.
  assert (Hall : Forall (fun it => vi_incomplete it = None)
                        (Parsers.dedupe_by vi_id Z.eqb [] all)).
  { apply Forall_forall. intros it Hit.
    apply (dedupe_by_in vi_id Z.eqb (fun a b => Z.eqb_eq a b)) in Hit.
    destruct Hit as [Hit _]. rewrite Forall_forall in Hfb. apply Hfb, Hit. }
  split; [exact Hall|].
  induction Hall as [|it rest Hit _ IH]; [reflexivity|].
  cbn [filter]. unfold WatchCourseIncompleteJob.is_incomplete at 1. rewrite Hit. exact IH.
Qed.

Lemma fallback_videos_have_unknown_state_witness :
  Forall (fun it => vi_incomplete it = None)
         [ {| vi_id := 5; vi_name := "fsresource-5"; vi_url := "/mod/fsresource/view.php?id=5";
              vi_incomplete := None |} ] /\
  filter WatchCourseIncompleteJob.is_incomplete
         [ {| vi_id := 5; vi_name := "fsresource-5"; vi_url := "/mod/fsresource/view.php?id=5";
              vi_incomplete := None |} ] = [].
Proof.
  apply (fallback_videos_have_unknown_state Cases.page_of_links).
  - reflexivity.
  - vm_compute. reflexivity.
Defined.

(** ** [config.py] *)

Lemma rstrip_head (c : ascii) (s : string) :
  is_space c = false -> exists r, rstrip (String c s) = String c r.
Proof.
  intros Hc. cbn [rstrip]. destruct (rstrip s) as [|c' r].
  - rewrite Hc. exists EmptyString. reflexivity.
  - eexists. reflexivity.
Qed.

Lemma lstrip_head (s : string) :
  lstrip s = EmptyString \/ exists c r, lstrip s = String c r /\ is_space c = false.
Proof.
  induction s as [|c s IH]; cbn [lstrip]; [left; reflexivity|].
  destruct (is_space c) eqn:Hc; [exact IH|].
  right. exists c, s. split; [reflexivity | exact Hc].
Qed.

(** What [strip] gives is empty or starts with a character that is not
    white space. *)
Lemma strip_head (s : string) :
  strip s = EmptyString \/ exists c r, strip s = String c r /\ is_space c = false.
Proof.
  unfold strip. destruct (lstrip_head s) as [-> | (c & r & -> & Hc)].
  - left. reflexivity.
  - right. destruct (rstrip_head c r Hc) as (r' & ->). exists c, r'. auto.
Qed.

(** A text that [strip] gave is not blank. *)
Lemma strip_not_blank (s : string) :
  strip s <> EmptyString -> strip (strip s) <> EmptyString.
Proof.
  intros Hne. destruct (strip_head s) as [H | (c & r & H & Hc)]; [contradiction|].
  rewrite H. unfold strip. cbn [lstrip]. rewrite Hc.
  destruct (rstrip_head c r Hc) as (r' & ->). discriminate.
Qed.

Lemma not_blank_iff (o : option string) :
  Config.not_blank o = true <-> exists s, o = Some s /\ strip s <> EmptyString.
Proof.
  unfold Config.not_blank. destruct o as [s|].
  - split.
    + intros H. apply andb_prop in H. destruct H as [_ H].
      exists s. split; [reflexivity | apply nonempty_neq, H].
    + intros (s' & H & Hne). injection H as <-.
      destruct s as [|c s]; [contradiction|]. cbn [Extract.nonempty andb].
      destruct (strip (String c s)); [contradiction | reflexivity].
  - split; [discriminate | intros (s & H & _); discriminate].
Qed.

(** X18. [load_config] takes the cookie from the first of its three
    sources that is not blank: the full header as it is without the white
    space around it, else the session value, taken as it is, else the
    environment variable without the white space around it. The header is
    None exactly when all three are blank or missing, and a header that is
    there is never blank. *)
Theorem load_config_takes_the_first_source
        (cookie_header cookie_value moodle_session : option string) :
  let cfg := Config.load_config cookie_header cookie_value moodle_session in
  let from_env := strip (match moodle_session with Some s => s | None => EmptyString end) in
  (forall h, cookie_header = Some h -> strip h <> EmptyString ->
             Config.cookie_header cfg = Some (strip h)) /\
  (forall v, Config.not_blank cookie_header = false ->
             cookie_value = Some v -> strip v <> EmptyString ->
             Config.cookie_header cfg = Some ("MoodleSession=" ++ v)) /\
  (Config.not_blank cookie_header = false -> Config.not_blank cookie_value = false ->
   from_env <> EmptyString ->
   Config.cookie_header cfg = Some ("MoodleSession=" ++ from_env)) /\
  (Config.cookie_header cfg = None <->
   Config.not_blank cookie_header = false /\ Config.not_blank cookie_value = false /\
   from_env = EmptyString) /\
  (forall h, Config.cookie_header cfg = Some h -> strip h <> EmptyString).
Proof.
  intros cfg from_env. subst cfg. unfold Config.load_config. cbn [Config.cookie_header].
  fold from_env.
  assert (Hms : forall raw, strip ("MoodleSession=" ++ raw) <> EmptyString).
  { intros raw. unfold strip. cbn [append lstrip is_space nat_of_ascii].
    change (rstrip (String "M" ("oodleSession=" ++ raw)) <> EmptyString).
    destruct (rstrip_head "M" ("oodleSession=" ++ raw) eq_refl) as (r & ->). discriminate. }
  assert (Hvalue : forall raw, (if Extract.nonempty raw then Some ("MoodleSession=" ++ raw)
                                else None) = None <-> raw = EmptyString).
  { intros raw. destruct raw; cbn; split; try reflexivity; discriminate. }
  assert (Hblank : forall h, Config.not_blank (Some h) = false -> strip h <> EmptyString ->
                             False).
  { intros h Hb Hs.
    assert (Config.not_blank (Some h) = true) by (apply not_blank_iff; eauto).
    congruence. }
  destruct (Config.not_blank cookie_header) eqn:Hh.
  - apply not_blank_iff in Hh. destruct Hh as (h & -> & Hne).
    split; [|split; [|split; [|split; [split|]]]].
    + intros h' H _. injection H as <-. reflexivity.
    + discriminate.
    + discriminate.
    + discriminate.
    + intros (H & _). discriminate H.
    + intros h' H. injection H as <-. apply strip_not_blank, Hne.
  - assert (Hnone : match cookie_header with
                    | Some h => if false then Some (strip h) else None
                    | None => None
                    end = None) by (destruct cookie_header; reflexivity).
    rewrite Hnone.
    destruct (Config.not_blank cookie_value) eqn:Hv.
    + apply not_blank_iff in Hv. destruct Hv as (v & -> & Hne).
      assert (Hv : Extract.nonempty v = true).
      { destruct v; [contradiction | reflexivity]. }
      rewrite Hv.
      split; [|split; [|split; [|split; [split|]]]].
      * intros h -> Hs. exfalso. eapply Hblank; eauto.
      * intros v' _ H _. injection H as <-. reflexivity.
      * discriminate.
      * discriminate.
      * intros (_ & H & _). discriminate H.
      * intros h H. injection H as <-. apply Hms.
    + assert (Hraw : match cookie_value with
                     | Some v => if false then v else from_env
                     | None => from_env
                     end = from_env) by (destruct cookie_value; reflexivity).
      rewrite Hraw.
      split; [|split; [|split; [|split; [split|]]]].
      * intros h -> Hs. exfalso. eapply Hblank; eauto.
      * intros v _ -> Hs. exfalso. eapply Hblank; eauto.
      * intros _ _ Hne. destruct from_env; [contradiction | reflexivity].
      * intros H. apply Hvalue in H. auto.
      * intros (_ & _ & H). apply Hvalue. exact H.
      * intros h H. destruct from_env eqn:He; [discriminate|].
        injection H as <-. apply Hms.
Qed.

(** A cookie header that [load_config] gives is not blank. *)
Lemma load_config_nonblank (cookie_header cookie_value moodle_session : option string)
      (h : string) :
  Config.cookie_header (Config.load_config cookie_header cookie_value moodle_session) = Some h ->
  strip h <> EmptyString.
Proof.
  unfold Config.load_config. cbn [Config.cookie_header].
  assert (Hms : forall raw, strip ("MoodleSession=" ++ raw) <> EmptyString).
  { intros raw. unfold strip. cbn [append lstrip is_space nat_of_ascii].
    change (rstrip (String "M" ("oodleSession=" ++ raw)) <> EmptyString).
    destruct (rstrip_head "M" ("oodleSession=" ++ raw) eq_refl) as (r & ->). discriminate. }
  destruct cookie_header as [c|].
  - destruct (Config.not_blank (Some c)) eqn:Hb.
    + intros H. injection H as <-. apply strip_not_blank.
      apply not_blank_iff in Hb. destruct Hb as (s & Hs & Hne). injection Hs as <-. exact Hne.
    + match goal with |- context [if Extract.nonempty ?raw then _ else _] =>
        destruct (Extract.nonempty raw) end; [|discriminate].
      intros H. injection H as <-. apply Hms.
  - match goal with |- context [if Extract.nonempty ?raw then _ else _] =>
      destruct (Extract.nonempty raw) end; [|discriminate].
    intros H. injection H as <-. apply Hms.
Qed.

(** ** The progress that is written *)

Lemma digits2_pos_bounds (m : positive) :
  2 ^ (Z.pos (digits2_pos m) - 1) <= Z.pos m < 2 ^ Z.pos (digits2_pos m).
Proof.
  induction m as [m IH | m IH |]; cbn [digits2_pos].
  - rewrite Pos2Z.inj_succ. replace (Z.succ (Z.pos (digits2_pos m)) - 1)
      with (Z.succ (Z.pos (digits2_pos m) - 1)) by lia.
    rewrite !Z.pow_succ_r by lia. lia.
  - rewrite Pos2Z.inj_succ. replace (Z.succ (Z.pos (digits2_pos m)) - 1)
      with (Z.succ (Z.pos (digits2_pos m) - 1)) by lia.
    rewrite !Z.pow_succ_r by lia. lia.
  - cbn. lia.
Qed.

(** The mantissa of a binary64 has at most 53 bits, and exactly 53 when
    the exponent is above the least one. *)
Lemma valid_mantissa (s : bool) (m : positive) (e : Z) :
  valid_binary (S754_finite s m e) = true ->
  Z.pos m < 2 ^ 53 /\ (-1074 < e -> 2 ^ 52 <= Z.pos m).
Proof.
  cbn [SpecFloat.valid_binary]. unfold bounded, canonical_mantissa, fexp, emin, prec, emax.
  intros H. apply andb_prop in H. destruct H as [H _]. apply Z.eqb_eq in H.
  pose proof (digits2_pos_bounds m) as [Hlo Hhi].
  assert (Hd : Z.pos (digits2_pos m) <= 53) by lia.
  split.
  - eapply Z.lt_le_trans; [exact Hhi|]. apply Z.pow_le_mono_r; lia.
  - intros He. assert (Hd' : Z.pos (digits2_pos m) = 53) by lia.
    rewrite Hd' in Hlo. exact Hlo.
Qed.

Lemma SFltb_finite (m1 m2 : positive) (e1 e2 : Z) :
  SFltb (S754_finite false m1 e1) (S754_finite false m2 e2) = true ->
  e1 < e2 \/ (e1 = e2 /\ Z.pos m1 < Z.pos m2).
Proof.
  unfold SFltb. cbn [SFcompare].
  change (PosDef.Pos.compare_cont Eq m1 m2) with (Pos.compare m1 m2).
  destruct (e1 ?= e2) eqn:He.
  - apply Z.compare_eq in He. destruct (Pos.compare m1 m2) eqn:Hm; try discriminate.
    intros _. right. split; [exact He|].
    rewrite Pos2Z.inj_compare in Hm. apply Z.compare_lt_iff in Hm. exact Hm.
  - intros _. left. apply Z.compare_lt_iff. exact He.
  - discriminate.
Qed.

Lemma SFleb_finite (m1 m2 : positive) (e1 e2 : Z) :
  SFleb (S754_finite false m1 e1) (S754_finite false m2 e2) = true ->
  e1 < e2 \/ (e1 = e2 /\ Z.pos m1 <= Z.pos m2).
Proof.
  unfold SFleb. cbn [SFcompare].
  change (PosDef.Pos.compare_cont Eq m1 m2) with (Pos.compare m1 m2).
  destruct (e1 ?= e2) eqn:He.
  - apply Z.compare_eq in He. destruct (Pos.compare m1 m2) eqn:Hm; try discriminate;
      intros _; right; (split; [exact He|]).
    + apply Pos.compare_eq in Hm. subst. apply Z.le_refl.
    + rewrite Pos2Z.inj_compare in Hm. apply Z.compare_lt_iff in Hm.
      apply Z.lt_le_incl. exact Hm.
  - intros _. left. apply Z.compare_lt_iff. exact He.
  - discriminate.
Qed.

Lemma round_half_even_bounds (num den : Z) :
  0 <= num -> 0 < den ->
  num / den <= round_half_even num den <= num / den + 1.
Proof.
  intros Hn Hd. unfold round_half_even.
  destruct (2 * (num mod den) <? den); [lia|].
  destruct (den <? 2 * (num mod den)); [lia|].
  destruct (Z.even (num / den)); lia.
Qed.

(** A binary64 between 0 and 1, both left out, is written as 0.00 to 1.00;
    from 0.999 on it is written as 1.00. *)
Lemma format_2f_fraction (x : float) :
  PrimFloat.ltb 0 x = true -> PrimFloat.ltb x 1 = true ->
  exists h,
    0 <= h <= 100 /\
    format_2f x = str_of_Z (h / 100) ++ "." ++ two_digits (h mod 100) /\
    (finish_flag x = 1 -> h = 100).
Proof.
  rewrite !ltb_spec. unfold finish_flag. rewrite leb_spec.
  replace (Prim2SF 0) with (S754_zero false) by (vm_compute; reflexivity).
  replace (Prim2SF 1) with (S754_finite false 4503599627370496 (-52))
    by (vm_compute; reflexivity).
  replace (Prim2SF f0_999) with (S754_finite false 8998192055486251 (-53))
    by (vm_compute; reflexivity).
  unfold format_2f. pose proof (Prim2SF_valid x) as Hv.
  destruct (Prim2SF x) as [s | s | | s m e].
  - discriminate.
  - destruct s; discriminate.
  - discriminate.
  - destruct s; [discriminate|]. intros _ Hlt.
    apply valid_mantissa in Hv. destruct Hv as [Hm53 Hm52].
    apply SFltb_finite in Hlt.
    assert (He : e <= -53).
    { destruct Hlt as [Hlt | [-> Hlt]]; [lia|].
      exfalso. change (2 ^ 52) with 4503599627370496 in Hm52. lia. }
    replace (0 <=? e) with false by (symmetry; apply Z.leb_gt; lia).
    set (den := 2 ^ (- e)).
    assert (Hden : 2 ^ 53 <= den) by (apply Z.pow_le_mono_r; lia).
    assert (Hpos : 0 < den) by (change (2 ^ 53) with 9007199254740992 in Hden; lia).
    pose proof (round_half_even_bounds (Z.pos m * 100) den ltac:(lia) Hpos) as [Hlo Hhi].
    assert (Hq : 0 <= Z.pos m * 100 / den <= 99).
    { split; [apply Z.div_pos; lia|].
      assert (Z.pos m * 100 / den < 100); [|lia].
      apply Z.div_lt_upper_bound; lia. }
    exists (round_half_even (Z.pos m * 100) den).
    split; [lia | split; [reflexivity|]].
    destruct (SFleb _ _) eqn:Hle; [|discriminate]. intros _.
    apply SFleb_finite in Hle.
    assert (He53 : e = -53) by lia.
    assert (Hm : 8998192055486251 <= Z.pos m) by lia.
    subst den. rewrite He53. change (2 ^ (- -53)) with 9007199254740992.
    change (2 ^ 53) with 9007199254740992 in Hm53.
    unfold round_half_even.
    assert (Hdiv : Z.pos m * 100 / 9007199254740992 = 99).
    { symmetry. apply (Z.div_unique _ _ 99 (Z.pos m * 100 - 99 * 9007199254740992)); lia. }
    assert (Hmod : (Z.pos m * 100) mod 9007199254740992
                   = Z.pos m * 100 - 99 * 9007199254740992).
    { symmetry. apply (Z.mod_unique _ _ 99); lia. }
    rewrite Hdiv, Hmod.
    replace (2 * (Z.pos m * 100 - 99 * 9007199254740992) <? 9007199254740992) with false
      by (symmetry; apply Z.ltb_ge; lia).
    replace (9007199254740992 <? 2 * (Z.pos m * 100 - 99 * 9007199254740992)) with true
      by (symmetry; apply Z.ltb_lt; lia).
    reflexivity.
Qed.

(** X19. The progress that a round writes is a decimal with two digits
    between 0.00 and 1.00, whatever the elapsed time and the target (a
    truthy one, so not 0) are; where the finish flag is written as 1, the
    progress is written as 1.00. Computing it can fail only with the
    OverflowError of [float]. *)
Theorem progress_is_written_in_range (elapsed target : Z) :
  target <> 0 ->
  match progress_val elapsed target with
  | Ok pv =>
      exists hundredths,
        0 <= hundredths <= 100 /\
        format_2f pv
        = str_of_Z (hundredths / 100) ++ "." ++ two_digits (hundredths mod 100) /\
        (finish_flag pv = 1 -> hundredths = 100)
  | Raise e => e = OverflowError
  end.
Proof.
  intros _.
  unfold progress_val, float_of_Z, rbind.
  destruct (binary_normalize 53 1024 target 0 false) as [s | s | | s m e] eqn:Ht;
    try reflexivity;
    (destruct (binary_normalize 53 1024 elapsed 0 false) as [s' | s' | | s' m' e'] eqn:He;
     try reflexivity;
     match goal with
     | |- context [PrimFloat.div ?a ?b] => set (x := PrimFloat.div a b)
     end;
     (destruct (PrimFloat.ltb x 1) eqn:H1;
      [ destruct (PrimFloat.ltb 0 x) eqn:H0;
        [ apply format_2f_fraction; assumption
        | exists 0; split; [lia | split; [reflexivity | discriminate]] ]
      | replace (PrimFloat.ltb 0 1) with true by (vm_compute; reflexivity);
        exists 100; split; [lia | split; [reflexivity | reflexivity]] ])).
Qed.

Lemma progress_is_written_in_range_witness :
  match progress_val 299 300 with
  | Ok pv =>
      exists hundredths,
        0 <= hundredths <= 100 /\
        format_2f pv
        = str_of_Z (hundredths / 100) ++ "." ++ two_digits (hundredths mod 100) /\
        (finish_flag pv = 1 -> hundredths = 100)
  | Raise e => e = OverflowError
  end.
Proof.
  apply (progress_is_written_in_range 299 300). lia.
Defined.

(** ** Where the requests go *)

Lemma later_on_host_refl (base : string) (w : world) : later_on_host base w w.
Proof. exists []. rewrite app_nil_r. split; [reflexivity | constructor]. Qed.

Lemma later_on_host_trans (base : string) (w1 w2 w3 : world) :
  later_on_host base w1 w2 -> later_on_host base w2 w3 -> later_on_host base w1 w3.
Proof.
  intros (e1 & H1 & F1) (e2 & H2 & F2). exists (e1 ++ e2)%list. split.
  - rewrite H2, H1, app_assoc. reflexivity.
  - rewrite sent_app. apply Forall_app. auto.
Qed.

Ltac host_step base :=
  first [ apply (follows_bind (later_on_host base) (later_on_host_trans base))
        | apply (follows_try (later_on_host base) (later_on_host_trans base))
        | apply (follows_ret (later_on_host base) (later_on_host_refl base))
        | apply (follows_raise (later_on_host base) (later_on_host_refl base))
        | apply (follows_lift (later_on_host base) (later_on_host_refl base)) ].

Lemma startswith_append (base rest : string) : startswith (base ++ rest) base = true.
Proof.
  unfold startswith. induction base as [|c base IH]; cbn [append strip_prefix].
  - reflexivity.
  - rewrite Ascii.eqb_refl. exact IH.
Qed.

(** A path that starts with a slash leads below the base URL. *)
Lemma url_of_on_host (self : MoodleClient) (rest : string) (rq : request) :
  rq_url rq = url_of self (String "/" rest) -> on_host (base_url self) rq.
Proof.
  intros H. unfold on_host. rewrite H. unfold url_of.
  cbn [startswith strip_prefix Ascii.eqb Bool.eqb].
  change (base_url self ++ String "/" rest) with (base_url self ++ ("/" ++ rest)).
  replace (base_url self ++ ("/" ++ rest)) with ((base_url self ++ "/") ++ rest).
  - apply startswith_append.
  - induction (base_url self) as [|c b IH]; cbn [append]; [reflexivity | rewrite IH; reflexivity].
Qed.

Section OnHost.
Variable E : env.
Variable self : MoodleClient.

Let base := base_url self.

Lemma quiet_on_host {A} (m : M A) :
  (forall w, trace (snd (m w)) = trace w) -> follows (later_on_host base) m.
Proof.
  intros H w. exists []. rewrite app_nil_r. split; [apply H | constructor].
Qed.

Lemma time_sleep_on_host (s : Q) : follows (later_on_host base) (time_sleep E s).
Proof.
  intros w. unfold time_sleep. destruct (Qltb s 0); cbn [snd trace].
  - apply later_on_host_refl.
  - exists [EvSleep (clock w) s]. split; [reflexivity | constructor].
Qed.

Lemma send_on_host (rq : request) :
  on_host base rq -> follows (later_on_host base) (send E rq).
Proof.
  intros Hrq w. exists [EvRequest (clock w) rq]. split.
  - unfold send. destruct (http E (requests w) rq); reflexivity.
  - constructor; [exact Hrq | constructor].
Qed.

Lemma get_on_host (rest : string) params max_retries backoff :
  follows (later_on_host base) (get E self (String "/" rest) params max_retries backoff).
Proof.
  intros w. unfold get.
  destruct (get_attempts_cases E (url_of self (String "/" rest)) params backoff
              (Z.to_nat max_retries) 1 None w) as (evs & Ht & Hf & _).
  exists evs. split; [exact Ht|].
  eapply Forall_impl; [|exact Hf]. intros rq ->. eapply url_of_on_host. reflexivity.
Qed.

Lemma get_text_on_host (rest : string) :
  follows (later_on_host base) (get_text E self (String "/" rest)).
Proof.
  unfold get_text. host_step base; [apply get_on_host|].
  intros [st tx]. host_step base.
Qed.

Lemma service_on_host (params : list (string * pyval)) (body : option pyval) :
  on_host base {| rq_method := POST; rq_url := service_url self;
                  rq_params := params; rq_body := body |}.
Proof. eapply (url_of_on_host self "lib/ajax/service.php"). reflexivity. Qed.

Lemma resolve_sesskey_on_host html_context :
  follows (later_on_host base) (resolve_sesskey E self html_context).
Proof.
  unfold resolve_sesskey.
  match goal with |- context [if ?b then _ else _] => destruct b end.
  - host_step base.
  - host_step base; [|intros; host_step base].
    host_step base; [apply (get_text_on_host "my/") | intros; host_step base].
Qed.

Lemma post_service_on_host payload html_context timestamp :
  follows (later_on_host base) (post_service E self payload html_context timestamp).
Proof.
  unfold post_service. host_step base; [apply resolve_sesskey_on_host | intros sk].
  host_step base.
  { destruct timestamp; [host_step base|].
    host_step base; [apply quiet_on_host; reflexivity | intros; host_step base]. }
  intros ts. host_step base; [apply send_on_host, service_on_host|].
  intros [st tx]. host_step base; [host_step base | intros; host_step base].
Qed.

Lemma post_service_capture_on_host payload html_context timestamp :
  follows (later_on_host base)
          (Services.post_service_capture E self payload html_context timestamp).
Proof.
  unfold Services.post_service_capture.
  host_step base; [apply resolve_sesskey_on_host | intros sk].
  host_step base.
  { destruct timestamp; [host_step base|].
    host_step base; [apply quiet_on_host; reflexivity | intros; host_step base]. }
  intros ts. host_step base; [apply send_on_host, service_on_host|].
  intros [st tx]. host_step base; [host_step base | intros; host_step base].
Qed.

Lemma fetch_overview_on_host html classification :
  follows (later_on_host base)
          (Services.fetch_overview_courses_api E self html classification).
Proof.
  unfold Services.fetch_overview_courses_api.
  destruct (extract_sesskey html) as [sk|]; [|host_step base].
  destruct (negb (Extract.nonempty sk)); [host_step base|].
  host_step base; [apply send_on_host, service_on_host|].
  intros [st tx]. host_step base; [host_step base | intros _].
  host_step base; [host_step base | intros data].
  destruct data as [| | | | | [|entry rest] |]; try solve [host_step base].
  host_step base; [host_step base | intros err].
  destruct (py_truthy E err); [host_step base|].
  host_step base; [host_step base | intros d].
  host_step base; [host_step base | intros; host_step base].
Qed.

Lemma get_course_module_info_on_host cmid html_context :
  follows (later_on_host base) (get_course_module_info E self cmid html_context).
Proof.
  unfold get_course_module_info.
  host_step base; [apply post_service_on_host | intros; host_step base].
Qed.

Lemma watch_resolve_on_host (job : WatchVideoJob.t) page :
  follows (later_on_host base) (WatchVideoJob.resolve E self job page).
Proof.
  unfold WatchVideoJob.resolve.
  repeat (host_step base; [host_step base | intros]).
  host_step base.
  { match goal with |- context [if ?b then _ else _] => destruct b end.
    - host_step base; [host_step base | intros; host_step base].
    - host_step base. }
  intros.
  repeat (host_step base; [host_step base | intros]).
  host_step base.
  { match goal with |- context [if ?b then _ else _] => destruct b end.
    - host_step base; [host_step base | intros; host_step base].
    - host_step base. }
  intros. host_step base; [|intros; host_step base].
  match goal with |- context [if ?b then _ else _] => destruct b end.
  - host_step base; [host_step base | intros].
    host_step base; [apply get_course_module_info_on_host | intros; host_step base].
  - host_step base.
Qed.

Lemma watch_iteration_on_host (job : WatchVideoJob.t) cx start :
  follows (later_on_host base) (WatchVideoJob.iteration E self job cx start).
Proof.
  unfold WatchVideoJob.iteration.
  host_step base; [apply quiet_on_host; reflexivity | intros now].
  host_step base; [apply quiet_on_host; reflexivity | intros now'].
  destruct (negb (WatchVideoJob.truthy_template (WatchVideoJob.payload_template job))).
  - host_step base; [apply time_sleep_on_host | intros; host_step base].
  - destruct (json_loads _) as [payload | e]; [|host_step base].
    host_step base.
    { unfold WatchVideoJob.fill_declared. host_step base.
      - destruct (WatchVideoJob.target cx) as [tg|]; [|host_step base].
        destruct (WatchVideoJob.truthy_int (Some tg)); [|host_step base].
        host_step base; [host_step base | intros; host_step base].
      - intros p1. host_step base; [apply quiet_on_host; reflexivity | intros; host_step base]. }
    intros payload'. host_step base.
    { unfold WatchVideoJob.submit. host_step base; [|intros; host_step base].
      host_step base; [apply post_service_on_host | intros resp].
      destruct (is_completed (unwrap_response resp)); host_step base. }
    intros [|o]; [|host_step base].
    host_step base; [apply time_sleep_on_host | intros; host_step base].
Qed.

Lemma watch_loop_on_host (job : WatchVideoJob.t) cx start end_ fuel :
  follows (later_on_host base) (WatchVideoJob.loop E self job fuel cx start end_).
Proof.
  induction fuel as [|fuel IH]; cbn [WatchVideoJob.loop]; [host_step base|].
  host_step base; [apply quiet_on_host; reflexivity | intros now].
  destruct (Qltb now end_); [|host_step base].
  host_step base; [apply watch_iteration_on_host|].
  intros [|o]; [exact IH | host_step base].
Qed.

Lemma watch_run_on_host (job : WatchVideoJob.t) fuel :
  follows (later_on_host base) (WatchVideoJob.run E self job fuel).
Proof.
  unfold WatchVideoJob.run, WatchVideoJob.page_path.
  host_step base; [apply (get_text_on_host _) | intros page].
  host_step base; [apply watch_resolve_on_host | intros cx].
  destruct (negb (py_truthy E (WatchVideoJob.sesskey cx))); [host_step base|].
  host_step base; [apply quiet_on_host; reflexivity | intros start].
  apply watch_loop_on_host.
Qed.

Lemma batch_items_on_host (batch : WatchCourseIncompleteJob.t) fuel items :
  follows (later_on_host base) (WatchCourseIncompleteJob.watch_items E self batch fuel items).
Proof.
  induction items as [|it items IH]; cbn [WatchCourseIncompleteJob.watch_items];
    [host_step base|].
  host_step base; [apply watch_run_on_host | intros o].
  assert (Hgo : follows (later_on_host base)
                  (time_sleep E (inject_Z (WatchCourseIncompleteJob.gap_seconds batch)) ;;
                   outs <- WatchCourseIncompleteJob.watch_items E self batch fuel items ;;
                   ret ((vi_id it, o) :: outs))).
  { host_step base; [apply time_sleep_on_host | intros _].
    host_step base; [exact IH | intros; host_step base]. }
  destruct o; first [exact Hgo | host_step base].
Qed.

Lemma batch_run_on_host (batch : WatchCourseIncompleteJob.t) fuel :
  follows (later_on_host base) (WatchCourseIncompleteJob.run E self batch fuel).
Proof.
  unfold WatchCourseIncompleteJob.run, WatchCourseIncompleteJob.course_path.
  host_step base; [apply (get_text_on_host _) | intros page].
  destruct (filter _ _); [host_step base | apply batch_items_on_host].
Qed.

Lemma list_videos_on_host (job : ListCourseVideosJob.t) :
  follows (later_on_host base) (ListCourseVideosJob.run E self job).
Proof.
  unfold ListCourseVideosJob.run, ListCourseVideosJob.course_path.
  host_step base; [apply (get_text_on_host _) | intros; host_step base].
Qed.

Lemma list_courses_on_host overview :
  follows (later_on_host base) (ListCoursesJob.run E self overview).
Proof.
  unfold ListCoursesJob.run, get_my_courses_page.
  host_step base; [apply (get_text_on_host "my/") | intros html].
  destruct (Parsers.parse_overview_courses _); [|host_step base].
  host_step base; [apply fetch_overview_on_host | intros api].
  host_step base; [host_step base | intros; host_step base].
Qed.

Lemma probe_run_on_host (job : ProbeServiceJob.t) :
  follows (later_on_host base) (ProbeServiceJob.run E self job).
Proof.
  unfold ProbeServiceJob.run, ProbeServiceJob.page_path.
  host_step base; [apply (get_text_on_host _) | intros page].
  host_step base.
  { unfold ProbeServiceJob.resolve.
    repeat (host_step base; [host_step base | intros]).
    host_step base; [|intros; host_step base].
    match goal with |- context [if ?b then _ else _] => destruct b end; [|host_step base].
    host_step base; [|intros; host_step base].
    host_step base; [host_step base | intros cmid].
    host_step base; [apply get_course_module_info_on_host | intros cm].
    host_step base; [host_step base | intros; host_step base]. }
  intros cx. destruct (ProbeServiceJob.payload_template job) as [template|]; [|host_step base].
  destruct (negb (Extract.nonempty template)); [host_step base|].
  host_step base; [apply quiet_on_host; reflexivity | intros now].
  destruct (json_loads _) as [payload | e]; [|host_step base].
  host_step base; [apply post_service_capture_on_host | intros; host_step base].
Qed.
End OnHost.

Lemma on_host_events (base : string) (w w' : world) :
  later_on_host base w w' -> Forall (on_host base) (sent (new_events w w')).
Proof. intros (evs & Ht & Hf). rewrite (new_events_app _ _ _ Ht). exact Hf. Qed.

(** X20. Whatever the pages hold and whatever the server answers, every
    call that a job makes to the session is given a URL below the base URL
    of its client: the jobs build the URLs they ask for from the base URL,
    a fixed path and an id, never from a link of a page or from the text
    of an answer. (Where the session follows a redirect, that request is
    the library's and is not a call of the code.) *)
Theorem jobs_stay_below_the_base_url
        (E : env) (client : MoodleClient) (fuel : nat) (w : world) :
  let below (w' : world) := Forall (on_host (base_url client)) (sent (new_events w w')) in
  (forall overview, below (snd (ListCoursesJob.run E client overview w))) /\
  (forall job, below (snd (ListCourseVideosJob.run E client job w))) /\
  (forall job, below (snd (WatchVideoJob.run E client job fuel w))) /\
  (forall job, below (snd (ProbeServiceJob.run E client job w))) /\
  (forall job, below (snd (WatchCourseIncompleteJob.run E client job fuel w))).
Proof.
  intros below. subst below. cbv beta. repeat split; intros; apply on_host_events.
  - apply list_courses_on_host.
  - apply list_videos_on_host.
  - apply watch_run_on_host.
  - apply probe_run_on_host.
  - apply batch_run_on_host.
Qed.

(** ** [main.py] *)

Lemma main_on_host (E : env) (P : Main.process) overview (fuel : nat) (a : Main.args) :
  follows (later_on_host "https://courses.gdut.edu.cn") (Main.main E P overview fuel a).
Proof.
  set (site := "https://courses.gdut.edu.cn").
  unfold Main.main.
  destruct (Config.cookie_header _) as [cookie|]; [|host_step site].
  destruct (negb (Extract.nonempty cookie)); [host_step site|].
  set (client := Client.__init__ _ _).
  assert (Hjobs :
            (forall overview, follows (later_on_host site) (ListCoursesJob.run E client overview)) /\
            (forall job, follows (later_on_host site) (ListCourseVideosJob.run E client job)) /\
            (forall job, follows (later_on_host site) (WatchVideoJob.run E client job fuel)) /\
            (forall job, follows (later_on_host site) (ProbeServiceJob.run E client job)) /\
            (forall job, follows (later_on_host site)
                                 (WatchCourseIncompleteJob.run E client job fuel))).
  { repeat split; intros.
    - exact (list_courses_on_host E client overview0).
    - exact (list_videos_on_host E client job).
    - exact (watch_run_on_host E client job fuel).
    - exact (probe_run_on_host E client job).
    - exact (batch_run_on_host E client job fuel). }
  destruct Hjobs as (H1 & H2 & H3 & H4 & H5).
  destruct (Main.cmd a).
  - host_step site; [apply H1 | intros; host_step site].
  - destruct (Main.course_id a) as [cid|]; [|host_step site].
    destruct (cid =? 0); [host_step site|].
    host_step site; [apply H2 | intros; host_step site].
  - destruct (Main.video_id a) as [vid|]; [|host_step site].
    destruct (vid =? 0); [host_step site|].
    destruct (Main.template_of P a) as [tpl|]; [|host_step site].
    host_step site; [apply H3 | intros; host_step site].
  - destruct (Main.video_id a) as [vid|]; [|host_step site].
    destruct (vid =? 0); [host_step site|].
    destruct (Main.template_of P a) as [tpl|]; [|host_step site].
    host_step site; [apply H4 | intros; host_step site].
  - destruct (Main.course_id a) as [cid|]; [|host_step site].
    destruct (cid =? 0); [host_step site|].
    destruct (Main.template_of P a) as [tpl|]; [|host_step site].
    host_step site; [apply H5 | intros; host_step site].
Qed.

(** X21. [main] asks for nothing before it has a cookie and the id that
    its command needs: without a cookie from any of the three sources it
    leaves with the status 2 (sys.exit) and no call of the session was
    made; with a cookie, a command that lacks its id (no id, or the id 0)
    returns 2, again without a call. *)
Theorem main_refuses_without_cookie_or_id
        (E : env) (P : Main.process) (overview : string -> list (list Parsers.anchor))
        (fuel : nat) (a : Main.args) (w : world) :
  let r := Main.main E P overview fuel a w in
  let cfg := Config.load_config (Main.cookie_header a) (Main.cookie_value a)
                                (Main.moodle_session P) in
  let no_id (o : option Z) := o = None \/ o = Some 0 in
  (Config.cookie_header cfg = None -> r = (Ok (Main.Exits 2), w)) /\
  (forall cookie, Config.cookie_header cfg = Some cookie ->
     (Main.cmd a = Main.ListVideos \/ Main.cmd a = Main.WatchCourseIncomplete ->
      no_id (Main.course_id a) -> r = (Ok (Main.Returns 2), w)) /\
     (Main.cmd a = Main.WatchVideo \/ Main.cmd a = Main.ProbeService ->
      no_id (Main.video_id a) -> r = (Ok (Main.Returns 2), w))).
Proof.
  intros r cfg no_id. split.
  - subst r cfg. unfold Main.main. intros ->. reflexivity.
  - intros cookie Hc.
    assert (Hne : Extract.nonempty cookie = true).
    { pose proof (load_config_nonblank (Main.cookie_header a) (Main.cookie_value a)
                    (Main.moodle_session P) cookie Hc) as Hs.
      destruct cookie; [exfalso; apply Hs; reflexivity | reflexivity]. }
    subst r cfg. unfold Main.main. rewrite Hc, Hne. cbn [negb].
    split; intros [Hcmd | Hcmd] [Hid | Hid]; rewrite Hcmd, Hid; reflexivity.
Qed.

(** X26. [main], for all arguments, pages and answers: every call that it
    makes to the session, through the client and the job of its command,
    is given a URL below https://courses.gdut.edu.cn, the base URL of
    [Config]. (A redirect that the session follows is the library's
    request and is not a call of the code.) *)
Theorem main_calls_stay_on_the_site
        (E : env) (P : Main.process) (overview : string -> list (list Parsers.anchor))
        (fuel : nat) (a : Main.args) (w : world) :
  Forall (on_host "https://courses.gdut.edu.cn")
         (sent (new_events w (snd (Main.main E P overview fuel a w)))).
Proof. apply on_host_events, main_on_host. Qed.

(** ** The list of courses *)

Lemma fetch_overview_one_post (E : env) (self : MoodleClient) html classification :
  follows later_one_post (Services.fetch_overview_courses_api E self html classification).
Proof.
  unfold Services.fetch_overview_courses_api.
  destruct (extract_sesskey html) as [sk|];
    [|intros w; apply without_post_one_post, later_without_post_refl].
  destruct (negb (Extract.nonempty sk));
    [intros w; apply without_post_one_post, later_without_post_refl|].
  eapply follows_bind_mixed;
    [ apply one_post_then_without_post | intros; assumption
    | apply send_one_post | ].
  intros [st tx]. quiet_step; [quiet_step | intros _].
  quiet_step; [quiet_step | intros data].
  destruct data as [| | | | | [|entry rest] |]; try solve [quiet_step].
  quiet_step; [quiet_step | intros err].
  destruct (py_truthy E err); [quiet_step|].
  quiet_step; [quiet_step | intros d].
  quiet_step; [quiet_step | intros; quiet_step].
Qed.

(** X22. [ListCoursesJob.run] takes the courses from the page /my/ when
    the page lists any, and then sends nothing but the GETs of that page;
    only for a page without courses does it ask the service, and in all it
    sends at most one POST. *)
Theorem list_courses_prefers_the_page
        (E : env) (client : MoodleClient)
        (overview : string -> list (list Parsers.anchor)) (w : world) :
  let r := ListCoursesJob.run E client overview w in
  let page := get_my_courses_page E client w in
  (List.length (post_times (new_events w (snd r))) <= 1)%nat /\
  (forall e, fst page = Raise e -> r = (Raise e, snd page)) /\
  (forall html,
      fst page = Ok html ->
      Parsers.parse_overview_courses (overview html) <> [] ->
      r = (Ok (map ListCoursesJob.of_parsed (Parsers.parse_overview_courses (overview html))),
           snd page)).
Proof.
  intros r page. subst r page. split; [|split].
  - assert (H : follows later_one_post (ListCoursesJob.run E client overview)).
    { unfold ListCoursesJob.run, get_my_courses_page.
      eapply follows_bind_mixed;
        [ apply without_post_then_one_post | apply without_post_one_post
        | apply get_text_quiet | ].
      intros html. destruct (Parsers.parse_overview_courses _);
        [|intros w'; apply without_post_one_post, later_without_post_refl].
      eapply follows_bind_mixed;
        [ apply one_post_then_without_post | intros; assumption
        | apply fetch_overview_one_post | ].
      intros api. quiet_step; [quiet_step | intros; quiet_step]. }
    destruct (H w) as (evs & (Ht & _) & Hp). rewrite (new_events_app _ _ _ Ht). exact Hp.
  - intros e He. unfold ListCoursesJob.run, bind.
    destruct (get_my_courses_page E client w) as [[html | e'] w1]; cbn [fst snd] in *;
      [discriminate | congruence].
  - intros html Hpage Hsome. unfold ListCoursesJob.run, bind.
    destruct (get_my_courses_page E client w) as [[html' | e'] w1]; cbn [fst snd] in *;
      [|discriminate].
    injection Hpage as ->.
    destruct (Parsers.parse_overview_courses (overview html)); [contradiction | reflexivity].
Qed.

(** ** A new client *)

Lemma rstrip_char_append (ch : ascii) (s : string) :
  Client.rstrip_char ch (s ++ str1 ch) = Client.rstrip_char ch s.
Proof.
  induction s as [|c s IH]; cbn [append Client.rstrip_char str1].
  - rewrite Ascii.eqb_refl. reflexivity.
  - change (String ch EmptyString) with (str1 ch). rewrite IH. reflexivity.
Qed.

Lemma append_str1_nonempty (r : string) (ch : ascii) : r ++ str1 ch <> EmptyString.
Proof. destruct r; discriminate. Qed.

Lemma rstrip_char_end (ch : ascii) (s : string) :
  forall r, Client.rstrip_char ch s <> r ++ str1 ch.
Proof.
  induction s as [|c s IH]; intros r; cbn [Client.rstrip_char].
  - intros H. symmetry in H. revert H. apply append_str1_nonempty.
  - destruct (Client.rstrip_char ch s) as [|c0 r0] eqn:Hs.
    + destruct (Ascii.eqb c ch) eqn:Hc.
      * intros H. symmetry in H. revert H. apply append_str1_nonempty.
      * destruct r as [|c' r']; cbn [append str1].
        -- intros H. injection H as ->. rewrite Ascii.eqb_refl in Hc. discriminate.
        -- intros H. injection H as _ H. symmetry in H. revert H.
           apply append_str1_nonempty.
    + destruct r as [|c' r']; cbn [append str1].
      * discriminate.
      * intros H. injection H as _ H. apply (IH r'). exact H.
Qed.

(** X23. The base URL of a new client does not end with a slash, and
    slashes at the end of the URL it is made from make no difference to
    the URLs it requests: a path that starts with a slash is joined to the
    base with that one slash. *)
Theorem client_drops_the_trailing_slash
        (base_url : string) (cookie_header cookie_header' : option string) (path : string) :
  url_of (Client.__init__ (base_url ++ "/") cookie_header) path
  = url_of (Client.__init__ base_url cookie_header') path /\
  (forall b, HttpClient.base_url (Client.__init__ base_url cookie_header) <> b ++ "/").
Proof.
  split.
  - unfold url_of, Client.__init__. cbn [HttpClient.base_url].
    change "/"%string with (str1 "/"). rewrite rstrip_char_append. reflexivity.
  - intros b. unfold Client.__init__. cbn [HttpClient.base_url].
    change "/"%string with (str1 "/"). apply rstrip_char_end.
Qed.

(** ** The values that [extract_fsresource_info] returns *)

Lemma digit_not_space (c : ascii) : is_digit c = true -> is_space c = false.
Proof.
  destruct c as [[|] [|] [|] [|] [|] [|] [|] [|]]; vm_compute; intros H;
    first [reflexivity | discriminate H].
Qed.

Lemma rstrip_digits (s : string) : all_chars is_digit s = true -> rstrip s = s.
Proof.
  induction s as [|c s IH]; cbn [all_chars rstrip]; [reflexivity|].
  intros H. apply andb_prop in H. destruct H as [Hc Hs].
  rewrite (IH Hs). destruct s; [|reflexivity].
  rewrite (digit_not_space c Hc). reflexivity.
Qed.

Lemma strip_digits (s : string) : all_chars is_digit s = true -> strip s = s.
Proof.
  intros H. unfold strip.
  assert (Hl : lstrip s = s).
  { destruct s as [|c s]; [reflexivity|]. cbn [all_chars] in H.
    apply andb_prop in H. destruct H as [Hc _].
    cbn [lstrip]. rewrite (digit_not_space c Hc). reflexivity. }
  rewrite Hl. apply rstrip_digits, H.
Qed.

Lemma drop_underscores_digits (s : string) (after_digit : bool) :
  all_chars is_digit s = true -> s <> EmptyString \/ after_digit = true ->
  drop_underscores s after_digit = Some s.
Proof.
  revert after_digit. induction s as [|c s IH]; intros after_digit H Hne;
    cbn [drop_underscores].
  - destruct Hne as [Hne | ->]; [contradiction | reflexivity].
  - cbn [all_chars] in H. apply andb_prop in H. destruct H as [Hc Hs].
    rewrite Hc, (IH true Hs); [reflexivity | right; reflexivity].
Qed.

Lemma digits_value_nonneg (s : string) :
  forall acc, all_chars is_digit s = true -> 0 <= acc -> 0 <= digits_value s acc.
Proof.
  induction s as [|c s IH]; intros acc H Hacc; cbn [digits_value]; [exact Hacc|].
  cbn [all_chars] in H. apply andb_prop in H. destruct H as [Hc Hs].
  apply IH; [exact Hs|].
  unfold is_digit in Hc. apply andb_prop in Hc. destruct Hc as [Hlo _].
  apply Nat.leb_le in Hlo. lia.
Qed.

(** [int] of a text of digits is 0 or more. *)
Lemma int_of_digit_text (s : string) (z : Z) :
  s <> EmptyString -> all_chars is_digit s = true -> int_of_str s = Ok z -> 0 <= z.
Proof.
  intros Hne Hd. unfold int_of_str. rewrite (strip_digits s Hd).
  assert (Hbody : (let '(neg, body) :=
                     match s with
                     | String "-" r => (true, r)
                     | String "+" r => (false, r)
                     | _ => (false, s)
                     end in
                   match drop_underscores body false with
                   | Some ds => rbind (int_of_digits ds) (fun z => Ok (if neg then - z else z))
                   | None => Raise ValueError
                   end)
                  = rbind (int_of_digits s) (fun z => Ok z)).
  { destruct s as [|c s']; [contradiction|].
    cbn [all_chars] in Hd. apply andb_prop in Hd. destruct Hd as [Hc Hs].
    assert (Hall : all_chars is_digit (String c s') = true)
      by (cbn [all_chars]; rewrite Hc, Hs; reflexivity).
    destruct c as [[|] [|] [|] [|] [|] [|] [|] [|]]; try discriminate Hc;
      cbv iota beta;
      rewrite (drop_underscores_digits _ false Hall) by (left; discriminate);
      reflexivity. }
  rewrite Hbody. unfold int_of_digits, rbind.
  destruct (isdigit s); [|discriminate].
  destruct (String.length s <=? int_max_str_digits)%nat; [|discriminate].
  intros H. injection H as <-. apply digits_value_nonneg; [exact Hd | lia].
Qed.

Lemma rstrip_idempotent (s : string) : rstrip (rstrip s) = rstrip s.
Proof.
  induction s as [|c s IH]; cbn [rstrip]; [reflexivity|].
  destruct (rstrip s) as [|c' r] eqn:Hr.
  - destruct (is_space c) eqn:Hc; [reflexivity|].
    cbn [str1 rstrip]. rewrite Hc. reflexivity.
  - change (rstrip (String c (String c' r))) with
      (match rstrip (String c' r) with
       | EmptyString => if is_space c then EmptyString else str1 c
       | r0 => String c r0
       end).
    rewrite IH. reflexivity.
Qed.

Lemma strip_idempotent (s : string) : strip (strip s) = strip s.
Proof.
  destruct (strip_head s) as [H | (c & r & H & Hc)].
  - rewrite H. reflexivity.
  - unfold strip at 1. rewrite H. cbn [lstrip]. rewrite Hc. rewrite <- H.
    unfold strip. apply rstrip_idempotent.
Qed.

(** Writing a value that fits its key keeps the values as they can be. *)
Lemma set_info_values (k : string) (v : pyval) :
  info_values [(k, v)] ->
  follows (keeps info_values) (set_info k v).
Proof.
  intros Hv info (H1 & H2 & H3 & H4). unfold set_info, modify. cbn [snd].
  destruct Hv as (V1 & V2 & V3 & V4).
  unfold info_values, get_or_none in *.
  cbn [dict_get] in V1, V2, V3, V4.
  repeat split.
  - destruct (String.eqb "fsresourceid" k) eqn:Hk.
    + apply String.eqb_eq in Hk. subst k. rewrite dict_get_set_same. exact V1.
    + apply String.eqb_neq in Hk. rewrite dict_get_set_other by congruence. exact H1.
  - destruct (String.eqb "duration" k) eqn:Hk.
    + apply String.eqb_eq in Hk. subst k. rewrite dict_get_set_same. exact V2.
    + apply String.eqb_neq in Hk. rewrite dict_get_set_other by congruence. exact H2.
  - destruct (String.eqb "name" k) eqn:Hk.
    + apply String.eqb_eq in Hk. subst k. rewrite dict_get_set_same. exact V3.
    + apply String.eqb_neq in Hk. rewrite dict_get_set_other by congruence. exact H3.
  - destruct (String.eqb "sesskey" k) eqn:Hk.
    + apply String.eqb_eq in Hk. subst k. rewrite dict_get_set_same. exact V4.
    + apply String.eqb_neq in Hk. rewrite dict_get_set_other by congruence. exact H4.
Qed.

Ltac values_step :=
  first [ apply (follows_bind (keeps info_values) (keeps_trans info_values))
        | apply (follows_try (keeps info_values) (keeps_trans info_values))
        | apply (follows_ret (keeps info_values) (keeps_refl info_values))
        | apply (follows_lift (keeps info_values) (keeps_refl info_values))
        | apply (follows_get_state (keeps info_values) (keeps_refl info_values)) ].

Lemma read_playerdata_values (raw : string) :
  follows (keeps info_values) (read_playerdata raw).
Proof.
  unfold read_playerdata.
  values_step; [values_step | intros pdata].
  values_step; [values_step | intros fsid].
  values_step.
  - destruct fsid; try values_step;
      try (apply set_info_values; cbv; tauto).
    destruct (isdigit s); [|values_step].
    values_step; [values_step | intros z].
    apply set_info_values. cbv. tauto.
  - intros _. values_step; [values_step | intros sk].
    destruct sk; try values_step. destruct (Extract.nonempty s) eqn:Hs; [|values_step].
    apply set_info_values. unfold info_values, get_or_none. cbn [dict_get String.eqb].
    cbn. repeat split. apply nonempty_neq, Hs.
Qed.

Lemma follows_bind_lift {S A B} (R : S -> S -> Prop) (r : result A) (k : A -> ST S B) :
  (forall s, R s s) ->
  (forall a, r = Ok a -> follows R (k a)) ->
  follows R (bind (lift r) k).
Proof.
  intros Hrefl Hk s. unfold bind, lift. destruct r as [a | e]; [|apply Hrefl].
  apply Hk. reflexivity.
Qed.

(** The loop over the patterns writes an int; for patterns whose group
    holds digits, one that is 0 or more. *)
Lemma first_int_values (key : string) (pats : list regex) (html : string) :
  key = "fsresourceid" \/
  (key = "duration" /\
   Forall (fun pat => forall m, search pat html = Some m ->
                                group m 1 <> EmptyString /\
                                all_chars is_digit (group m 1) = true) pats) ->
  follows (keeps info_values) (first_int key pats html).
Proof.
  intros Hkey. induction pats as [|pat rest IH]; cbn [first_int]; [values_step|].
  assert (Hrest : follows (keeps info_values) (first_int key rest html)).
  { apply IH. destruct Hkey as [Hk | [Hk Hall]]; [left; exact Hk | right].
    split; [exact Hk|]. inversion Hall; assumption. }
  destruct (search pat html) as [m|] eqn:Hm; [|exact Hrest].
  values_step.
  - values_step; [|intros; values_step].
    apply follows_bind_lift; [apply keeps_refl|]. intros z Hz.
    values_step; [|intros; values_step].
    apply set_info_values.
    destruct Hkey as [-> | [-> Hall]].
    + cbv. tauto.
    + inversion Hall as [|? ? Hpat _]; subst.
      destruct (Hpat m Hm) as [Hne Hd].
      pose proof (int_of_digit_text _ z Hne Hd Hz) as Hpos.
      unfold info_values, get_or_none. cbn [dict_get String.eqb]. cbn.
      repeat split. exact Hpos.
  - intros [|]; [values_step | exact Hrest].
Qed.

(** The group of the patterns for the duration holds digits. *)
Lemma dur_patterns_digits (html : string) :
  Forall (fun pat => forall m, search pat html = Some m ->
                               group m 1 <> EmptyString /\
                               all_chars is_digit (group m 1) = true) dur_patterns.
Proof.
  unfold dur_patterns. constructor; [|constructor; [|constructor]]; intros m Hm.
  - apply (search_around_set_plus
             [RLit "duration"; ws_star; colon_or_eq; ws_star] [] [CDigit] is_digit html m);
      [reflexivity | reflexivity | apply digit_items | exact Hm].
  - apply (search_around_set_plus
             [RLit "data-duration"; ws_star; RLit "="; ws_star; ROpt true (RLit (str1 dq))]
             [ROpt true (RLit (str1 dq))] [CDigit] is_digit html m);
      [reflexivity | reflexivity | apply digit_items | exact Hm].
Qed.

Lemma info0_values : info_values info0.
Proof. cbv. tauto. Qed.

(** X24. The dict that [extract_fsresource_info] returns, for every page:
    its duration is None or an int that is 0 or more; its id is None, an
    int or a bool; its name is None or a string without white space at
    either end; its sesskey is None or a string that is not empty. *)
Theorem fsresource_info_values (html : string) :
  exists info, extract_fsresource_info html = Ok info /\ info_values info.
Proof.
  destruct (extract_fsresource_info_total html) as (info & Hinfo & _).
  exists info. split; [exact Hinfo|].
  assert (H : follows (keeps info_values) (extract_fsresource_info_steps html)).
  { unfold extract_fsresource_info_steps.
    values_step.
    { destruct (search_playerdata html); [|values_step].
      values_step; [apply read_playerdata_values | intros; values_step]. }
    intros _. values_step; [apply first_int_values; left; reflexivity|].
    intros _. values_step.
    { apply first_int_values. right. split; [reflexivity | apply dur_patterns_digits]. }
    intros _. values_step; [|intros; values_step].
    destruct (search pat_h2 html); [|values_step].
    apply set_info_values. unfold info_values, get_or_none. cbn [dict_get String.eqb]. cbn.
    repeat split. apply strip_idempotent. }
  specialize (H info0 info0_values).
  unfold extract_fsresource_info in Hinfo.
  assert (Hr : returns_state (extract_fsresource_info_steps html)).
  { unfold extract_fsresource_info_steps.
    apply returns_state_bind.
    { destruct (search_playerdata html); [|apply never_raises_ret].
      apply never_raises_try. intros; apply never_raises_ret. }
    intros _. apply returns_state_bind; [apply first_int_never_raises|].
    intros _. apply returns_state_bind; [apply first_int_never_raises|].
    intros _. apply returns_state_bind; [|intros; apply returns_state_get].
    destruct (search pat_h2 html); [apply never_raises_modify | apply never_raises_ret]. }
  rewrite (Hr info0) in Hinfo. injection Hinfo as <-. exact H.
Qed.

(** ** No video twice *)

(** A filter and a cut at the front keep the ids distinct. *)
Lemma filter_distinct_ids (keep : VideoItem -> bool) (items : list VideoItem) :
  NoDup (map vi_id items) -> NoDup (map vi_id (filter keep items)).
Proof.
  induction items as [|it items IH]; cbn [map filter]; [auto|].
  intros H. inversion H as [|? ? Hit Hrest]; subst.
  destruct (keep it); [|apply IH, Hrest].
  cbn [map]. constructor; [|apply IH, Hrest].
  intros Hin. apply Hit. apply in_map_iff in Hin. destruct Hin as (y & Hy & Hin).
  apply filter_In in Hin. destruct Hin as [Hin _]. apply in_map_iff. exists y. auto.
Qed.

Lemma firstn_distinct_ids (n : nat) (items : list VideoItem) :
  NoDup (map vi_id items) -> NoDup (map vi_id (firstn n items)).
Proof.
  revert items. induction n as [|n IH]; intros items; [constructor|].
  destruct items as [|it items]; cbn [firstn map]; [auto|].
  intros H. inversion H as [|? ? Hit Hrest]; subst.
  constructor; [|apply IH, Hrest].
  intros Hin. apply Hit. apply in_map_iff in Hin. destruct Hin as (y & Hy & Hin).
  apply in_map_iff. exists y. split; [exact Hy|].
  rewrite <- (firstn_skipn n items). apply in_or_app. left. exact Hin.
Qed.

(** X25. Where the list of the videos of the course page is the one that
    [parse_course_fsresources] makes, a batch that returns has run no
    video twice. *)
Theorem batch_runs_no_video_twice
        (E : env) (client : MoodleClient) (self : WatchCourseIncompleteJob.t)
        (fuel : nat) (w : world) (outs : list (Z * outcome)) :
  (forall page, exists soup,
      Parsers.parse_course_fsresources soup = Ok (parse_course_fsresources E page)) ->
  fst (WatchCourseIncompleteJob.run E client self fuel w) = Ok outs ->
  NoDup (map fst outs).
Proof.
  intros Hparse. unfold WatchCourseIncompleteJob.run, bind.
  destruct (get_text E client (WatchCourseIncompleteJob.course_path self) w)
    as [[page | e] w1]; [|discriminate].
  destruct (Hparse page) as (soup & Hsoup).
  apply course_videos_listed in Hsoup. destruct Hsoup as [Hnd _].
  set (items := filter WatchCourseIncompleteJob.is_incomplete (parse_course_fsresources E page)).
  assert (Hitems : NoDup (map vi_id items)) by (apply filter_distinct_ids, Hnd).
  set (chosen := match WatchCourseIncompleteJob.limit self with
                 | Some n => py_slice_to items n
                 | None => items
                 end).
  assert (Hchosen : NoDup (map vi_id chosen)).
  { subst chosen. destruct (WatchCourseIncompleteJob.limit self) as [n|]; [|exact Hitems].
    unfold py_slice_to. destruct (0 <=? n); apply firstn_distinct_ids, Hitems. }
  intros Hrun.
  assert (Hw : outs = [] \/
               fst (WatchCourseIncompleteJob.watch_items E client self fuel chosen w1) = Ok outs).
  { destruct items as [|it items']; [|right; exact Hrun].
    left. unfold ret in Hrun. cbn [fst] in Hrun. injection Hrun as <-. reflexivity. }
  destruct Hw as [-> | Hw]; [constructor|].
  destruct (watch_items_runs E client self fuel chosen w1 outs Hw) as (Hm & _).
  rewrite Hm. apply firstn_distinct_ids, Hchosen.
Qed.

Lemma batch_runs_no_video_twice_witness :
  NoDup (map fst [(11, AbortedNoSesskey); (12, AbortedNoSesskey)]).
Proof.
  apply (batch_runs_no_video_twice Scenario.no_sesskey_pages Scenario.client0
           Scenario.batch0 3 Scenario.w0).
  - intros page. exists Cases.page_of_two_videos. vm_compute. reflexivity.
  - vm_compute. reflexivity.
Defined.

(* ================================================================= *)
(** * The pacing of the submissions *)

Lemma my_page_fetch_quiet (self : MoodleClient) (fetch : list event) :
  my_page_fetch self fetch -> post_times fetch = [].
Proof.
  intros [Hf _]. induction fetch as [|ev fetch IH]; [reflexivity|].
  destruct ev as [t rq | t s]; cbn in *.
  - inversion Hf as [|? ? Hrq Hrest]; subst. cbn. apply IH, Hrest.
  - apply IH, Hf.
Qed.

(** Events without a POST ask for no sleep. *)
Lemma sleep_follows_post_quiet (d : Q) (a b : list event) :
  post_times a = [] -> sleep_follows_post d (a ++ b) = sleep_follows_post d b.
Proof.
  induction a as [|ev a IH]; intros Ha; [reflexivity|].
  cbn [app sleep_follows_post].
  destruct ev as [t rq | t s]; cbn in Ha.
  - destruct (rq_method rq); [|discriminate].
    rewrite (IH Ha). destruct (a ++ b)%list; reflexivity.
  - rewrite (IH Ha). reflexivity.
Qed.

Lemma sleep_follows_post_round (d : Q) (t t' : Q) (rq : request) (rest : list event) :
  rq_method rq = POST ->
  sleep_follows_post d (EvRequest t rq :: EvSleep t' d :: rest) = sleep_follows_post d rest.
Proof.
  intros Hm. cbn [sleep_follows_post]. rewrite Hm, Qeq_bool_refl. reflexivity.
Qed.

Section Pacing.
Variable E : env.
Variable client : MoodleClient.
Variable self : WatchVideoJob.t.

(** The POST of a round is the last thing that [submit] does. *)
Lemma submit_ends_with_post cx payload timestamp (w : world) :
  exists c w' a t rq,
    WatchVideoJob.submit E client cx payload timestamp w = (Ok c, w') /\
    trace w' = (trace w ++ a ++ [EvRequest t rq])%list /\
    post_times a = [] /\ rq_method rq = POST.
Proof.
  destruct (post_service_events E client payload (Some (WatchVideoJob.html cx))
              (Some timestamp) w) as (fetch & t & sk & ts & Hev & Hf & _).
  destruct (post_service_one_post E client payload (Some (WatchVideoJob.html cx))
              (Some timestamp) w) as (evs & (Ht & _) & _).
  rewrite (new_events_app _ _ _ Ht) in Hev. subst evs.
  unfold WatchVideoJob.submit, try_except, bind.
  destruct (post_service E client payload (Some (WatchVideoJob.html cx))
              (Some timestamp) w) as [[resp | e] w1]; cbn [snd] in Ht.
  - destruct (is_completed (unwrap_response resp)); unfold ret;
      do 5 eexists; (split; [reflexivity|]);
      (split; [exact Ht | split; [apply (my_page_fetch_quiet client), Hf | reflexivity]]).
  - unfold ret. do 5 eexists. split; [reflexivity|].
    split; [exact Ht | split; [apply (my_page_fetch_quiet client), Hf | reflexivity]].
Qed.

(** The events of a round: when it sends a POST, that is its last event,
    or the last but the sleep of the round when another round follows. *)
Lemma iteration_shape cx start (w : world) :
  let d := inject_Z (WatchVideoJob.sleep_s (WatchVideoJob.interval_seconds self)
                                           (WatchVideoJob.sessiontimeout cx)) in
  exists evs,
    trace (snd (WatchVideoJob.iteration E client self cx start w)) = (trace w ++ evs)%list /\
    (post_times evs = [] \/
     exists a t rq,
       post_times a = [] /\ rq_method rq = POST /\
       match fst (WatchVideoJob.iteration E client self cx start w) with
       | Ok Continue => exists t', evs = (a ++ [EvRequest t rq; EvSleep t' d])%list
       | _ => evs = (a ++ [EvRequest t rq])%list
       end).
Proof.
  intros d.
  destruct (WatchVideoJob.iteration E client self cx start w) as [r wf] eqn:Hit.
  cbn [fst snd]. revert Hit. unfold WatchVideoJob.iteration.
  unfold bind at 1. rewrite time_time_run.
  unfold bind at 1. rewrite time_time_run.
  destruct (negb (WatchVideoJob.truthy_template (WatchVideoJob.payload_template self))).
  { unfold bind.
    destruct (time_sleep_cases E (inject_Z (WatchVideoJob.interval_seconds self)) w)
      as [[_ H] | [_ (w' & H & (Ht & _) & _)]]; rewrite H; unfold ret;
      intros Hit; injection Hit as <- <-.
    - exists []. rewrite app_nil_r. split; [reflexivity | left; reflexivity].
    - eexists. split; [exact Ht | left; reflexivity]. }
  destruct (json_loads _) as [payload | e].
  2:{ unfold ret. intros Hit; injection Hit as <- <-.
      exists []. rewrite app_nil_r. split; [reflexivity | left; reflexivity]. }
  unfold bind at 1.
  destruct (fill_declared_quiet E cx payload (Qtrunc (clock w - start))
              (Qtrunc (clock w * 1000)) w) as (ev0 & (Ht0 & _) & Hp0).
  destruct (WatchVideoJob.fill_declared E cx payload _ _ w) as [[payload' | e] w1];
    cbn [snd] in Ht0.
  2:{ intros Hit; injection Hit as <- <-.
      exists ev0. split; [exact Ht0 | left; exact Hp0]. }
  unfold bind at 1.
  destruct (submit_ends_with_post cx payload' (Qtrunc (clock w * 1000)) w1)
    as (c & w2 & a & t & rq & Hs & Ht1 & Ha & Hm).
  rewrite Hs.
  assert (Hq : post_times (ev0 ++ a) = []).
  { rewrite post_times_app, Hp0, Ha. reflexivity. }
  destruct c as [|o].
  - unfold bind. fold d.
    destruct (time_sleep_cases E d w2) as [[_ H] | [_ (w3 & H & (Ht2 & _) & _)]];
      rewrite H; unfold ret; intros Hit; injection Hit as <- <-.
    + exists (ev0 ++ a ++ [EvRequest t rq])%list. split.
      * rewrite Ht1, Ht0, <- app_assoc. reflexivity.
      * right. exists (ev0 ++ a)%list, t, rq.
        split; [exact Hq | split; [exact Hm | rewrite <- app_assoc; reflexivity]].
    + exists (ev0 ++ a ++ [EvRequest t rq; EvSleep (clock w2) d])%list. split.
      * rewrite Ht2, Ht1, Ht0, <- !app_assoc. reflexivity.
      * right. exists (ev0 ++ a)%list, t, rq.
        split; [exact Hq | split; [exact Hm|]].
        exists (clock w2). rewrite <- app_assoc. reflexivity.
  - unfold ret. intros Hit; injection Hit as <- <-.
    exists (ev0 ++ a ++ [EvRequest t rq])%list. split.
    + rewrite Ht1, Ht0, <- app_assoc. reflexivity.
    + right. exists (ev0 ++ a)%list, t, rq.
      split; [exact Hq | split; [exact Hm | rewrite <- app_assoc; reflexivity]].
Qed.

(** After each POST but the last event, the loop sleeps the round's sleep. *)
Lemma loop_sleeps_after_posts cx start end_ (fuel : nat) :
  forall w,
    exists evs,
      trace (snd (WatchVideoJob.loop E client self fuel cx start end_ w))
      = (trace w ++ evs)%list /\
      sleep_follows_post
        (inject_Z (WatchVideoJob.sleep_s (WatchVideoJob.interval_seconds self)
                                         (WatchVideoJob.sessiontimeout cx))) evs = true.
Proof.
  set (d := inject_Z (WatchVideoJob.sleep_s (WatchVideoJob.interval_seconds self)
                                            (WatchVideoJob.sessiontimeout cx))).
  assert (Hlast : forall a t rq,
             post_times a = [] -> sleep_follows_post d (a ++ [EvRequest t rq]) = true).
  { intros a t rq Ha. rewrite (sleep_follows_post_quiet d a _ Ha). reflexivity. }
  assert (Hnone : forall evs, post_times evs = [] -> sleep_follows_post d evs = true).
  { intros evs Hp. rewrite <- (app_nil_r evs).
    rewrite (sleep_follows_post_quiet d evs [] Hp). reflexivity. }
  induction fuel as [|fuel IH]; intros w; cbn [WatchVideoJob.loop].
  - exists []. rewrite app_nil_r. split; reflexivity.
  - unfold bind at 1. rewrite time_time_run.
    destruct (Qltb (clock w) end_);
      [|exists []; cbn [snd ret]; rewrite app_nil_r; split; reflexivity].
    unfold bind.
    destruct (iteration_shape cx start w) as (ev1 & Ht1 & Hshape). fold d in Hshape.
    destruct (WatchVideoJob.iteration E client self cx start w) as [[[|o] | e] w1];
      cbn [fst snd] in *.
    + destruct (IH w1) as (ev2 & Ht2 & Hs2).
      exists (ev1 ++ ev2)%list. split; [rewrite Ht2, Ht1, <- app_assoc; reflexivity|].
      destruct Hshape as [Hq | (a & t & rq & Ha & Hm & t' & ->)].
      * rewrite (sleep_follows_post_quiet d ev1 ev2 Hq). exact Hs2.
      * rewrite <- app_assoc. rewrite (sleep_follows_post_quiet d a _ Ha).
        cbn [app]. rewrite (sleep_follows_post_round d t t' rq ev2 Hm). exact Hs2.
    + exists ev1. split; [exact Ht1|].
      destruct Hshape as [Hq | (a & t & rq & Ha & Hm & ->)]; [apply Hnone, Hq | apply Hlast, Ha].
    + exists ev1. split; [exact Ht1|].
      destruct Hshape as [Hq | (a & t & rq & Ha & Hm & ->)]; [apply Hnone, Hq | apply Hlast, Ha].
Qed.
End Pacing.

(** C4, with the half of the hint rounded down as the code rounds it. In
    the polling loop every POST is followed at once by the sleep of the
    round, of [sleep_s] seconds, unless it is the last event of the loop.
    Any two POSTs are therefore at least [sleep_s] seconds apart, and so at
    least min(interval, sessiontimeout // 2) seconds, for every interval
    and every session-timeout hint. [sleep_s] is max(30, sessiontimeout //
    2) when a hint was resolved (it is not 0, which the code reads as
    absent) and the interval exceeds it, and the interval otherwise. *)
Theorem progress_submissions_paced
        (E : env) (client : MoodleClient) (self : WatchVideoJob.t) (fuel : nat)
        (cx : WatchVideoJob.context) (start end_ : Q) (w : world) :
  let interval := WatchVideoJob.interval_seconds self in
  let hint := WatchVideoJob.sessiontimeout cx in
  let pause := WatchVideoJob.sleep_s interval hint in
  let evs := new_events w (snd (WatchVideoJob.loop E client self fuel cx start end_ w)) in
  sleep_follows_post (inject_Z pause) evs = true /\
  apart (inject_Z pause) (post_times evs) /\
  apart (inject_Z (min_gap interval hint)) (post_times evs) /\
  (forall st, hint = Some st -> st <> 0 -> st < interval -> pause = Z.max 30 (st / 2)) /\
  (hint = None \/ hint = Some 0 \/ (exists st, hint = Some st /\ interval <= st) ->
   pause = interval).
Proof.
  intros interval hint pause evs.
  destruct (loop_paced E client self cx start end_ fuel w) as (evs1 & (Ht1 & _) & Ha).
  destruct (loop_sleeps_after_posts E client self cx start end_ fuel w) as (evs2 & Ht2 & Hs).
  assert (He1 : evs = evs1) by (apply new_events_app, Ht1).
  assert (He2 : evs = evs2) by (apply new_events_app, Ht2).
  assert (Hp : apart (inject_Z pause) (post_times evs)) by (rewrite He1; exact Ha).
  split; [rewrite He2; exact Hs|].
  split; [exact Hp|].
  split; [|split].
  - eapply apart_weaken; [|exact Hp].
    rewrite <- Zle_Qle. apply min_gap_le_sleep_s.
  - intros st Hh Hz Hlt. subst pause. rewrite Hh.
    unfold WatchVideoJob.sleep_s, WatchVideoJob.truthy_int.
    replace (st =? 0) with false by (symmetry; apply Z.eqb_neq; exact Hz).
    replace (st <? interval) with true by (symmetry; apply Z.ltb_lt; exact Hlt).
    reflexivity.
  - intros [Hh | [Hh | (st & Hh & Hle)]]; subst pause; rewrite Hh;
      unfold WatchVideoJob.sleep_s, WatchVideoJob.truthy_int; try reflexivity.
    replace (st <? interval) with false by (symmetry; apply Z.ltb_ge; exact Hle).
    rewrite andb_false_r. reflexivity.
Qed.

(** C4 at a run of six submissions: a hint of 100 seconds and an interval
    of 200, so a sleep of 50 seconds, for 300 seconds. *)
Lemma progress_submissions_paced_witness :
  map Qred
      (post_times
         (new_events Scenario.w0
            (snd (WatchVideoJob.loop Scenario.unhurried Scenario.client0
                    (Scenario.job_every 200) 8 (Scenario.context_hint 100)
                    1000 1300 Scenario.w0))))
  = [1000; 1050; 1100; 1150; 1200; 1250]%Q /\
  sleep_follows_post (inject_Z 50)
    (new_events Scenario.w0
       (snd (WatchVideoJob.loop Scenario.unhurried Scenario.client0
               (Scenario.job_every 200) 8 (Scenario.context_hint 100)
               1000 1300 Scenario.w0))) = true /\
  apart (inject_Z 50)
        (post_times
           (new_events Scenario.w0
              (snd (WatchVideoJob.loop Scenario.unhurried Scenario.client0
                      (Scenario.job_every 200) 8 (Scenario.context_hint 100)
                      1000 1300 Scenario.w0)))) /\
  WatchVideoJob.sleep_s 200 (Some 100) = Z.max 30 (100 / 2).
Proof.
  pose proof (progress_submissions_paced Scenario.unhurried Scenario.client0
                (Scenario.job_every 200) 8 (Scenario.context_hint 100)
                1000 1300 Scenario.w0) as (Hsleep & Hapart & _ & Hshort & _).
  split; [vm_compute; reflexivity|].
  split; [exact Hsleep|].
  split; [exact Hapart|].
  apply (Hshort 100); [reflexivity | lia | simpl; lia].
Defined.

(** C4 as stated fails for an odd hint: with a hint of 61 seconds and an
    interval of 62 the round sleeps max(30, 61 // 2) = 30 seconds, and the
    submissions are 30 seconds apart, less than min(62, 61 / 2) = 30.5. *)
Lemma submissions_closer_than_half_the_hint :
  map Qred
      (post_times
         (new_events Scenario.w0
            (snd (WatchVideoJob.loop Scenario.unhurried Scenario.client0
                    (Scenario.job_every 62) 5 (Scenario.context_hint 61)
                    1000 1090 Scenario.w0))))
  = [1000; 1030; 1060]%Q /\
  Qred (claimed_gap 62 (Some 61)) = (61 # 2)%Q /\
  ~ apart (claimed_gap 62 (Some 61))
      (post_times
         (new_events Scenario.w0
            (snd (WatchVideoJob.loop Scenario.unhurried Scenario.client0
                    (Scenario.job_every 62) 5 (Scenario.context_hint 61)
                    1000 1090 Scenario.w0)))).
Proof.
  split; [vm_compute; reflexivity|].
  split; [vm_compute; reflexivity|].
  intros H. vm_compute in H.
  inversion H as [|t ts Hfirst _]; subst.
  inversion Hfirst as [|t2 ts2 Hpair _]; subst.
  vm_compute in Hpair. apply Hpair. reflexivity.
Qed.
